(** * glog: the rotating file sink (file.go)

    A shallow embedding of the file logger of package [log]: the in-memory
    buffer and its flush threshold ([file.write], [file.flush]), the
    background loop ([file.run]), rotation ([file.rotate]), the archiver
    ([file.compress]), the sweeper ([file.sweep]), the naming policy built by
    [Path], and the public [Write] / [Close] pair.

    Conventions.
    - Go strings and [bytes.Buffer] contents are [string]s (sequences of
      bytes); [len] is [String.length] read in [Z].
    - [int64] fields ([filesize], [time.Duration]) are [Z] with the
      two's-complement wrap-around written out ([wrap64]).
    - A [*Message] is an [option Message]; [None] is the nil pointer.
    - Calls into the operating system and into Go's libraries are recorded,
      in program order, as an event trace; what they answer (bytes written,
      stat results, directory listings, the clock, random draws) is an input
      of the model, gathered in the record [World].
    - A panic that nothing recovers ends the process: a function that can
      panic returns an [option], with [None] for the panic; an iteration
      of the loop that panics is [Crashed]. *)

From Stdlib Require Import ZArith List String Ascii Bool Lia.
From Stdlib Require Import Permutation Sorted.
From Stdlib Require DecimalString.
Import ListNotations.

#[local] Set Warnings "-register-all".

Open Scope string_scope.
Open Scope list_scope.
Open Scope Z_scope.

(** Concatenation of Go strings. *)
Infix "+++" := String.append (right associativity, at level 60).

(** ** Machine integers *)

Definition wrap64 (z : Z) : Z := (z + 2 ^ 63) mod 2 ^ 64 - 2 ^ 63.

Definition len (s : string) : Z := Z.of_nat (String.length s).

(** ** Constants of file.go and of the package *)

Definition RotateByDuration : string := "RotateByDuration".
Definition RotateBySize : string := "RotateBySize".
Definition SweepByFileCount : string := "SweepByFileCount".
Definition SweepByInterval : string := "SweepByInterval".

Definition Nanosecond : Z := 1.
Definition Second : Z := 1000000000 * Nanosecond.
Definition Minute : Z := 60 * Second.
Definition Hour : Z := 60 * Minute.

Definition DefaultRotatePolicy : string := RotateByDuration.
Definition DefaultSweepPolicy : string := SweepByFileCount.
Definition DefaultRotateFileSize : Z := Z.shiftl 50 20.
Definition DefaultRotateDuration : Z := 24 * Hour.
Definition DefaultSweepInterval : Z := 7 * 24 * Hour.
Definition DefaultSweepFileCount : Z := 5.

Definition defaultCacheSize : Z := Z.shiftl 2 10.

Definition BufferCapacity : Z := 8.

(** ** Messages *)

Inductive Level : Type :=
| LevelPanic | LevelFatal | LevelError | LevelWarn
| LevelInfo | LevelVerbose | LevelDebug | LevelTrace.

Record Message : Type := mkMessage {
  msg_Level : Level;
  msg_Filename : string;
  msg_Function : string;
  msg_Line : Z;
  msg_Message : string;
  msg_Timestamp : Z;
  msg_Fields : list (string * string)
}.

(** ** The sink *)

(** An open-file descriptor (a non-nil [os.File] pointer). *)
Definition handle : Type := Z.

(** The two closures [Path] can install in [f.format]: the default scheme,
    or the randomized scheme over a prefix and a suffix. *)
Inductive fnformat : Type :=
| FormatDefault
| FormatPattern (prefix suffix : string).

(** The compiled pattern in [f.fnregex].  [RegexDefault] is the package-level
    [defaultFnRegex]; every pattern compiled by [Path] is a pointer of its
    own, so the two never compare equal. *)
Inductive fnregexp : Type :=
| RegexDefault
| RegexPattern (source : string).

(** A buffered channel: its queued elements (oldest first) and whether
    [close] was called on it. *)
Record chan (A : Type) : Type := mkChan {
  queue : list A;
  chan_closed : bool
}.
Arguments mkChan {A} _ _.
Arguments queue {A} _.
Arguments chan_closed {A} _.

Definition Formatter : Type := Message -> string.

Record file : Type := mkFile {
  level : Level;
  path : string;
  sweepPolicy : string;
  sweepInterval : Z;
  sweepFileCount : Z;
  rotatePolicy : string;
  rotateDuration : Z;
  rotateFileSize : Z;
  filesize : Z;
  filename : string;
  file_ : option handle;
  format : fnformat;
  fnregex : fnregexp;
  buf : string;
  formatter : option Formatter;
  messages : chan (option Message);
  closeNotify : chan unit;
  closed : Z
}.

Definition set_filesize (f : file) (v : Z) : file :=
  mkFile (level f) (path f) (sweepPolicy f) (sweepInterval f)
    (sweepFileCount f) (rotatePolicy f) (rotateDuration f) (rotateFileSize f)
    v (filename f) (file_ f) (format f) (fnregex f) (buf f) (formatter f)
    (messages f) (closeNotify f) (closed f).

Definition set_filename (f : file) (v : string) : file :=
  mkFile (level f) (path f) (sweepPolicy f) (sweepInterval f)
    (sweepFileCount f) (rotatePolicy f) (rotateDuration f) (rotateFileSize f)
    (filesize f) v (file_ f) (format f) (fnregex f) (buf f) (formatter f)
    (messages f) (closeNotify f) (closed f).

Definition set_file (f : file) (v : option handle) : file :=
  mkFile (level f) (path f) (sweepPolicy f) (sweepInterval f)
    (sweepFileCount f) (rotatePolicy f) (rotateDuration f) (rotateFileSize f)
    (filesize f) (filename f) v (format f) (fnregex f) (buf f) (formatter f)
    (messages f) (closeNotify f) (closed f).

Definition set_buf (f : file) (v : string) : file :=
  mkFile (level f) (path f) (sweepPolicy f) (sweepInterval f)
    (sweepFileCount f) (rotatePolicy f) (rotateDuration f) (rotateFileSize f)
    (filesize f) (filename f) (file_ f) (format f) (fnregex f) v (formatter f)
    (messages f) (closeNotify f) (closed f).

Definition set_formatter (f : file) (v : option Formatter) : file :=
  mkFile (level f) (path f) (sweepPolicy f) (sweepInterval f)
    (sweepFileCount f) (rotatePolicy f) (rotateDuration f) (rotateFileSize f)
    (filesize f) (filename f) (file_ f) (format f) (fnregex f) (buf f) v
    (messages f) (closeNotify f) (closed f).

Definition set_messages (f : file) (v : chan (option Message)) : file :=
  mkFile (level f) (path f) (sweepPolicy f) (sweepInterval f)
    (sweepFileCount f) (rotatePolicy f) (rotateDuration f) (rotateFileSize f)
    (filesize f) (filename f) (file_ f) (format f) (fnregex f) (buf f)
    (formatter f) v (closeNotify f) (closed f).

Definition set_closeNotify (f : file) (v : chan unit) : file :=
  mkFile (level f) (path f) (sweepPolicy f) (sweepInterval f)
    (sweepFileCount f) (rotatePolicy f) (rotateDuration f) (rotateFileSize f)
    (filesize f) (filename f) (file_ f) (format f) (fnregex f) (buf f)
    (formatter f) (messages f) v (closed f).

Definition set_closed (f : file) (v : Z) : file :=
  mkFile (level f) (path f) (sweepPolicy f) (sweepInterval f)
    (sweepFileCount f) (rotatePolicy f) (rotateDuration f) (rotateFileSize f)
    (filesize f) (filename f) (file_ f) (format f) (fnregex f) (buf f)
    (formatter f) (messages f) (closeNotify f) v.

(** ** The file system as the walks see it *)

Record FileInfo : Type := mkFileInfo {
  fi_Name : string;
  fi_Size : Z;
  fi_ModTime : Z          (* nanoseconds since the Unix epoch *)
}.

Record Header : Type := mkHeader {
  hdr_Name : string;
  hdr_Size : Z;
  hdr_ModTime : Z
}.

(** An [fs.DirEntry]: its name, whether it is a directory, and what
    [Info()] answers (the file may have vanished since it was listed). *)
Record DirEntry : Type := mkDirEntry {
  de_Name : string;
  de_IsDir : bool;
  de_Info : FileInfo + string
}.

(** A directory tree: an entry, what [os.ReadDir] lists under it (in the
    lexical order [ReadDir] returns) and the error [ReadDir] may report. *)
Inductive node : Type :=
| Node (d : DirEntry) (children : list node) (readErr : option string).

Definition node_entry (n : node) : DirEntry :=
  match n with Node d _ _ => d end.

(** How a call of a [WalkDirFunc] ends when it does not return nil: it
    returns [fs.SkipDir] or an error, or it panics and does not return. *)
Inductive walkerr : Type :=
| SkipDir
| Err (e : string)
| Panicked.

Inductive statres : Type :=
| StatOk                 (* err == nil *)
| StatNotExist           (* os.IsNotExist(err) *)
| StatOther.             (* any other error *)

(** [type logfile struct] *)
Record logfile : Type := mkLogfile {
  timestamp : Z;
  lf_filename : string
}.

(** [byTimestamp.Less] on two elements. *)
Definition Less (a b : logfile) : bool := timestamp a >? timestamp b.

(** ** Calls made by the sink, in program order *)

Inductive event : Type :=
| EvFileWrite (fd : handle) (data : string)   (* File.Write *)
| EvFileClose (fd : handle)                   (* File.Close *)
| EvOpenFile (name : string) (wronly append create : bool) (perm : Z)
                                              (* os.OpenFile *)
| EvInfo (name : string)                      (* d.Info() *)
| EvCreate (name : string)                    (* os.Create *)
| EvOpen (name : string)                      (* os.Open *)
| EvGzipNewWriter (dst : handle)              (* gzip.NewWriterLevel *)
| EvTarNewWriter (dst : handle)               (* tar.NewWriter *)
| EvFileInfoHeader (fi : FileInfo)            (* tar.FileInfoHeader *)
| EvWriteHeader (dst : handle) (h : Header)   (* tw.WriteHeader *)
| EvCopy (dst src : handle)                   (* io.Copy(tw, lfile) *)
| EvRemove (name : string)                    (* os.Remove *)
| EvTarClose (dst : handle)                   (* tw.Close *)
| EvGzipFlush (dst : handle)                  (* gzw.Flush *)
| EvGzipClose (dst : handle)                  (* gzw.Close *)
| EvStat (name : string)                      (* os.Stat *)
| EvGoSweep                                   (* go f.sweep() *)
| EvAfter (d : Z)                             (* <-time.After(d) *)
| EvCloseNotify                               (* close(f.closeNotify) *)
| EvCloseMessages.                            (* close(f.messages) *)

(** ** What the environment answers *)

Record World : Type := mkWorld {
  (* fields.go: the formatter installed when f.formatter is nil *)
  TextFormatter : Formatter;
  (* the byte count File.Write reports; its error is discarded *)
  file_Write : handle -> string -> Z;
  os_OpenFile : string -> handle + string;
  os_Create : string -> handle + string;
  os_Open : string -> handle + string;
  os_Stat : string -> statres;
  (* time.Now(), in nanoseconds since the Unix epoch *)
  now : Z;
  (* what defaultFnFormatter() returns at this instant *)
  defaultFnFormatter : string;
  (* the i-th value rand.Int31() yields after rand.Seed *)
  rand_Int31 : nat -> Z;
  (* filepath.Join on two elements *)
  Join : string -> string -> string;
  (* Regexp.MatchString of the compiled pattern *)
  MatchString : fnregexp -> string -> bool;
  (* sort.Sort on a byTimestamp *)
  sort_Sort : list logfile -> list logfile;
  (* what a walk finds at f.path when it starts: the tree under it, or
     the error of os.Lstat (the directory is missing or out of reach) *)
  root : node + string;
  tar_FileInfoHeader : FileInfo -> Header + string;
  tar_WriteHeader : Header -> option string;
  io_Copy : handle -> option string
}.

Definition newline : string := String (ascii_of_nat 10) EmptyString.

(** ** Strings (package strings, slicing, fmt) *)

Definition HasSuffix (s suffix : string) : bool :=
  (String.length suffix <=? String.length s)%nat &&
  (substring (String.length s - String.length suffix)
     (String.length suffix) s =? suffix)%string.

Definition TrimSuffix (s suffix : string) : string :=
  if HasSuffix s suffix
  then substring 0 (String.length s - String.length suffix) s
  else s.

Fixpoint LastIndexByte_from (s : string) (c : ascii) (i acc : Z) : Z :=
  match s with
  | EmptyString => acc
  | String a s' =>
      LastIndexByte_from s' c (i + 1) (if Ascii.eqb a c then i else acc)
  end.

Definition LastIndexByte (s : string) (c : ascii) : Z :=
  LastIndexByte_from s c 0 (-1).

(** [fmt.Sprintf("%d", n)] *)
Definition itoa (n : Z) : string :=
  DecimalString.NilZero.string_of_int (Z.to_int n).

(** ** [file.Format], [file.write], [file.flush] *)

Definition Format (w : World) (f : file) (msg : Message) : file * string :=
  match formatter f with
  | None => (set_formatter f (Some (TextFormatter w)), TextFormatter w msg)
  | Some fm => (f, fm msg)
  end.

Definition write (w : World) (f : file) (msg : option Message)
  : file * list event :=
  match msg with
  | None => (f, [])
  | Some m =>
      let '(f1, msgstr) := Format w f m in
      let '(f2, tr) :=
        match file_ f1 with
        | Some fd =>
            if len msgstr + len (buf f1) >=? defaultCacheSize then
              let n := file_Write w fd (buf f1) in
              (set_buf (set_filesize f1 (wrap64 (filesize f1 + n))) "",
               [EvFileWrite fd (buf f1)])
            else (f1, [])
        | None => (f1, [])
        end in
      (set_buf f2 (buf f2 +++ msgstr +++ newline), tr)
  end.

Definition flush (w : World) (f : file) : file * list event :=
  match file_ f with
  | Some fd =>
      let n := file_Write w fd (buf f) in
      (set_buf (set_filesize f (wrap64 (filesize f + n))) "",
       [EvFileWrite fd (buf f)])
  | None => (f, [])
  end.

(** ** [filepath.WalkDir]

    The standard library's walk over a tree, with the callback [fn] and its
    state threaded through: the callback sees the entry first; a directory
    is then read, a read error is reported to the callback in a second
    call, and the listed children are walked in order.  [SkipDir] on a
    directory skips it; [SkipDir] from inside a directory ends that
    directory; any other error ends the walk, and so does a panic of the
    callback, which no caller recovers.  When [os.Lstat] fails on the root
    the callback is called once, with the nil entry and that error. *)

Definition WalkDirFunc (S : Type) : Type :=
  S -> string -> option DirEntry -> option string -> S * option walkerr.

Definition after_callback (d : DirEntry) (r : option walkerr)
  : option walkerr :=
  match r with
  | Some SkipDir => if de_IsDir d then None else Some SkipDir
  | other => other
  end.

Fixpoint walkDir {S : Type} (w : World) (fn : WalkDirFunc S)
  (name : string) (n : node) (st : S) {struct n} : S * option walkerr :=
  match n with
  | Node d children readErr =>
      let walk_children :=
        (fix loop (cs : list node) (st : S) {struct cs}
           : S * option walkerr :=
           match cs with
           | [] => (st, None)
           | c :: cs' =>
               match walkDir w fn (Join w name (de_Name (node_entry c)))
                       c st with
               | (st', Some SkipDir) => (st', None)
               | (st', Some (Err e)) => (st', Some (Err e))
               | (st', Some Panicked) => (st', Some Panicked)
               | (st', None) => loop cs' st'
               end
           end) in
      match fn st name (Some d) None with
      | (st1, Some e) => (st1, after_callback d (Some e))
      | (st1, None) =>
          if negb (de_IsDir d) then (st1, None)
          else
            match readErr with
            | Some re =>
                match fn st1 name (Some d) (Some re) with
                | (st2, Some e) => (st2, after_callback d (Some e))
                | (st2, None) => walk_children children st2
                end
            | None => walk_children children st1
            end
      end
  end.

(** The loop of [walkDir] over the children of the directory [name]. *)
Fixpoint walk_children {S : Type} (w : World) (fn : WalkDirFunc S)
  (name : string) (cs : list node) (st : S) : S * option walkerr :=
  match cs with
  | [] => (st, None)
  | c :: cs' =>
      match walkDir w fn (Join w name (de_Name (node_entry c))) c st with
      | (st', Some SkipDir) => (st', None)
      | (st', Some (Err e)) => (st', Some (Err e))
      | (st', Some Panicked) => (st', Some Panicked)
      | (st', None) => walk_children w fn name cs' st'
      end
  end.

(** [filepath.WalkDir]: [fs.SkipDir] at the top is turned into nil. *)
Definition WalkDir {S : Type} (w : World) (fn : WalkDirFunc S)
  (rootname : string) (st : S) : S * option walkerr :=
  let '(st', err) :=
    match root w with
    | inr e => fn st rootname None (Some e)
    | inl n => walkDir w fn rootname n st
    end in
  match err with
  | Some SkipDir => (st', None)
  | _ => (st', err)
  end.

(** ** [file.compress]

    The callback, on an entry that is not nil.  The deferred calls
    registered so far run, last registered first, when the callback
    returns, on every path.  [gzip.NewWriterLevel] cannot fail at
    [flate.BestCompression]. *)

Definition compress_entry (w : World) (f : file) (name : string)
  (d : DirEntry) : list event * option string :=
  if de_IsDir d || (filename f =? de_Name d)%string then ([], None)
  else if HasSuffix name ".log" then
    match de_Info d with
    | inr e => ([EvInfo name], Some e)
    | inl info =>
        let gzfilename :=
          substring 0 (String.length name - 4) name +++ ".tgz" in
        match os_Create w gzfilename with
        | inr e => ([EvInfo name; EvCreate gzfilename], Some e)
        | inl gzfile =>
            let defer1 := [EvFileClose gzfile] in
            match os_Open w name with
            | inr e =>
                ([EvInfo name; EvCreate gzfilename; EvOpen name] ++ defer1,
                 Some e)
            | inl lfile =>
                let defer2 := EvFileClose lfile :: defer1 in
                let defer3 :=
                  EvGzipFlush gzfile :: EvGzipClose gzfile :: defer2 in
                let defer4 := EvTarClose gzfile :: defer3 in
                let opened :=
                  [EvInfo name; EvCreate gzfilename; EvOpen name;
                   EvGzipNewWriter gzfile; EvTarNewWriter gzfile;
                   EvFileInfoHeader info] in
                match tar_FileInfoHeader w info with
                | inr e => (opened ++ defer4, Some e)
                | inl header =>
                    match tar_WriteHeader w header with
                    | Some e =>
                        (opened ++ [EvWriteHeader gzfile header] ++ defer4,
                         Some e)
                    | None =>
                        match io_Copy w lfile with
                        | Some e =>
                            (opened ++ [EvWriteHeader gzfile header;
                                        EvCopy gzfile lfile] ++ defer4,
                             Some e)
                        | None =>
                            (opened ++ [EvWriteHeader gzfile header;
                                        EvCopy gzfile lfile;
                                        EvRemove name] ++ defer4,
                             None)
                        end
                    end
                end
            end
        end
    end
  else ([], None).

(** The callback of the walk.  It never reads [err]: on the nil entry
    the call [d.IsDir()] of line 260 is a nil dereference. *)
Definition compress_fn (w : World) (f : file) : WalkDirFunc (list event) :=
  fun tr name d _ =>
    match d with
    | None => (tr, Some Panicked)
    | Some d =>
        let '(evs, r) := compress_entry w f name d in
        (tr ++ evs, option_map Err r)
    end.

(** [compress] returns what the walk returns; [None] is a panic. *)
Definition compress (w : World) (f : file)
  : option (list event * option string) :=
  match WalkDir w (compress_fn w f) (path f) [] with
  | (_, Some Panicked) => None
  | (tr, Some (Err e)) => Some (tr, Some e)
  | (tr, _) => Some (tr, None)
  end.

(** ** The naming policy installed by [Path] *)

(** Lines 118-128: the prefix and the suffix cut out of the pattern (a
    pattern that reached these lines holds no path separator). *)
Definition Path_split (pattern : string) : string * string :=
  let index := LastIndexByte pattern "*"%char in
  let '(prefix, suffix) :=
    if index >=? 0 then
      (substring 0 (Z.to_nat index) pattern,
       substring (Z.to_nat (index + 1))
         (String.length pattern - Z.to_nat (index + 1)) pattern)
    else (pattern, "") in
  if HasSuffix suffix ".log" then (prefix, suffix)
  else (prefix, suffix +++ ".log").

(** Line 130: the source of the compiled pattern. *)
Definition Path_regex (pattern : string) : fnregexp :=
  let '(prefix, suffix) := Path_split pattern in
  RegexPattern (prefix +++ "\d+" +++ TrimSuffix suffix "log" +++ "\.tgz").

Definition Path_format (pattern : string) : fnformat :=
  let '(prefix, suffix) := Path_split pattern in
  FormatPattern prefix suffix.

(** Lines 133-142: the loop [for try < 100], entered with [try] and with
    [100 - try] iterations left. *)
Fixpoint format_loop (w : World) (dir prefix suffix : string)
  (left : nat) (try : nat) : string * list event :=
  match left with
  | O => ("", [])
  | S left' =>
      let filename := prefix +++ itoa (rand_Int31 w try) +++ suffix in
      let probe := Join w dir filename in
      match os_Stat w probe with
      | StatNotExist => (filename, [EvStat probe])
      | _ =>
          let '(r, tr) := format_loop w dir prefix suffix left' (S try) in
          (r, EvStat probe :: tr)
      end
  end.

(** [f.format()] *)
Definition run_format (w : World) (f : file) : string * list event :=
  match format f with
  | FormatDefault => (defaultFnFormatter w, [])
  | FormatPattern prefix suffix => format_loop w (path f) prefix suffix 100 0
  end.

(** ** [file.rotate]

    The state, the trace and the error returned; [None] is the panic of
    [compress], which ends the process. *)

Definition rotate (w : World) (f : file)
  : option (file * list event * option string) :=
  let tr1 :=
    match file_ f with
    | Some fd => [EvFileClose fd]
    | None => []
    end in
  match compress w f with
  | None => None
  | Some (tr2, cerr) =>
      let '(f1, tr3) :=
        match cerr with
        | Some e =>
            write w f (Some (mkMessage LevelError "" "" 0 e (now w) []))
        | None => (f, [])
        end in
      let f2 := set_filesize f1 0 in
      let '(fname0, tr4) := run_format w f2 in
      let f3 := set_filename f2 fname0 in
      let f4 :=
        if (filename f3 =? "")%string
        then set_filename f3 (defaultFnFormatter w)
        else f3 in
      let fname := path f4 +++ "/" +++ filename f4 in
      let '(fd, err) :=
        match os_OpenFile w fname with
        | inl fd => (Some fd, None)
        | inr e => (None, Some e)
        end in
      Some (set_file f4 fd,
            tr1 ++ tr2 ++ tr3 ++ tr4 ++ [EvOpenFile fname true true true 432],
            err)
  end.

(** ** [file.sweep] *)

(** [time.Time.Unix]: whole seconds since the epoch, rounded down. *)
Definition Unix (t : Z) : Z := t / Second.

(** [f.fnregex != defaultFnRegex], a comparison of pointers. *)
Definition is_defaultFnRegex (r : fnregexp) : bool :=
  match r with
  | RegexDefault => true
  | RegexPattern _ => false
  end.

(** Line 377: the test that admits a path to the sweep. *)
Definition sweep_matches (w : World) (f : file) (name : string) : bool :=
  MatchString w (fnregex f) name
  || (negb (is_defaultFnRegex (fnregex f)) && MatchString w RegexDefault name).

(** The callback of the walk.  Its state is the slice [files] and the
    paths handed to [os.Remove] so far, oldest first.  The error is read
    first, so the nil entry that comes with one is never touched. *)
Definition sweep_fn (w : World) (f : file) (tm : Z)
  : WalkDirFunc (list logfile * list string) :=
  fun st name entry err =>
    match err with
    | Some _ => (st, Some SkipDir)
    | None =>
        if (name =? path f)%string then (st, None)
        else
          match entry with
          | None => (st, Some Panicked)
          | Some entry =>
              if de_IsDir entry then (st, Some SkipDir)
              else if sweep_matches w f name then
                match de_Info entry with
                | inl fi =>
                    if (sweepPolicy f =? SweepByInterval)%string then
                      if tm <? fi_ModTime fi + sweepInterval f
                      then ((fst st, snd st ++ [name]), None)
                      else (st, None)
                    else if (sweepPolicy f =? SweepByFileCount)%string then
                      ((fst st ++ [mkLogfile (Unix (fi_ModTime fi)) name],
                        snd st),
                       None)
                    else (st, None)
                | inr _ => (st, None)
                end
              else (st, None)
          end
    end.

(** [sweep] gives the paths it hands to [os.Remove], in order.  The value
    [WalkDir] returns is dropped; a panic inside the walk would leave the
    removals made so far. *)
Definition sweep (w : World) (f : file) : list string :=
  let tm := now w in
  match WalkDir w (sweep_fn w f tm) (path f) ([], []) with
  | ((_, removed), Some Panicked) => removed
  | ((files, removed), _) =>
      if (Z.of_nat (List.length files) >? sweepFileCount f)
         && (sweepFileCount f >? 0)
      then
        removed ++
        map lf_filename
          (skipn (Z.to_nat (sweepFileCount f)) (sort_Sort w files))
      else removed
  end.

(** ** The background loop, [file.run] *)

(** The case [select] picked in one iteration. *)
Inductive selected : Type :=
| CaseMessage            (* msg := <-f.messages *)
| CaseTick               (* <-ticker.C *)
| CaseCloseNotify.       (* <-f.closeNotify *)

(** A receive on [f.messages]: the oldest queued message; nil at once when
    the channel is closed and drained; [None] when the receive would
    block. *)
Definition recv_message (c : chan (option Message))
  : option (option Message * chan (option Message)) :=
  match queue c with
  | m :: q => Some (m, mkChan q (chan_closed c))
  | [] => if chan_closed c then Some (None, c) else None
  end.

Inductive iteration : Type :=
| Continue (f : file) (elapse : Z) (tr : list event)
| Return
| NotReady
| Crashed.               (* rotate panicked: the process ends *)

(** Line 235: the test made at a tick, on the updated [elapse]. *)
Definition rotation_due (f : file) (elapse : Z) : bool :=
  ((rotatePolicy f =? RotateBySize)%string
   && (filesize f >=? rotateFileSize f))
  || ((rotatePolicy f =? RotateByDuration)%string
      && (elapse >=? rotateDuration f)).

(** One iteration of the [for { select { ... } }] of [run]. *)
Definition run_iteration (w : World) (f : file) (elapse : Z) (c : selected)
  : iteration :=
  match c with
  | CaseMessage =>
      match recv_message (messages f) with
      | Some (msg, ch) =>
          let '(f', tr) := write w (set_messages f ch) msg in
          Continue f' elapse tr
      | None => NotReady
      end
  | CaseTick =>
      let elapse1 := wrap64 (elapse + Minute) in
      if rotation_due f elapse1 then
        match rotate w f with
        | Some (f', tr, _) => Continue f' 0 (tr ++ [EvGoSweep])
        | None => Crashed
        end
      else Continue f elapse1 []
  | CaseCloseNotify =>
      if chan_closed (closeNotify f) then Return else NotReady
  end.

(** The prologue of [run]: the first rotation, with [elapse] at zero;
    [None] is a panic, of [rotate] or on its error.  The loop starts from
    its result. *)
Definition run_start (w : World) (f : file)
  : option (file * Z * list event) :=
  match rotate w f with
  | Some (f', tr, None) => Some (f', 0, tr)
  | _ => None
  end.

(** ** [file.Write] and [file.Close] *)

Definition LoadUint32 (v : Z) : Z := v.

(** [atomic.CompareAndSwapUint32]: the new value of the cell and whether
    the swap happened. *)
Definition CompareAndSwapUint32 (v old new : Z) : Z * bool :=
  if v =? old then (new, true) else (v, false).

Inductive sent : Type :=
| Dropped                       (* returned before the send *)
| Enqueued (f : file)           (* the send went through *)
| Blocked                       (* the queue is full: the caller waits *)
| SendOnClosed.                 (* panic: send on closed channel *)

Definition Write (f : file) (msg : option Message) : sent :=
  if LoadUint32 (closed f) =? 1 then Dropped
  else if chan_closed (messages f) then SendOnClosed
  else if Z.of_nat (List.length (queue (messages f))) <? BufferCapacity
  then Enqueued
         (set_messages f (mkChan (queue (messages f) ++ [msg]) false))
  else Blocked.

(** [close(ch)]: [None] is the panic on a channel already closed. *)
Definition close_chan {A : Type} (c : chan A) : option (chan A) :=
  if chan_closed c then None else Some (mkChan (queue c) true).

(** [Close] returns nil on every path; [None] is a panic. *)
Definition Close (w : World) (f : file) : option (file * list event) :=
  match CompareAndSwapUint32 (closed f) 0 1 with
  | (_, false) => Some (f, [])
  | (v, true) =>
      let f1 := set_closed f v in
      match close_chan (closeNotify f1) with
      | None => None
      | Some cn =>
          let f2 := set_closeNotify f1 cn in
          match close_chan (messages f2) with
          | None => None
          | Some ms =>
              let f3 := set_messages f2 ms in
              let '(f4, tr) := flush w f3 in
              let tr' :=
                match file_ f4 with
                | Some fd => [EvFileClose fd]
                | None => []
                end in
              Some (f4,
                    [EvAfter Second; EvCloseNotify; EvCloseMessages]
                      ++ tr ++ tr')
          end
      end
  end.

(** ** Reading traces and states *)

(** The bytes handed to [File.Write] along a trace, concatenated. *)
Fixpoint written (tr : list event) : string :=
  match tr with
  | [] => ""
  | EvFileWrite _ data :: tr' => data +++ written tr'
  | _ :: tr' => written tr'
  end.

(** The formatter [file.Format] uses in the state [f]. *)
Definition effective_formatter (w : World) (f : file) : Formatter :=
  match formatter f with
  | None => TextFormatter w
  | Some fm => fm
  end.

(** The record one received message stands for: nothing for nil. *)
Definition record (w : World) (f : file) (msg : option Message) : string :=
  match msg with
  | None => ""
  | Some m => effective_formatter w f m +++ newline
  end.

Fixpoint records (w : World) (f : file) (msgs : list (option Message))
  : string :=
  match msgs with
  | [] => ""
  | m :: ms => record w f m +++ records w f ms
  end.

(** [file.write] on the messages of a list, one after the other. *)
Fixpoint write_all (w : World) (f : file) (msgs : list (option Message))
  : file * list event :=
  match msgs with
  | [] => (f, [])
  | m :: ms =>
      let '(f1, tr1) := write w f m in
      let '(f2, tr2) := write_all w f1 ms in
      (f2, tr1 ++ tr2)
  end.

(** A rotation shows in a trace as the opening of a log file. *)
Definition is_OpenFile (e : event) : bool :=
  match e with
  | EvOpenFile _ _ _ _ _ => true
  | _ => false
  end.

Definition is_GoSweep (e : event) : bool :=
  match e with
  | EvGoSweep => true
  | _ => false
  end.

Definition is_CloseNotify (e : event) : bool :=
  match e with
  | EvCloseNotify => true
  | _ => false
  end.

Definition is_CloseMessages (e : event) : bool :=
  match e with
  | EvCloseMessages => true
  | _ => false
  end.

Definition is_FileClose (e : event) : bool :=
  match e with
  | EvFileClose _ => true
  | _ => false
  end.

Definition is_flush_or_close (e : event) : bool :=
  match e with
  | EvTarClose _ | EvGzipFlush _ | EvGzipClose _ => true
  | _ => false
  end.

(** How many events of a trace satisfy [p]. *)
Definition count (p : event -> bool) (tr : list event) : nat :=
  List.length (filter p tr).

(** The name the [i]-th attempt of the naming loop builds. *)
Definition attempt (w : World) (prefix suffix : string) (i : nat) : string :=
  prefix +++ itoa (rand_Int31 w i) +++ suffix.

(** The sink has not been closed: the flag is 0 and both channels are
    open, as [NewFileLogger] leaves them. *)
Definition open_sink (f : file) : Prop :=
  closed f = 0 /\
  chan_closed (closeNotify f) = false /\
  chan_closed (messages f) = false.

(** The teardown [Close] performs on [f]. *)
Definition teardown (w : World) (f : file) : list event :=
  [EvAfter Second; EvCloseNotify; EvCloseMessages]
    ++ match file_ f with
       | Some fd => [EvFileWrite fd (buf f); EvFileClose fd]
       | None => []
       end.

(** ** Histories of calls on the sink *)

(** Calls on the sink, each taken as a whole, in the order in which their
    atomic accesses to [closed] take effect. *)
Inductive call : Type :=
| CallClose
| CallWrite (msg : option Message).

Definition is_CallClose (c : call) : bool :=
  match c with
  | CallClose => true
  | CallWrite _ => false
  end.

(** One call: the state it leaves and the trace it adds; [None] is a
    panic.  A [Write] that blocks has not returned and leaves the state
    as it was. *)
Definition run_call (w : World) (f : file) (c : call)
  : option (file * list event) :=
  match c with
  | CallClose => Close w f
  | CallWrite msg =>
      match Write f msg with
      | Dropped => Some (f, [])
      | Enqueued f' => Some (f', [])
      | Blocked => Some (f, [])
      | SendOnClosed => None
      end
  end.

Fixpoint run_calls (w : World) (f : file) (cs : list call)
  : option (file * list event) :=
  match cs with
  | [] => Some (f, [])
  | c :: cs' =>
      match run_call w f c with
      | None => None
      | Some (f1, tr1) =>
          match run_calls w f1 cs' with
          | None => None
          | Some (f2, tr2) => Some (f2, tr1 ++ tr2)
          end
      end
  end.

(** The outcomes of [n] successive [CompareAndSwapUint32(&closed, 0, 1)]
    on a cell holding [v]. *)
Fixpoint swaps (v : Z) (n : nat) : list bool :=
  match n with
  | O => []
  | S n' =>
      let '(v', ok) := CompareAndSwapUint32 v 0 1 in
      ok :: swaps v' n'
  end.

(** ** Reading the sweep *)

Definition children_of (n : node) : list node :=
  match n with Node _ cs _ => cs end.

(** The path under which the walk of [f.path] presents the child [c]. *)
Definition child_path (w : World) (f : file) (c : node) : string :=
  Join w (path f) (de_Name (node_entry c)).

(** The files the sweep considers: the entries directly under [f.path]
    that are not directories, that the pattern test admits, and whose
    [Info()] succeeds; each with the path the walk gives it. *)
Definition candidate (w : World) (f : file) (c : node)
  : option (string * FileInfo) :=
  if de_IsDir (node_entry c) then None
  else if sweep_matches w f (child_path w f c) then
    match de_Info (node_entry c) with
    | inl fi => Some (child_path w f c, fi)
    | inr _ => None
    end
  else None.

Fixpoint candidates_of (w : World) (f : file) (cs : list node)
  : list (string * FileInfo) :=
  match cs with
  | [] => []
  | c :: cs' =>
      match candidate w f c with
      | Some x => x :: candidates_of w f cs'
      | None => candidates_of w f cs'
      end
  end.

(** The entries directly under [f.path]; none when it cannot be
    reached. *)
Definition listing (w : World) : list node :=
  match root w with
  | inl n => children_of n
  | inr _ => []
  end.

Definition candidates (w : World) (f : file) : list (string * FileInfo) :=
  candidates_of w f (listing w).

(** The root is a directory that [os.ReadDir] reads without error, and no
    entry under it is presented under the root's own path. *)
Definition readable_root (w : World) (f : file) : Prop :=
  (exists d cs, root w = inl (Node d cs None) /\ de_IsDir d = true) /\
  Forall (fun c => child_path w f c <> path f) (listing w).

(** The test of line 380, on a candidate. *)
Definition swept_by_interval (w : World) (f : file)
  (x : string * FileInfo) : bool :=
  now w <? fi_ModTime (snd x) + sweepInterval f.

Definition as_logfile (x : string * FileInfo) : logfile :=
  mkLogfile (Unix (fi_ModTime (snd x))) (fst x).

(** What the callback of the sweep does to its state on a child of the
    root. *)
Definition sweep_visit (w : World) (f : file) (tm : Z)
  (st : list logfile * list string) (c : node)
  : list logfile * list string :=
  match candidate w f c with
  | Some x =>
      if (sweepPolicy f =? SweepByInterval)%string then
        if tm <? fi_ModTime (snd x) + sweepInterval f
        then (fst st, snd st ++ [fst x])
        else st
      else if (sweepPolicy f =? SweepByFileCount)%string then
        (fst st ++ [as_logfile x], snd st)
      else st
  | None => st
  end.

(** What [sort.Sort] promises: the same elements, no element [Less] than
    one placed before it. *)
Definition sort_contract (sort : list logfile -> list logfile) : Prop :=
  forall l,
    Permutation (sort l) l /\
    StronglySorted (fun a b => Less b a = false) (sort l).

(** The paths left in place by a sweep, among the candidates. *)
Definition remaining (w : World) (f : file) : list (string * FileInfo) :=
  filter (fun x => negb (existsb (String.eqb (fst x)) (sweep w f)))
    (candidates w f).

(** ** Reading the archiver *)

(** Every entry of a tree, with the path under which a walk from [name]
    presents it. *)
Fixpoint entries_under (w : World) (name : string) (n : node)
  : list (string * DirEntry) :=
  match n with
  | Node d cs _ =>
      (name, d)
      :: flat_map
           (fun c => entries_under w (Join w name (de_Name (node_entry c))) c)
           cs
  end.

(** The archive the archiver writes for the log at [name]. *)
Definition archive_of (name : string) : string :=
  substring 0 (String.length name - 4) name +++ ".tgz".

(** The calls of the archiver on a log it packs without error, in order:
    [info] is what [Info()] answered, [gz] the archive created, [lf] the
    log opened, [h] the header written. *)
Definition packing (name : string) (info : FileInfo) (gz lf : handle)
  (h : Header) : list event :=
  [EvInfo name; EvCreate (archive_of name); EvOpen name;
   EvGzipNewWriter gz; EvTarNewWriter gz; EvFileInfoHeader info;
   EvWriteHeader gz h; EvCopy gz lf; EvRemove name;
   EvTarClose gz; EvGzipFlush gz; EvGzipClose gz;
   EvFileClose lf; EvFileClose gz].

(** ** Go's insertion sort *)

(** Go's insertion sort, which [sort.Sort] runs on short slices: each
    element moves left past the neighbours it is [Less] than.  The sorted
    prefix is kept reversed. *)
Fixpoint insert_left (x : logfile) (rev_prefix : list logfile)
  : list logfile :=
  match rev_prefix with
  | [] => [x]
  | y :: r => if Less x y then y :: insert_left x r else x :: rev_prefix
  end.

Definition insertionSort (data : list logfile) : list logfile :=
  rev (fold_left (fun r x => insert_left x r) data []).

(** ** Sample environments *)

Definition plain_formatter : Formatter := fun m => msg_Message m.

Definition sample_dirent (name : string) : DirEntry :=
  mkDirEntry name true (inl (mkFileInfo name 4096 0)).

Definition regular (name : string) (size modtime : Z) : node :=
  Node (mkDirEntry name false (inl (mkFileInfo name size modtime))) [] None.

Definition Day : Z := 24 * Hour.

(** A world in which every call succeeds, over the tree [t] at the
    instant [t0]; paths are joined with a slash and no pattern matches. *)
Definition quiet_world (t : node) (t0 : Z) : World :=
  mkWorld plain_formatter
    (fun _ data => len data)
    (fun _ => inl 3) (fun _ => inl 4) (fun _ => inl 5)
    (fun _ => StatNotExist)
    t0 "glog-2026-01-02T030405.log"
    (fun i => Z.of_nat i)
    (fun a b => a +++ "/" +++ b)
    (fun _ _ => false)
    insertionSort
    (inl t)
    (fun fi => inl (mkHeader (fi_Name fi) (fi_Size fi) (fi_ModTime fi)))
    (fun _ => None)
    (fun _ => None).

(** A world for sweeps: every path ending in ".tgz" matches. *)
Definition tgz_world (t : node) (t0 : Z) : World :=
  mkWorld plain_formatter
    (fun _ data => len data)
    (fun _ => inl 3) (fun _ => inl 4) (fun _ => inl 5)
    (fun _ => StatNotExist)
    t0 "glog-2026-01-02T030405.log"
    (fun i => Z.of_nat i)
    (fun a b => a +++ "/" +++ b)
    (fun _ name => HasSuffix name ".tgz")
    insertionSort
    (inl t)
    (fun fi => inl (mkHeader (fi_Name fi) (fi_Size fi) (fi_ModTime fi)))
    (fun _ => None)
    (fun _ => None).

(** The world [w] with another answer to [os.Stat]. *)
Definition with_Stat (w : World) (st : string -> statres) : World :=
  mkWorld (TextFormatter w) (file_Write w) (os_OpenFile w) (os_Create w)
    (os_Open w) st (now w) (defaultFnFormatter w) (rand_Int31 w) (Join w)
    (MatchString w) (sort_Sort w) (root w) (tar_FileInfoHeader w)
    (tar_WriteHeader w) (io_Copy w).

(** The world [w] with another answer to [os.Create]. *)
Definition with_Create (w : World) (cr : string -> handle + string) : World :=
  mkWorld (TextFormatter w) (file_Write w) (os_OpenFile w) cr
    (os_Open w) (os_Stat w) (now w) (defaultFnFormatter w) (rand_Int31 w)
    (Join w) (MatchString w) (sort_Sort w) (root w) (tar_FileInfoHeader w)
    (tar_WriteHeader w) (io_Copy w).

(** [os.Create] is refused for the archive of "a.log" and for no other. *)
Definition refuse_a_tgz (name : string) : handle + string :=
  if (name =? "logs/a.tgz")%string
  then inr "open logs/a.tgz: permission denied"
  else inl 4.

Definition empty_dir : node := Node (sample_dirent "logs") [] None.

(** Thirty days after the epoch, a directory with one archive written
    eight days ago and one written a minute ago. *)
Definition aged_dir : node :=
  Node (sample_dirent "logs")
    [regular "glog-new.tgz" 100 (30 * Day - Minute);
     regular "glog-old.tgz" 100 (22 * Day)]
    None.

(** Two archives written within the same second, [b] after [a]. *)
Definition same_second_dir : node :=
  Node (sample_dirent "logs")
    [regular "a.tgz" 100 (5 * Second + 100000000);
     regular "b.tgz" 100 (5 * Second + 900000000)]
    None.

(** Five archives of distinct ages. *)
Definition five_dir : node :=
  Node (sample_dirent "logs")
    [regular "a.tgz" 100 (3 * Day);
     regular "b.tgz" 100 (1 * Day);
     regular "c.tgz" 100 (5 * Day);
     regular "d.tgz" 100 (2 * Day);
     regular "e.tgz" 100 (4 * Day)]
    None.

(** One rotated log beside the active one. *)
Definition one_log_dir : node :=
  Node (sample_dirent "logs")
    [regular "a.log" 10 (1 * Day); regular "glog-now.log" 1 (2 * Day)]
    None.

(** Two rotated logs beside the active one. *)
Definition two_logs_dir : node :=
  Node (sample_dirent "logs")
    [regular "a.log" 10 (1 * Day); regular "b.log" 10 (1 * Day);
     regular "glog-now.log" 1 (2 * Day)]
    None.

(** A sink as [NewFileLogger] builds it, writing under "logs", with the file
    [active] open on descriptor 3. *)
Definition sample_file (active : string) (contents : string) : file :=
  mkFile LevelDebug "logs" DefaultSweepPolicy DefaultSweepInterval
    DefaultSweepFileCount DefaultRotatePolicy DefaultRotateDuration
    DefaultRotateFileSize 0 active (Some 3) FormatDefault RegexDefault
    contents (Some plain_formatter) (mkChan [] false) (mkChan [] false) 0.

(** The sink of [Path("logs", pattern)]. *)
Definition pattern_file (pattern : string) : file :=
  mkFile LevelDebug "logs" DefaultSweepPolicy DefaultSweepInterval
    DefaultSweepFileCount DefaultRotatePolicy DefaultRotateDuration
    DefaultRotateFileSize 0 "" None (Path_format pattern)
    (Path_regex pattern) "" (Some plain_formatter)
    (mkChan [] false) (mkChan [] false) 0.

(** A sink under "logs" with the given sweep policy, interval and count. *)
Definition sweeping_file (policy : string) (interval count : Z) : file :=
  mkFile LevelDebug "logs" policy interval count DefaultRotatePolicy
    DefaultRotateDuration DefaultRotateFileSize 0 "glog-now.log" (Some 3)
    FormatDefault RegexDefault "" (Some plain_formatter)
    (mkChan [] false) (mkChan [] false) 0.

Definition sample_message (text : string) : Message :=
  mkMessage LevelInfo "" "" 0 text 0 [].

(** A buffer of [n] bytes. *)
Definition filler (n : nat) : string :=
  string_of_list_ascii (repeat "x"%char n).

(** ** Runs of the sink: writers, the loop and ticks *)

(** [Write] called for each message of a list; [None] when one of the
    calls does not enqueue (it is dropped, blocks or panics). *)
Fixpoint Write_each (f : file) (msgs : list (option Message)) : option file :=
  match msgs with
  | [] => Some f
  | m :: ms =>
      match Write f m with
      | Enqueued f' => Write_each f' ms
      | _ => None
      end
  end.

(** [n] iterations of the loop, each taking the message case; [None] when
    one of them finds nothing to receive. *)
Fixpoint receive_n (w : World) (f : file) (elapse : Z) (n : nat)
  : option (file * list event) :=
  match n with
  | O => Some (f, [])
  | S n' =>
      match run_iteration w f elapse CaseMessage with
      | Continue f1 e1 tr1 =>
          match receive_n w f1 e1 n' with
          | Some (f2, tr2) => Some (f2, tr1 ++ tr2)
          | None => None
          end
      | _ => None
      end
  end.

(** [n] iterations of the loop, each taking the tick case; [None] when
    one of them crashes. *)
Fixpoint tick_n (w : World) (f : file) (elapse : Z) (n : nat)
  : option (file * Z * list event) :=
  match n with
  | O => Some (f, elapse, [])
  | S n' =>
      match run_iteration w f elapse CaseTick with
      | Continue f1 e1 tr1 =>
          match tick_n w f1 e1 n' with
          | Some (f2, e2, tr2) => Some (f2, e2, tr1 ++ tr2)
          | None => None
          end
      | _ => None
      end
  end.

(** The world [w] in which [os.OpenFile] answers with [o]. *)
Definition with_OpenFile (w : World) (o : string -> handle + string)
  : World :=
  mkWorld (TextFormatter w) (file_Write w) o (os_Create w)
    (os_Open w) (os_Stat w) (now w) (defaultFnFormatter w) (rand_Int31 w)
    (Join w) (MatchString w) (sort_Sort w) (root w) (tar_FileInfoHeader w)
    (tar_WriteHeader w) (io_Copy w).


(** The world [w] over another tree. *)
Definition with_root (w : World) (t : node) : World :=
  mkWorld (TextFormatter w) (file_Write w) (os_OpenFile w) (os_Create w)
    (os_Open w) (os_Stat w) (now w) (defaultFnFormatter w) (rand_Int31 w)
    (Join w) (MatchString w) (sort_Sort w) (inl t) (tar_FileInfoHeader w)
    (tar_WriteHeader w) (io_Copy w).

(** The world [w] in which [os.Lstat] fails on the directory of the sink
    with the error [e]. *)
Definition without_root (w : World) (e : string) : World :=
  mkWorld (TextFormatter w) (file_Write w) (os_OpenFile w) (os_Create w)
    (os_Open w) (os_Stat w) (now w) (defaultFnFormatter w) (rand_Int31 w)
    (Join w) (MatchString w) (sort_Sort w) (inr e) (tar_FileInfoHeader w)
    (tar_WriteHeader w) (io_Copy w).

(** Whether the byte [c] occurs in [s]. *)
Fixpoint has_byte (c : ascii) (s : string) : bool :=
  match s with
  | EmptyString => false
  | String a s' => Ascii.eqb a c || has_byte c s'
  end.

(** * The rest of the package *)

(** What the host answers to the console, the formatter, the caller
    lookup and the syslog writer. *)
Record Host : Type := mkHost {
  (* isatty.IsTerminal(os.Stdout.Fd()) *)
  isTerminal : bool;
  (* runtime.GOOS == "windows" *)
  windows : bool;
  (* Timestamp.Format(defaultTimelayout) *)
  time_Format : Z -> string;
  (* runtime.Caller(2): base name of the file, line, function name *)
  Caller : option (string * Z * string);
  (* the error of slog.Writer.Close *)
  writer_Close : handle -> option string
}.

(** ** Levels *)

(** A [Level] is a [uint8]; the named ones count from zero. *)
Definition Level_code (l : Level) : Z :=
  match l with
  | LevelPanic => 0
  | LevelFatal => 1
  | LevelError => 2
  | LevelWarn => 3
  | LevelInfo => 4
  | LevelVerbose => 5
  | LevelDebug => 6
  | LevelTrace => 7
  end.

(** [Level.String], on any value of the type. *)
Definition Level_String_code (l : Z) : string :=
  if l =? 0 then "Panic"
  else if l =? 1 then "Fatal"
  else if l =? 2 then "Error"
  else if l =? 3 then "Warn"
  else if l =? 4 then "Info"
  else if l =? 5 then "Verbose"
  else if l =? 6 then "Debug"
  else if l =? 7 then "Trace"
  else "Unknown".

(** [Level.Tag], on any value of the type. *)
Definition Level_Tag_code (l : Z) : string :=
  if l =? 0 then "[P]"
  else if l =? 1 then "[F]"
  else if l =? 2 then "[E]"
  else if l =? 3 then "[W]"
  else if l =? 4 then "[I]"
  else if l =? 5 then "[V]"
  else if l =? 6 then "[D]"
  else if l =? 7 then "[T]"
  else "[U]".

Definition Level_String (l : Level) : string :=
  Level_String_code (Level_code l).

Definition Level_Tag (l : Level) : string := Level_Tag_code (Level_code l).

(** ** The text formatter (fields.go) *)

(** The loop over the fields: the separator is empty before the first
    field and a comma and a space from then on.  A field is its key and
    the [%v] form of its value, in the order the map is ranged over. *)
Fixpoint fields_text (sep : string) (fs : list (string * string)) : string :=
  match fs with
  | [] => ""
  | (key, value) :: rest =>
      sep +++ key +++ " = " +++ value
      +++ fields_text (if (sep =? "")%string then ", " else sep) rest
  end.

(** What [TextFormatter.Format] writes into its buffer. *)
Definition text_of (h : Host) (msg : Message) : string :=
  time_Format h (msg_Timestamp msg) +++ " " +++ Level_Tag (msg_Level msg)
  +++ (if negb (msg_Filename msg =? "")%string
          && negb (msg_Function msg =? "")%string
       then " [" +++ msg_Filename msg +++ ":" +++ itoa (msg_Line msg)
            +++ " - " +++ msg_Function msg +++ "]"
       else "")
  +++ " " +++ msg_Message msg
  +++ (if (0 <? Z.of_nat (List.length (msg_Fields msg)))
       then " (" +++ fields_text "" (msg_Fields msg) +++ ")"
       else "").

(** A [TextFormatter]: the buffers its pool holds, by their contents. *)
Record TextFormatter_ : Type := mkTextFormatter {
  bp : list string
}.

Fixpoint remove_nth {A : Type} (i : nat) (l : list A) : list A :=
  match l, i with
  | [], _ => []
  | _ :: r, O => r
  | x :: r, S i' => x :: remove_nth i' r
  end.

(** [acquire]: the pool hands out the buffer it picks, or none, in which
    case a new, empty buffer is made. *)
Definition acquire (tf : TextFormatter_) (pick : option nat)
  : TextFormatter_ * string :=
  match pick with
  | Some i =>
      match nth_error (bp tf) i with
      | Some b => (mkTextFormatter (remove_nth i (bp tf)), b)
      | None => (tf, "")
      end
  | None => (tf, "")
  end.

(** [recycle]: the buffer is reset, then put back. *)
Definition recycle (tf : TextFormatter_) (b : string) : TextFormatter_ :=
  mkTextFormatter ("" :: bp tf).

(** [TextFormatter.Format] *)
Definition TextFormatter_Format (h : Host) (tf : TextFormatter_)
  (pick : option nat) (msg : Message) : TextFormatter_ * string :=
  let '(tf1, b) := acquire tf pick in
  let b' := b +++ text_of h msg in
  let message := b' in
  (recycle tf1 b', message).

(** ** The console logger *)

Record console : Type := mkConsole {
  c_level : Level;
  c_colors : list string;
  c_formatter : option Formatter
}.

Definition ESC : string := String (ascii_of_nat 27) EmptyString.

(** The slice [Colorful] installs, indexed by level. *)
Definition Colorful_colors : list string :=
  [""; ESC +++ "[35m"; ESC +++ "[31m"; ESC +++ "[33m";
   ESC +++ "[36m"; ESC +++ "[37m"; ESC +++ "[32m"; ESC +++ "[34m"].

(** The option [Colorful()] applied to a console. *)
Definition Colorful (h : Host) (c : console) : console :=
  if windows h then c
  else mkConsole (c_level c) Colorful_colors (c_formatter c).

Definition NewConsoleLogger (w : World) (level : Level)
  (options : list (console -> console)) : console :=
  fold_left (fun c option => option c) options
    (mkConsole level [] (Some (TextFormatter w))).

(** [console.Format] *)
Definition console_Format (w : World) (c : console) (msg : Message)
  : console * string :=
  match c_formatter c with
  | None =>
      (mkConsole (c_level c) (c_colors c) (Some (TextFormatter w)),
       TextFormatter w msg)
  | Some fm => (c, fm msg)
  end.

(** [strings.Replace(s, old, new, 1)] *)
Fixpoint Replace1 (s old new : string) : string :=
  if prefix old s
  then new +++ substring (String.length old)
                 (String.length s - String.length old) s
  else
    match s with
    | EmptyString => ""
    | String c s' => String c (Replace1 s' old new)
    end.

(** [console.Write]: the console and the bytes printed on standard
    output; [None] is a panic (a nil message, an index out of range). *)
Definition console_Write (w : World) (h : Host) (c : console)
  (msg : option Message) : option (console * string) :=
  match msg with
  | None => None
  | Some m =>
      let lvl := Level_code (msg_Level m) in
      if (Z.of_nat (List.length (c_colors c)) >=? lvl) && isTerminal h then
        let '(c1, s) := console_Format w c m in
        match nth_error (c_colors c1) (Z.to_nat lvl) with
        | None => None
        | Some color =>
            Some (c1,
                  Replace1 s (Level_Tag (msg_Level m))
                    (color +++ Level_Tag (msg_Level m))
                  +++ ESC +++ "[0m" +++ newline)
        end
      else
        let '(c1, s) := console_Format w c m in
        Some (c1, s +++ newline)
  end.

(** ** The syslog logger (syslog.go) *)




Record syslog : Type := mkSyslog {
  s_level : Level;
  s_writer : option handle;
  s_messages : chan (option Message);
  s_formatter : option Formatter;
  s_closeNotify : chan unit;
  s_closed : Z
}.

Inductive syslog_sent : Type :=
| SysDropped
| SysEnqueued (l : syslog)
| SysBlocked
| SysSendOnClosed.

(** [syslog.Write] *)
Definition syslog_Write (l : syslog) (msg : option Message) : syslog_sent :=
  match msg, s_writer l with
  | None, _ => SysDropped
  | _, None => SysDropped
  | Some _, Some _ =>
      if LoadUint32 (s_closed l) =? 1 then SysDropped
      else if chan_closed (s_messages l) then SysSendOnClosed
      else if Z.of_nat (List.length (queue (s_messages l))) <? BufferCapacity
      then SysEnqueued
             (mkSyslog (s_level l) (s_writer l)
                (mkChan (queue (s_messages l) ++ [msg]) false)
                (s_formatter l) (s_closeNotify l) (s_closed l))
      else SysBlocked
  end.

(** [syslog.Close]: the logger and the error returned; [None] is a
    panic. *)
Definition syslog_Close (h : Host) (l : syslog)
  : option (syslog * option string) :=
  match CompareAndSwapUint32 (s_closed l) 0 1 with
  | (_, false) => Some (l, None)
  | (v, true) =>
      match close_chan (s_closeNotify l), close_chan (s_messages l) with
      | Some cn, Some ms =>
          let l' := mkSyslog (s_level l) (s_writer l) ms (s_formatter l)
                      cn v in
          match s_writer l with
          | Some wr => Some (l', writer_Close h wr)
          | None => Some (l', None)
          end
      | _, _ => None
      end
  end.

(** ** The registry of loggers (type [context]) *)

Definition ModeRelease : string := "release".
Definition ModeDebug : string := "debug".
Definition Console : string := "console".
Definition File : string := "file".
Definition Syslog : string := "syslog".

(** A value of the interface [Logger] is a pointer to one of the three
    loggers; the loggers live in a heap, by address. *)
Inductive Logger : Type :=
| LConsole (c : console)
| LFile (f : file)
| LSyslog (l : syslog).

Definition addr : Type := nat.

Definition heap : Type := list (addr * Logger).

Fixpoint heap_get (hp : heap) (a : addr) : option Logger :=
  match hp with
  | [] => None
  | (b, lg) :: rest => if Nat.eqb a b then Some lg else heap_get rest a
  end.

Definition heap_set (hp : heap) (a : addr) (lg : Logger) : heap :=
  (a, lg) :: hp.

(** [Name()] and [Level()] of the three loggers. *)
Definition Logger_Name (lg : Logger) : string :=
  match lg with
  | LConsole _ => Console
  | LFile _ => File
  | LSyslog _ => Syslog
  end.

Definition Logger_Level (lg : Logger) : Level :=
  match lg with
  | LConsole c => c_level c
  | LFile f => level f
  | LSyslog l => s_level l
  end.

(** What a call of [Write] on a logger comes to. *)
Inductive write_result : Type :=
| Wrote (lg : Logger) (out : list string)  (* returned; bytes on stdout *)
| WouldBlock                               (* the queue is full *)
| Panics.

Definition Logger_Write (w : World) (h : Host) (lg : Logger) (msg : Message)
  : write_result :=
  match lg with
  | LConsole c =>
      match console_Write w h c (Some msg) with
      | Some (c', s) => Wrote (LConsole c') [s]
      | None => Panics
      end
  | LFile f =>
      match Write f (Some msg) with
      | Dropped => Wrote (LFile f) []
      | Enqueued f' => Wrote (LFile f') []
      | Blocked => WouldBlock
      | SendOnClosed => Panics
      end
  | LSyslog l =>
      match syslog_Write l (Some msg) with
      | SysDropped => Wrote (LSyslog l) []
      | SysEnqueued l' => Wrote (LSyslog l') []
      | SysBlocked => WouldBlock
      | SysSendOnClosed => Panics
      end
  end.

(** [Close()] on a logger; the error it returns is dropped by every
    caller in the registry.  [None] is a panic. *)
Definition Logger_Close (w : World) (h : Host) (lg : Logger)
  : option Logger :=
  match lg with
  | LConsole c => Some (LConsole c)
  | LFile f =>
      match Close w f with
      | Some (f', _) => Some (LFile f')
      | None => None
      end
  | LSyslog l =>
      match syslog_Close h l with
      | Some (l', _) => Some (LSyslog l')
      | None => None
      end
  end.

(** The map [loggers]: names to pointers, one entry per name, ranged over
    in the order of the list. *)
Fixpoint map_get (m : list (string * addr)) (k : string) : option addr :=
  match m with
  | [] => None
  | (k', a) :: rest => if (k' =? k)%string then Some a else map_get rest k
  end.

Fixpoint map_set (m : list (string * addr)) (k : string) (a : addr)
  : list (string * addr) :=
  match m with
  | [] => [(k, a)]
  | (k', b) :: rest =>
      if (k' =? k)%string then (k, a) :: rest
      else (k', b) :: map_set rest k a
  end.

Record context : Type := mkContext {
  mode : string;
  initialized : Z;
  loggers : list (string * addr)
}.

(** [context.setMode]; [None] is the panic on an unknown mode. *)
Definition setMode (ctx : context) (m : string) : option context :=
  if (m =? ModeDebug)%string || (m =? "dev")%string || (m =? "devel")%string
  then Some (mkContext ModeDebug (initialized ctx) (loggers ctx))
  else if (m =? ModeRelease)%string
  then Some (mkContext ModeRelease (initialized ctx) (loggers ctx))
  else None.

(** [context.regist], on a pointer or nil; [None] is a panic. *)
Definition regist (w : World) (h : Host) (ctx : context) (hp : heap)
  (logger : option addr) : option (context * heap) :=
  match logger with
  | None => Some (ctx, hp)
  | Some a =>
      match heap_get hp a with
      | None => None
      | Some lg =>
          let name := Logger_Name lg in
          match map_get (loggers ctx) name with
          | Some old =>
              match heap_get hp old with
              | None => None
              | Some l =>
                  match Logger_Close w h l with
                  | None => None
                  | Some l' =>
                      Some (mkContext (mode ctx) (initialized ctx)
                              (map_set (loggers ctx) name a),
                            heap_set hp old l')
                  end
              end
          | None =>
              Some (mkContext (mode ctx) (initialized ctx)
                      (map_set (loggers ctx) name a),
                    hp)
          end
      end
  end.

(** The test a logger passes in release mode (lines 159 and 191). *)
Definition passes (lg : Logger) (lvl : Level) : bool :=
  (Level_code (Logger_Level lg) >=? Level_code lvl)
  && (Level_code lvl <? Level_code LevelDebug).

(** The first loop of [log]: whether some logger passes. *)
Fixpoint some_passes (hp : heap) (ls : list (string * addr)) (lvl : Level)
  : bool :=
  match ls with
  | [] => false
  | (_, a) :: rest =>
      match heap_get hp a with
      | Some lg => if passes lg lvl then true else some_passes hp rest lvl
      | None => some_passes hp rest lvl
      end
  end.

Inductive log_result : Type :=
| LogDone (hp : heap) (reached : list addr) (out : list string)
| LogBlocked
| LogPanic.

(** The second loop of [log]: the loggers written to so far and the bytes
    printed so far are carried along. *)
Fixpoint deliver (w : World) (h : Host) (md : string) (msg : Message)
  (ls : list (string * addr)) (hp : heap) (reached : list addr)
  (out : list string) : log_result :=
  match ls with
  | [] => LogDone hp reached out
  | (_, a) :: rest =>
      match heap_get hp a with
      | None => LogPanic
      | Some lg =>
          if (md =? ModeDebug)%string || passes lg (msg_Level msg) then
            match Logger_Write w h lg msg with
            | Wrote lg' o =>
                deliver w h md msg rest (heap_set hp a lg')
                  (reached ++ [a]) (out ++ o)
            | WouldBlock => LogBlocked
            | Panics => LogPanic
            end
          else deliver w h md msg rest hp reached out
      end
  end.

(** The message [log] builds. *)
Definition log_message (w : World) (h : Host) (lvl : Level)
  (message : string) (fields : list (list (string * string))) : Message :=
  let fs := match fields with [] => [] | f0 :: _ => f0 end in
  match lvl, Caller h with
  | LevelTrace, Some (file, line, function) =>
      mkMessage lvl file function line message (now w) fs
  | _, _ => mkMessage lvl "" "" 0 message (now w) fs
  end.

(** [context.log] *)
Definition log (w : World) (h : Host) (ctx : context) (hp : heap)
  (lvl : Level) (message : string) (fields : list (list (string * string)))
  : log_result :=
  if (String.length message =? 0)%nat then LogDone hp [] []
  else if (mode ctx =? ModeRelease)%string
          && negb (some_passes hp (loggers ctx) lvl)
  then LogDone hp [] []
  else
    deliver w h (mode ctx) (log_message w h lvl message fields)
      (loggers ctx) hp [] [].

(** [context.close]: every logger is closed and its entry deleted, then
    the flag is cleared; [None] is a panic. *)
Fixpoint close_each (w : World) (h : Host) (ls : list (string * addr))
  (hp : heap) : option heap :=
  match ls with
  | [] => Some hp
  | (_, a) :: rest =>
      match heap_get hp a with
      | None => None
      | Some lg =>
          match Logger_Close w h lg with
          | None => None
          | Some lg' => close_each w h rest (heap_set hp a lg')
          end
      end
  end.

Definition context_close (w : World) (h : Host) (ctx : context) (hp : heap)
  : option (context * heap) :=
  match close_each w h (loggers ctx) hp with
  | Some hp' => Some (mkContext (mode ctx) 0 [], hp')
  | None => None
  end.

(** The context [init] builds: debug mode, and a console at [LevelDebug]
    with the colours of [Colorful], at address 0. *)
Definition init_context (w : World) (h : Host) : option (context * heap) :=
  regist w h (mkContext "debug" 1 [])
    [(0%nat, LConsole (NewConsoleLogger w LevelDebug [Colorful h]))]
    (Some 0%nat).

(** ** Reading the registry *)

(** Every pointer the registry holds is in the heap, under the name of
    its logger, and no name and no pointer occurs twice. *)
Definition registry_ok (ctx : context) (hp : heap) : Prop :=
  NoDup (map fst (loggers ctx)) /\
  NoDup (map snd (loggers ctx)) /\
  forall k a, In (k, a) (loggers ctx) ->
    exists lg, heap_get hp a = Some lg /\ Logger_Name lg = k.

(** The loggers a message of level [lvl] is written to, in the order the
    registry is ranged over. *)
Fixpoint recipients (md : string) (hp : heap) (ls : list (string * addr))
  (lvl : Level) : list addr :=
  match ls with
  | [] => []
  | (_, a) :: rest =>
      match heap_get hp a with
      | Some lg =>
          if (md =? ModeDebug)%string || passes lg lvl
          then a :: recipients md hp rest lvl
          else recipients md hp rest lvl
      | None => recipients md hp rest lvl
      end
  end.

(** A syslog logger that has not been closed, after [run] has started. *)
Definition open_syslog (l : syslog) : Prop :=
  s_closed l = 0 /\
  chan_closed (s_closeNotify l) = false /\
  chan_closed (s_messages l) = false.

(** A logger in a state the package leaves it in: open, or closed. *)
Definition Logger_wf (lg : Logger) : Prop :=
  match lg with
  | LConsole _ => True
  | LFile f => open_sink f \/ closed f = 1
  | LSyslog l => open_syslog l \/ s_closed l = 1
  end.

(** Whether the logger has been closed (a console never is). *)
Definition Logger_closed (lg : Logger) : Prop :=
  match lg with
  | LConsole _ => True
  | LFile f => closed f = 1
  | LSyslog l => s_closed l = 1
  end.

(** ** Runes: what [for _, ch := range pattern] yields *)

Definition byte_of (c : ascii) : Z := Z.of_N (N_of_ascii c).

Definition RuneError : Z := 65533.

(** The table [first] of package utf8, read for a leading byte that is
    not ASCII: the length of the sequence and the range the second byte
    must lie in; [None] for a byte that cannot lead. *)
Definition lead_class (s0 : Z) : option (Z * Z * Z) :=
  if s0 <? 194 then None
  else if s0 <? 224 then Some (2, 128, 191)
  else if s0 =? 224 then Some (3, 160, 191)
  else if s0 <? 237 then Some (3, 128, 191)
  else if s0 =? 237 then Some (3, 128, 159)
  else if s0 <? 240 then Some (3, 128, 191)
  else if s0 =? 240 then Some (4, 144, 191)
  else if s0 <? 244 then Some (4, 128, 191)
  else if s0 =? 244 then Some (4, 128, 143)
  else None.

Definition continuation (b : Z) : bool := (128 <=? b) && (b <=? 191).

(** [utf8.DecodeRuneInString]: the rune and the number of bytes taken. *)
Definition decode_rune (s : string) : Z * nat :=
  match s with
  | EmptyString => (RuneError, 0%nat)
  | String c0 r0 =>
      let s0 := byte_of c0 in
      if s0 <? 128 then (s0, 1%nat)
      else
        match lead_class s0 with
        | None => (RuneError, 1%nat)
        | Some (sz, lo, hi) =>
            if len s <? sz then (RuneError, 1%nat)
            else
              match r0 with
              | EmptyString => (RuneError, 1%nat)
              | String c1 r1 =>
                  let s1 := byte_of c1 in
                  if (s1 <? lo) || (hi <? s1) then (RuneError, 1%nat)
                  else if sz <=? 2 then
                    (Z.lor (Z.shiftl (Z.land s0 31) 6) (Z.land s1 63),
                     2%nat)
                  else
                    match r1 with
                    | EmptyString => (RuneError, 1%nat)
                    | String c2 r2 =>
                        let s2 := byte_of c2 in
                        if negb (continuation s2) then (RuneError, 1%nat)
                        else if sz <=? 3 then
                          (Z.lor
                             (Z.lor (Z.shiftl (Z.land s0 15) 12)
                                (Z.shiftl (Z.land s1 63) 6))
                             (Z.land s2 63),
                           3%nat)
                        else
                          match r2 with
                          | EmptyString => (RuneError, 1%nat)
                          | String c3 _ =>
                              let s3 := byte_of c3 in
                              if negb (continuation s3)
                              then (RuneError, 1%nat)
                              else
                                (Z.lor
                                   (Z.lor
                                      (Z.lor (Z.shiftl (Z.land s0 7) 18)
                                         (Z.shiftl (Z.land s1 63) 12))
                                      (Z.shiftl (Z.land s2 63) 6))
                                   (Z.land s3 63),
                                 4%nat)
                          end
                    end
              end
        end
  end.

(** Lines 107-111 of [Path]: whether the loop over the runes of the
    pattern panics, each rune being cut to its low eight bits.  At most
    as many runes as bytes are read. *)
Fixpoint separator_found (sep : Z -> bool) (fuel : nat) (s : string)
  : bool :=
  match fuel with
  | O => false
  | S fuel' =>
      match s with
      | EmptyString => false
      | String _ _ =>
          let '(ch, size) := decode_rune s in
          if sep (ch mod 256) then true
          else
            separator_found sep fuel'
              (substring size (String.length s - size) s)
      end
  end.

(** Whether every byte of [s] is ASCII. *)
Fixpoint ascii_only (s : string) : bool :=
  match s with
  | EmptyString => true
  | String c s' => (byte_of c <? 128) && ascii_only s'
  end.

(** The rune of a two-byte sequence, as [decode_rune] computes it. *)
Definition rune2 (c0 c1 : ascii) : Z :=
  Z.lor (Z.shiftl (Z.land (byte_of c0) 31) 6) (Z.land (byte_of c1) 63).

(** ** The options and [NewFileLogger] *)

Definition set_path (f : file) (v : string) : file :=
  mkFile (level f) v (sweepPolicy f) (sweepInterval f)
    (sweepFileCount f) (rotatePolicy f) (rotateDuration f) (rotateFileSize f)
    (filesize f) (filename f) (file_ f) (format f) (fnregex f) (buf f)
    (formatter f) (messages f) (closeNotify f) (closed f).

Definition set_naming (f : file) (fmt : fnformat) (re : fnregexp) : file :=
  mkFile (level f) (path f) (sweepPolicy f) (sweepInterval f)
    (sweepFileCount f) (rotatePolicy f) (rotateDuration f) (rotateFileSize f)
    (filesize f) (filename f) (file_ f) fmt re (buf f)
    (formatter f) (messages f) (closeNotify f) (closed f).

Definition set_rotation (f : file) (policy : string) (duration size : Z)
  : file :=
  mkFile (level f) (path f) (sweepPolicy f) (sweepInterval f)
    (sweepFileCount f) policy duration size
    (filesize f) (filename f) (file_ f) (format f) (fnregex f) (buf f)
    (formatter f) (messages f) (closeNotify f) (closed f).

Definition set_sweeping (f : file) (policy : string) (interval count : Z)
  : file :=
  mkFile (level f) (path f) policy interval count (rotatePolicy f)
    (rotateDuration f) (rotateFileSize f)
    (filesize f) (filename f) (file_ f) (format f) (fnregex f) (buf f)
    (formatter f) (messages f) (closeNotify f) (closed f).

(** What the platform answers to [Path]: [os.IsPathSeparator] on a byte,
    and whether [regexp.MustCompile] accepts a source (it panics on the
    others). *)
Record Platform : Type := mkPlatform {
  IsPathSeparator : Z -> bool;
  regexp_compiles : string -> bool
}.

Definition regex_source (re : fnregexp) : string :=
  match re with
  | RegexDefault => ""
  | RegexPattern source => source
  end.

(** The options of the package. *)
Inductive Option_ : Type :=
| RotatePolicy (policy : string)
| RotateDuration (duration : Z)
| RotateFileSize (size : Z)
| SweepPolicy (policy : string)
| SweepInterval (interval : Z)
| SweepFileCount (count : Z)
| Path (dir : string) (patterns : list string)
| ColorfulOption.

(** An option applied to a file logger; [None] is a panic of [Path]: on a
    separator in the pattern, or in [regexp.MustCompile]. *)
Definition option_on_file (p : Platform) (o : Option_) (f : file)
  : option file :=
  match o with
  | RotatePolicy p =>
      Some (set_rotation f p (rotateDuration f) (rotateFileSize f))
  | RotateDuration d =>
      Some (set_rotation f (rotatePolicy f) d (rotateFileSize f))
  | RotateFileSize n =>
      Some (set_rotation f (rotatePolicy f) (rotateDuration f) n)
  | SweepPolicy p =>
      Some (set_sweeping f p (sweepInterval f) (sweepFileCount f))
  | SweepInterval d =>
      Some (set_sweeping f (sweepPolicy f) d (sweepFileCount f))
  | SweepFileCount n =>
      Some (set_sweeping f (sweepPolicy f) (sweepInterval f) n)
  | Path dir patterns =>
      match patterns with
      | [] => Some (set_naming (set_path f dir) FormatDefault RegexDefault)
      | pattern :: _ =>
          if separator_found (IsPathSeparator p) (String.length pattern)
               pattern
          then None
          else if regexp_compiles p (regex_source (Path_regex pattern)) then
            Some (set_naming (set_path f dir) (Path_format pattern)
                    (Path_regex pattern))
          else None
      end
  | ColorfulOption => Some f
  end.

(** What no option touches: the level, the handle, the counter and the
    channels. *)
Definition same_plumbing (f g : file) : Prop :=
  level g = level f /\ file_ g = file_ f /\ filesize g = filesize f /\
  messages g = messages f /\ closeNotify g = closeNotify f /\
  closed g = closed f.

Fixpoint options_on_file (p : Platform) (os : list Option_) (f : file)
  : option file :=
  match os with
  | [] => Some f
  | o :: rest =>
      match option_on_file p o f with
      | Some f' => options_on_file p rest f'
      | None => None
      end
  end.

(** [NewFileLogger]: the sink, the directory handed to [os.MkdirAll] if
    one is, and the trace of the first rotation; [None] is a panic (of an
    option, or of [run] when the first rotation fails). *)
Definition NewFileLogger (w : World) (p : Platform) (lvl : Level)
  (options : list Option_) : option (file * option string * list event) :=
  let f0 :=
    mkFile lvl "" DefaultSweepPolicy DefaultSweepInterval
      DefaultSweepFileCount DefaultRotatePolicy DefaultRotateDuration
      DefaultRotateFileSize 0 "" None FormatDefault RegexDefault ""
      (Some (TextFormatter w)) (mkChan [] false) (mkChan [] false) 0 in
  match options_on_file p options f0 with
  | None => None
  | Some f1 =>
      let '(f2, made) :=
        if 0 <? len (path f1) then (f1, Some (path f1))
        else (set_path f1 ".", None) in
      match run_start w f2 with
      | Some (f3, _, tr) => Some (f3, made, tr)
      | None => None
      end
  end.

(** A Unix platform whose [regexp] accepts every source. *)
Definition unix : Platform :=
  mkPlatform (fun c => c =? 47) (fun _ => true).

(** A host with a terminal, not on Windows, whose clock prints one
    fixed instant. *)
Definition sample_host : Host :=
  mkHost true false (fun _ => "2026/01/02 03:04:05.000") None
    (fun _ => None).

(** * Properties *)

(** ** Strings *)

Lemma append_assoc (a b c : string) : (a +++ b) +++ c = a +++ b +++ c.
Proof.
  induction a as [|ch a IH]; simpl; [reflexivity|].
  now rewrite IH.
Qed.

Lemma append_nil_r (a : string) : a +++ "" = a.
Proof.
  induction a as [|ch a IH]; simpl; [reflexivity|].
  now rewrite IH.
Qed.

Lemma length_append (a b : string) :
  String.length (a +++ b) = (String.length a + String.length b)%nat.
Proof.
  induction a as [|ch a IH]; simpl; [reflexivity|].
  now rewrite IH.
Qed.

Lemma written_app (t1 t2 : list event) :
  written (t1 ++ t2) = written t1 +++ written t2.
Proof.
  induction t1 as [|e t1 IH]; simpl; [reflexivity|].
  destruct e; simpl; try exact IH.
  now rewrite IH, append_assoc.
Qed.

Lemma defaultCacheSize_value : defaultCacheSize = 2048.
Proof. reflexivity. Qed.

(** ** The buffer: [file.write] *)

Lemma Format_snd (w : World) (f : file) (m : Message) :
  snd (Format w f m) = effective_formatter w f m.
Proof.
  unfold Format, effective_formatter.
  now destruct (formatter f).
Qed.

Lemma Format_keeps (w : World) (f : file) (m : Message) :
  file_ (fst (Format w f m)) = file_ f /\
  buf (fst (Format w f m)) = buf f /\
  filesize (fst (Format w f m)) = filesize f /\
  effective_formatter w (fst (Format w f m)) = effective_formatter w f.
Proof.
  unfold Format, effective_formatter.
  destruct (formatter f) eqn:E; simpl; rewrite ?E; repeat split; reflexivity.
Qed.

(** What [write] does with a message, case by case. *)
Lemma write_Some (w : World) (f : file) (m : Message) :
  let msgstr := effective_formatter w f m in
  let flushing :=
    match file_ f with
    | Some _ => len msgstr + len (buf f) >=? defaultCacheSize
    | None => false
    end in
  snd (write w f (Some m)) =
    (match file_ f with
     | Some fd => if flushing then [EvFileWrite fd (buf f)] else []
     | None => []
     end) /\
  buf (fst (write w f (Some m))) =
    (if flushing then msgstr +++ newline
     else buf f +++ msgstr +++ newline) /\
  filesize (fst (write w f (Some m))) =
    (match file_ f with
     | Some fd =>
         if flushing then wrap64 (filesize f + file_Write w fd (buf f))
         else filesize f
     | None => filesize f
     end) /\
  file_ (fst (write w f (Some m))) = file_ f /\
  effective_formatter w (fst (write w f (Some m))) = effective_formatter w f.
Proof.
  intros msgstr flushing. subst msgstr flushing.
  unfold write.
  pose proof (Format_snd w f m) as Hs.
  destruct (Format_keeps w f m) as (Hf & Hb & Hz & He).
  destruct (Format w f m) as [f1 s]. simpl in *. subst s.
  rewrite Hf, Hb, Hz.
  destruct (file_ f) as [fd|]; simpl.
  - destruct (len (effective_formatter w f m) + len (buf f)
              >=? defaultCacheSize); simpl; rewrite ?Hf, ?Hb;
      repeat split; auto.
  - rewrite Hf, Hb. repeat split; auto.
Qed.

Lemma write_None (w : World) (f : file) : write w f None = (f, []).
Proof. reflexivity. Qed.

Lemma write_keeps_formatter (w : World) (f : file) (msg : option Message) :
  effective_formatter w (fst (write w f msg)) = effective_formatter w f.
Proof.
  destruct msg as [m|]; [|reflexivity].
  apply (write_Some w f m).
Qed.

(** One call of [write]: the bytes flushed, followed by the buffer left,
    are the old buffer followed by the record of the message. *)
Lemma write_stream (w : World) (f : file) (msg : option Message) :
  written (snd (write w f msg)) +++ buf (fst (write w f msg)) =
  buf f +++ record w f msg.
Proof.
  destruct msg as [m|].
  - destruct (write_Some w f m) as (Ht & Hb & _).
    rewrite Ht, Hb. simpl record.
    destruct (file_ f) as [fd|]; [|reflexivity].
    destruct (len (effective_formatter w f m) + len (buf f)
              >=? defaultCacheSize); simpl.
    + now rewrite append_nil_r.
    + reflexivity.
  - simpl. now rewrite append_nil_r.
Qed.

Lemma records_formatter (w : World) (f g : file)
  (msgs : list (option Message)) :
  effective_formatter w g = effective_formatter w f ->
  records w g msgs = records w f msgs.
Proof.
  intros H. induction msgs as [|m ms IH]; simpl; [reflexivity|].
  rewrite IH. destruct m as [m|]; simpl; [|reflexivity].
  now rewrite H.
Qed.

Lemma write_all_cons (w : World) (f : file) (m : option Message)
  (ms : list (option Message)) :
  write_all w f (m :: ms) =
  (fst (write_all w (fst (write w f m)) ms),
   snd (write w f m) ++ snd (write_all w (fst (write w f m)) ms)).
Proof.
  simpl. destruct (write w f m) as [f1 tr1]. simpl.
  now destruct (write_all w f1 ms).
Qed.

Lemma write_all_stream (w : World) (msgs : list (option Message)) :
  forall f : file,
    written (snd (write_all w f msgs)) +++ buf (fst (write_all w f msgs)) =
    buf f +++ records w f msgs.
Proof.
  induction msgs as [|m ms IH]; intros f.
  - simpl. now rewrite append_nil_r.
  - rewrite write_all_cons. cbn [fst snd].
    rewrite written_app, append_assoc, IH.
    rewrite <- append_assoc, write_stream, append_assoc.
    rewrite (records_formatter w f _ ms (write_keeps_formatter w f m)).
    reflexivity.
Qed.

(** With a file open, a message whose formatted length plus the length of
    the buffer reaches 2048 bytes makes [write] hand the whole buffer to
    the file, count the bytes the file reports, and start the buffer afresh
    with the message and its newline; below 2048 bytes nothing is written
    and the message and its newline are appended to the buffer. *)
Lemma write_threshold
  (w : World) (f : file) (m : Message) (fd : handle) :
  file_ f = Some fd ->
  let msgstr := effective_formatter w f m in
  let f' := fst (write w f (Some m)) in
  let tr := snd (write w f (Some m)) in
  (2048 <= len msgstr + len (buf f) ->
     tr = [EvFileWrite fd (buf f)] /\
     buf f' = msgstr +++ newline /\
     filesize f' = wrap64 (filesize f + file_Write w fd (buf f))) /\
  (len msgstr + len (buf f) < 2048 ->
     tr = [] /\
     buf f' = buf f +++ msgstr +++ newline /\
     filesize f' = filesize f).
Proof.
  intros Hfd msgstr f' tr. subst msgstr f' tr.
  destruct (write_Some w f m) as (Ht & Hb & Hz & _).
  rewrite Hfd in Ht, Hb, Hz. rewrite Ht, Hb, Hz.
  change defaultCacheSize with 2048.
  split; intros H.
  - assert (E : (len (effective_formatter w f m) + len (buf f) >=? 2048)
                = true) by (apply Z.geb_le; lia).
    rewrite E. auto.
  - assert (E : (len (effective_formatter w f m) + len (buf f) >=? 2048)
                = false).
    { destruct (len (effective_formatter w f m) + len (buf f) >=? 2048)
        eqn:E; [apply Z.geb_le in E; lia | reflexivity]. }
    rewrite E. auto.
Qed.

(** ** The background loop: when a rotation happens *)

Lemma wrap64_small (z : Z) : - 2 ^ 63 <= z < 2 ^ 63 -> wrap64 z = z.
Proof.
  intros H. unfold wrap64.
  rewrite Z.mod_small; lia.
Qed.

Lemma rotation_due_iff (f : file) (elapse : Z) :
  rotation_due f elapse = true <->
  (rotatePolicy f = RotateBySize /\ rotateFileSize f <= filesize f) \/
  (rotatePolicy f = RotateByDuration /\ rotateDuration f <= elapse).
Proof.
  unfold rotation_due.
  rewrite orb_true_iff, !andb_true_iff, !String.eqb_eq, !Z.geb_le.
  reflexivity.
Qed.

Lemma write_trace_cases (w : World) (f : file) (msg : option Message) :
  snd (write w f msg) = [] \/
  exists fd, snd (write w f msg) = [EvFileWrite fd (buf f)].
Proof.
  destruct msg as [m|]; [|now left].
  destruct (write_Some w f m) as (Ht & _). rewrite Ht.
  destruct (file_ f) as [fd|]; [|now left].
  destruct (_ >=? _); [right; now exists fd | now left].
Qed.

Lemma write_no_rotation (w : World) (f : file) (msg : option Message) :
  existsb is_OpenFile (snd (write w f msg)) = false /\
  existsb is_GoSweep (snd (write w f msg)) = false.
Proof.
  destruct (write_trace_cases w f msg) as [E | [fd E]]; rewrite E; auto.
Qed.

Lemma rotate_opens (w : World) (f g : file) (tr : list event)
  (err : option string) :
  rotate w f = Some (g, tr, err) ->
  existsb is_OpenFile tr = true.
Proof.
  unfold rotate.
  destruct (compress w f) as [[tr2 cerr]|]; [|discriminate].
  destruct (match cerr with Some e => _ | None => _ end) as [f1 tr3].
  destruct (run_format w (set_filesize f1 0)) as [fname0 tr4].
  destruct (os_OpenFile w _); intros H; inversion H; subst;
    rewrite !existsb_app; simpl; now rewrite !orb_true_r.
Qed.

(** ** Rotation *)

Lemma write_frame (w : World) (f : file) (msg : option Message) :
  path (fst (write w f msg)) = path f /\
  format (fst (write w f msg)) = format f /\
  filename (fst (write w f msg)) = filename f /\
  file_ (fst (write w f msg)) = file_ f.
Proof.
  destruct msg as [m|]; [|simpl; auto].
  unfold write, Format.
  destruct (formatter f) eqn:Ef; cbn -[Z.geb Z.add];
    destruct (file_ f) eqn:Eh; cbn -[Z.geb Z.add];
    try destruct (_ >=? _); cbn; rewrite ?Eh; auto.
Qed.

Lemma run_format_frame (w : World) (f g : file) :
  path g = path f -> format g = format f ->
  run_format w g = run_format w f.
Proof.
  intros Hp Hf. unfold run_format. now rewrite Hp, Hf.
Qed.

(** [rotate] as one expression over the state it starts from, when the
    archiver returns. *)
Lemma rotate_eq (w : World) (f : file) (tr2 : list event)
  (cerr : option string) :
  compress w f = Some (tr2, cerr) ->
  let closing :=
    match file_ f with Some fd => [EvFileClose fd] | None => [] end in
  let logged :=
    match cerr with
    | Some e => write w f (Some (mkMessage LevelError "" "" 0 e (now w) []))
    | None => (f, [])
    end in
  let name :=
    if (fst (run_format w f) =? "")%string
    then defaultFnFormatter w
    else fst (run_format w f) in
  let target := path f +++ "/" +++ name in
  rotate w f =
  Some
    (set_file (set_filename (set_filesize (fst logged) 0) name)
       (match os_OpenFile w target with inl fd => Some fd | inr _ => None end),
     closing ++ tr2 ++ snd logged ++ snd (run_format w f)
       ++ [EvOpenFile target true true true 432],
     match os_OpenFile w target with inl _ => None | inr e => Some e end).
Proof.
  intros Hc closing logged name target.
  subst closing logged name target.
  unfold rotate. rewrite Hc.
  set (logged := match cerr with
                 | Some e =>
                     write w f (Some (mkMessage LevelError "" "" 0 e
                                        (now w) []))
                 | None => (f, [])
                 end).
  assert (Hfr : path (fst logged) = path f /\ format (fst logged) = format f).
  { subst logged. destruct cerr as [e|]; [|simpl; auto].
    destruct (write_frame w f
                (Some (mkMessage LevelError "" "" 0 e (now w) [])))
      as (Hp & Hf & _). auto. }
  destruct Hfr as [Hp Hf].
  destruct logged as [f1 tr3] eqn:El. cbn [fst snd] in *.
  assert (Hrf : run_format w (set_filesize f1 0) = run_format w f)
    by (apply run_format_frame; simpl; assumption).
  rewrite Hrf.
  destruct (run_format w f) as [fname0 tr4]. cbn [fst snd].
  cbn [filename set_filename].
  destruct (fname0 =? "")%string eqn:En;
    cbn [path set_filename filename set_filesize]; rewrite Hp;
    destruct (os_OpenFile w _); reflexivity.
Qed.

(** A panic of the archiver is a panic of [rotate]. *)
Lemma rotate_None (w : World) (f : file) :
  compress w f = None <-> rotate w f = None.
Proof.
  unfold rotate. destruct (compress w f) as [[tr2 cerr]|].
  - split; [discriminate|].
    destruct (match cerr with Some e => _ | None => _ end) as [f1 tr3].
    destruct (run_format w _) as [fname0 tr4].
    destruct (os_OpenFile w _); discriminate.
  - split; reflexivity.
Qed.

(** ** The naming policy *)

Lemma itoa_nonempty (n : Z) : itoa n <> "".
Proof.
  unfold itoa. destruct (Z.to_int n) as [d|d]; simpl; [|discriminate].
  destruct d; simpl; discriminate.
Qed.

Lemma append_nonempty_r (a b : string) : b <> "" -> a +++ b <> "".
Proof.
  intros H. destruct a; simpl; [assumption | discriminate].
Qed.

Lemma append_nonempty_l (a b : string) : a <> "" -> a +++ b <> "".
Proof.
  intros H. destruct a; simpl; [now elim H | discriminate].
Qed.

Lemma attempt_nonempty (w : World) (prefix suffix : string) (i : nat) :
  attempt w prefix suffix i <> "".
Proof.
  unfold attempt. apply append_nonempty_r, append_nonempty_l, itoa_nonempty.
Qed.

(** The loop entered at [try] with [left] iterations to go. *)
Lemma format_loop_spec (w : World) (dir prefix suffix : string) :
  forall (left try : nat),
    let r := format_loop w dir prefix suffix left try in
    let free i :=
      os_Stat w (Join w dir (attempt w prefix suffix i)) = StatNotExist in
    (List.length (snd r) <= left)%nat /\
    (forall e, In e (snd r) ->
       exists i, (try <= i < try + left)%nat /\
                 e = EvStat (Join w dir (attempt w prefix suffix i))) /\
    (fst r <> "" ->
       exists i, (try <= i < try + left)%nat /\
                 fst r = attempt w prefix suffix i /\ free i /\
                 forall j, (try <= j < i)%nat -> ~ free j) /\
    (fst r = "" <-> forall i, (try <= i < try + left)%nat -> ~ free i).
Proof.
  induction left as [|left IH]; intros try r free.
  - subst r. simpl.
    split; [lia|].
    split; [intros e []|].
    split; [intros H; now elim H|].
    split; [intros _ i Hi; lia | reflexivity].
  - subst r. cbn [format_loop]. fold (attempt w prefix suffix try).
    destruct (os_Stat w (Join w dir (attempt w prefix suffix try))) eqn:Es.
    all: try (
      specialize (IH (S try)); cbv zeta in IH;
      destruct (format_loop w dir prefix suffix left (S try)) as [r tr];
      cbn [fst snd] in *;
      destruct IH as (Hlen & Hev & Hfound & Hnone);
      assert (Hbusy : ~ free try) by (unfold free; rewrite Es; discriminate);
      split; [simpl; lia|];
      split; [intros e [He | He];
              [exists try; split; [lia | now symmetry]
              | destruct (Hev e He) as (i & Hi & Hei);
                exists i; split; [lia | assumption]]|];
      split; [intros Hr; destruct (Hfound Hr) as (i & Hi & Hri & Hfi & Hbefore);
              exists i; split; [lia|]; split; [assumption|];
              split; [assumption|];
              intros j Hj; destruct (Nat.eq_dec j try) as [->|Hne];
              [assumption | apply Hbefore; lia]|];
      rewrite Hnone; split;
      [intros H i Hi; destruct (Nat.eq_dec i try) as [->|Hne];
       [assumption | apply H; lia]
      | intros H i Hi; apply H; lia]).
    cbn [fst snd].
    split; [simpl; lia|].
    split; [intros e [He | []]; exists try; split; [lia | now symmetry]|].
    split.
    + intros _. exists try. split; [lia|]. split; [reflexivity|].
      split; [exact Es|]. intros j Hj. lia.
    + split.
      * intros H. now apply attempt_nonempty in H.
      * intros H. exfalso. apply (H try); [lia | exact Es].
Qed.

(** C7.  With a pattern installed, the naming policy probes at most 100
    names, each built from the prefix, a random number and the suffix; a
    name it returns is the first of them that [os.Stat] reports missing;
    and it returns the empty string exactly when every one of the 100
    probes finds an existing file (or fails otherwise). *)
Theorem format_pattern_attempts
  (w : World) (f : file) (prefix suffix : string) :
  format f = FormatPattern prefix suffix ->
  let name := fst (run_format w f) in
  let probes := snd (run_format w f) in
  let free i :=
    os_Stat w (Join w (path f) (attempt w prefix suffix i)) = StatNotExist in
  (List.length probes <= 100)%nat /\
  (forall e, In e probes ->
     exists i, (i < 100)%nat /\
               e = EvStat (Join w (path f) (attempt w prefix suffix i))) /\
  (name <> "" ->
     os_Stat w (Join w (path f) name) = StatNotExist /\
     exists i, (i < 100)%nat /\ name = attempt w prefix suffix i /\
               forall j, (j < i)%nat -> ~ free j) /\
  (name = "" <-> forall i, (i < 100)%nat -> ~ free i).
Proof.
  intros Hf name probes free. subst name probes.
  unfold run_format. rewrite Hf.
  destruct (format_loop_spec w (path f) prefix suffix 100 0)
    as (Hlen & Hev & Hfound & Hnone).
  split; [exact Hlen|].
  split.
  - intros e He. destruct (Hev e He) as (i & Hi & Hei).
    exists i. split; [lia | exact Hei].
  - split.
    + intros Hn. destruct (Hfound Hn) as (i & Hi & Hri & Hfi & Hbefore).
      split; [rewrite Hri; exact Hfi|].
      exists i. split; [lia|]. split; [exact Hri|].
      intros j Hj. apply Hbefore. lia.
    + rewrite Hnone. split; intros H i Hi; apply H; lia.
Qed.

Lemma format_pattern_attempts_witness :
  fst (run_format (with_Stat (quiet_world empty_dir 0) (fun _ => StatOk))
         (pattern_file "test-*")) = "".
Proof.
  apply (format_pattern_attempts
           (with_Stat (quiet_world empty_dir 0) (fun _ => StatOk))
           (pattern_file "test-*") "test-" ".log").
  - reflexivity.
  - intros i _. simpl. discriminate.
Defined.

(** ** Closing the sink *)

Lemma swaps_closed (n : nat) : swaps 1 n = repeat false n.
Proof.
  induction n as [|n IH]; simpl; [reflexivity | now rewrite IH].
Qed.

Lemma swaps_first (n : nat) : swaps 0 (S n) = true :: repeat false n.
Proof.
  simpl. now rewrite swaps_closed.
Qed.

Lemma Close_first (w : World) (f : file) :
  open_sink f ->
  exists f1,
    Close w f = Some (f1, teardown w f) /\
    closed f1 = 1 /\
    chan_closed (closeNotify f1) = true /\
    chan_closed (messages f1) = true /\
    queue (messages f1) = queue (messages f).
Proof.
  intros (Hc & Hn & Hm).
  unfold Close, teardown, close_chan, flush, CompareAndSwapUint32.
  rewrite Hc. cbn. rewrite Hn. cbn. rewrite Hm. cbn.
  destruct (file_ f) as [fd|] eqn:Ef; cbn; rewrite ?Ef; cbn;
    eexists; repeat split; reflexivity.
Qed.

Lemma Close_again (w : World) (f : file) :
  closed f <> 0 -> Close w f = Some (f, []).
Proof.
  intros H. unfold Close, CompareAndSwapUint32.
  destruct (closed f =? 0) eqn:E; [|reflexivity].
  apply Z.eqb_eq in E. contradiction.
Qed.

Lemma Write_closed (f : file) (msg : option Message) :
  closed f = 1 -> Write f msg = Dropped.
Proof.
  intros H. unfold Write, LoadUint32. now rewrite H.
Qed.

Lemma run_calls_closed (w : World) (f : file) (cs : list call) :
  closed f = 1 -> run_calls w f cs = Some (f, []).
Proof.
  intros H. induction cs as [|c cs IH]; [reflexivity|].
  simpl. destruct c as [|msg]; simpl.
  - rewrite Close_again by lia. now rewrite IH.
  - rewrite Write_closed by assumption. now rewrite IH.
Qed.

Lemma Write_open (f : file) (msg : option Message) :
  open_sink f ->
  Write f msg = Blocked \/
  exists f', Write f msg = Enqueued f' /\ open_sink f' /\
             file_ f' = file_ f /\ buf f' = buf f /\
             queue (messages f') = queue (messages f) ++ [msg].
Proof.
  intros (Hc & Hn & Hm). unfold Write, LoadUint32.
  rewrite Hc, Hm. cbn.
  destruct (_ <? BufferCapacity); [|now left].
  right. eexists. split; [reflexivity|].
  unfold open_sink. cbn. repeat split; auto.
Qed.

Lemma teardown_counts (w : World) (f : file) :
  count is_CloseNotify (teardown w f) = 1%nat /\
  count is_CloseMessages (teardown w f) = 1%nat /\
  (count is_FileClose (teardown w f) <= 1)%nat.
Proof.
  unfold teardown, count. destruct (file_ f); cbn; repeat split; auto.
Qed.

Lemma run_calls_open (w : World) (cs : list call) :
  forall f, open_sink f ->
    exists f' tr,
      run_calls w f cs = Some (f', tr) /\
      closed f' = (if existsb is_CallClose cs then 1 else 0) /\
      count is_CloseNotify tr
        = (if existsb is_CallClose cs then 1 else 0)%nat /\
      count is_CloseMessages tr
        = (if existsb is_CallClose cs then 1 else 0)%nat /\
      (count is_FileClose tr <= 1)%nat.
Proof.
  induction cs as [|c cs IH]; intros f Ho.
  - exists f, []. destruct Ho as (Hc & _). cbn. repeat split; auto.
  - destruct c as [|msg].
    + destruct (Close_first w f Ho) as (f1 & Hcl & Hc1 & _).
      destruct (teardown_counts w f) as (T1 & T2 & T3).
      exists f1, (teardown w f). cbn [run_calls run_call].
      rewrite Hcl, (run_calls_closed w f1 cs Hc1), app_nil_r. cbn.
      repeat split; auto.
    + cbn [run_calls run_call existsb is_CallClose orb].
      destruct (Write_open f msg Ho) as [Hb | (f1 & He & Ho1 & _)].
      * rewrite Hb. destruct (IH f Ho) as (f' & tr & Hr & H).
        exists f', tr. rewrite Hr. split; auto.
      * rewrite He. destruct (IH f1 Ho1) as (f' & tr & Hr & H).
        exists f', tr. rewrite Hr. split; auto.
Qed.

(** C5.  On a sink that has not been closed: of any number of
    compare-and-swap attempts on the flag only the first one succeeds; the
    first [Close] sets the flag to 1 and performs the teardown (grace wait,
    closing of both channels, flush, closing of the file); from then on
    every [Close] returns with no effect, every [Write] returns without
    enqueuing, and no sequence of calls changes the sink; and over any
    sequence of calls each channel is closed exactly once if the sequence
    holds a [Close] and never otherwise. *)
Theorem close_tears_down_once (w : World) (f : file) (cs : list call) :
  open_sink f ->
  (forall n, swaps (closed f) (S n) = true :: repeat false n) /\
  (exists f1,
      Close w f = Some (f1, teardown w f) /\
      closed f1 = 1 /\
      Close w f1 = Some (f1, []) /\
      (forall msg, Write f1 msg = Dropped) /\
      (forall cs', run_calls w f1 cs' = Some (f1, []))) /\
  (exists f' tr,
      run_calls w f cs = Some (f', tr) /\
      closed f' = (if existsb is_CallClose cs then 1 else 0) /\
      count is_CloseNotify tr
        = (if existsb is_CallClose cs then 1 else 0)%nat /\
      count is_CloseMessages tr
        = (if existsb is_CallClose cs then 1 else 0)%nat /\
      (count is_FileClose tr <= 1)%nat).
Proof.
  intros Ho. split; [|split].
  - intros n. destruct Ho as (Hc & _). rewrite Hc. apply swaps_first.
  - destruct (Close_first w f Ho) as (f1 & Hcl & Hc1 & _).
    exists f1. split; [exact Hcl|]. split; [exact Hc1|].
    split; [apply Close_again; lia|].
    split; [intros msg; now apply Write_closed|].
    intros cs'. now apply run_calls_closed.
  - now apply run_calls_open.
Qed.

Lemma close_tears_down_once_witness :
  exists f' tr,
    run_calls (quiet_world empty_dir 0) (sample_file "a.log" "tail")
      [CallWrite (Some (sample_message "m")); CallClose; CallClose;
       CallWrite (Some (sample_message "late"))] = Some (f', tr) /\
    closed f' = 1 /\
    count is_CloseNotify tr = 1%nat /\
    count is_CloseMessages tr = 1%nat /\
    (count is_FileClose tr <= 1)%nat.
Proof.
  apply (close_tears_down_once (quiet_world empty_dir 0)
           (sample_file "a.log" "tail")
           [CallWrite (Some (sample_message "m")); CallClose; CallClose;
            CallWrite (Some (sample_message "late"))]).
  unfold open_sink. simpl. repeat split; reflexivity.
Defined.

(** ** The walk *)

Lemma walkDir_unfold {S : Type} (w : World) (fn : WalkDirFunc S)
  (name : string) (d : DirEntry) (cs : list node) (re : option string)
  (st : S) :
  walkDir w fn name (Node d cs re) st =
  match fn st name (Some d) None with
  | (st1, Some e) => (st1, after_callback d (Some e))
  | (st1, None) =>
      if negb (de_IsDir d) then (st1, None)
      else
        match re with
        | Some r =>
            match fn st1 name (Some d) (Some r) with
            | (st2, Some e) => (st2, after_callback d (Some e))
            | (st2, None) => walk_children w fn name cs st2
            end
        | None => walk_children w fn name cs st1
        end
  end.
Proof.
  assert (L : forall cs st,
             (fix loop (cs : list node) (st : S) {struct cs}
                : S * option walkerr :=
                match cs with
                | [] => (st, None)
                | c :: cs' =>
                    match walkDir w fn (Join w name (de_Name (node_entry c)))
                            c st with
                    | (st', Some SkipDir) => (st', None)
                    | (st', Some (Err e)) => (st', Some (Err e))
                    | (st', Some Panicked) => (st', Some Panicked)
                    | (st', None) => loop cs' st'
                    end
                end) cs st = walk_children w fn name cs st).
  { induction cs0 as [|c cs0 IH]; intros st0; [reflexivity|].
    cbn [walk_children].
    destruct (walkDir w fn (Join w name (de_Name (node_entry c))) c st0)
      as [st' [[|e|]|]]; auto. }
  cbn [walkDir].
  destruct (fn st name (Some d) None) as [st1 [e|]]; [reflexivity|].
  destruct (negb (de_IsDir d)); [reflexivity|].
  destruct re as [r|].
  - destruct (fn st1 name (Some d) (Some r)) as [st2 [e|]]; [reflexivity|].
    apply L.
  - apply L.
Qed.

(** ** The sweeper *)

Lemma sweep_child (w : World) (f : file) (tm : Z) (c : node)
  (st : list logfile * list string) :
  child_path w f c <> path f ->
  walkDir w (sweep_fn w f tm) (child_path w f c) c st =
  (sweep_visit w f tm st c, None).
Proof.
  intros Hne. destruct c as [d cs re].
  rewrite walkDir_unfold.
  unfold sweep_visit, candidate, sweep_fn.
  change (node_entry (Node d cs re)) with d.
  apply String.eqb_neq in Hne. rewrite Hne.
  destruct (de_IsDir d) eqn:Ed;
    [unfold after_callback; now rewrite Ed|].
  cbn [negb].
  destruct (sweep_matches w f (child_path w f (Node d cs re)));
    [|reflexivity].
  destruct (de_Info d) as [fi|e]; [|reflexivity].
  cbn [fst snd].
  destruct (sweepPolicy f =? SweepByInterval)%string.
  - destruct (tm <? fi_ModTime fi + sweepInterval f); destruct st;
      reflexivity.
  - destruct (sweepPolicy f =? SweepByFileCount)%string; destruct st;
      reflexivity.
Qed.

Lemma sweep_children (w : World) (f : file) (tm : Z) (cs : list node) :
  Forall (fun c => child_path w f c <> path f) cs ->
  forall st,
    walk_children w (sweep_fn w f tm) (path f) cs st =
    (fold_left (sweep_visit w f tm) cs st, None).
Proof.
  induction 1 as [|c cs Hc Hcs IH]; intros st; [reflexivity|].
  cbn [walk_children fold_left].
  fold (child_path w f c). rewrite (sweep_child w f tm c st Hc).
  apply IH.
Qed.

Lemma sweep_walk (w : World) (f : file) (tm : Z)
  (st : list logfile * list string) :
  readable_root w f ->
  WalkDir w (sweep_fn w f tm) (path f) st =
  (fold_left (sweep_visit w f tm) (listing w) st, None).
Proof.
  intros ((d & cs & Hroot & Hdir) & Hcs).
  unfold WalkDir, listing in *. rewrite Hroot in *. cbn [children_of] in *.
  rewrite walkDir_unfold.
  unfold sweep_fn at 1. rewrite String.eqb_refl, Hdir. cbn [negb].
  rewrite (sweep_children w f tm cs Hcs st). reflexivity.
Qed.

(** When [os.Lstat] fails on the directory the callback of the sweep
    answers [fs.SkipDir] to the one call it gets: nothing is visited. *)
Lemma sweep_walk_missing (w : World) (f : file) (tm : Z) (e : string)
  (st : list logfile * list string) :
  root w = inr e ->
  WalkDir w (sweep_fn w f tm) (path f) st = (st, None).
Proof.
  intros Hroot. unfold WalkDir. rewrite Hroot. reflexivity.
Qed.

Lemma empty_sweep_state_no_removal (f : file) (files : list logfile) :
  files = [] ->
  (if (Z.of_nat (List.length files) >? sweepFileCount f)
      && (sweepFileCount f >? 0)
   then true else false) = false.
Proof.
  intros ->. cbn [List.length].
  destruct ((Z.of_nat 0 >? sweepFileCount f) && (sweepFileCount f >? 0))
    eqn:E; [|reflexivity].
  apply andb_true_iff in E. destruct E as [E1 E2].
  apply Z.gtb_lt in E1, E2. cbn in E1. lia.
Qed.

(** A walk that leaves the state of the sweep empty removes nothing. *)
Lemma sweep_of_empty_walk (w : World) (f : file) :
  fst (WalkDir w (sweep_fn w f (now w)) (path f) ([], [])) = ([], []) ->
  sweep w f = [].
Proof.
  unfold sweep.
  destruct (WalkDir w (sweep_fn w f (now w)) (path f) ([], []))
    as [[files removed] r].
  cbn [fst]. intros H. inversion H; subst.
  pose proof (empty_sweep_state_no_removal f [] eq_refl) as E.
  cbn [List.length] in *.
  destruct r as [[|e|]|];
    destruct ((Z.of_nat 0 >? sweepFileCount f) && (sweepFileCount f >? 0));
    try discriminate; reflexivity.
Qed.

Lemma fold_visit_interval (w : World) (f : file) (cs : list node) :
  sweepPolicy f = SweepByInterval ->
  forall st,
    fold_left (sweep_visit w f (now w)) cs st =
    (fst st,
     snd st ++ map fst (filter (swept_by_interval w f)
                          (candidates_of w f cs))).
Proof.
  intros Hp. induction cs as [|c cs IH]; intros [files removed].
  - cbn. now rewrite app_nil_r.
  - cbn [fold_left candidates_of]. rewrite IH.
    unfold sweep_visit. rewrite Hp. cbn [String.eqb].
    change (SweepByInterval =? SweepByInterval)%string with true.
    destruct (candidate w f c) as [x|]; [|reflexivity].
    cbn [filter]. unfold swept_by_interval at 2.
    destruct (now w <? fi_ModTime (snd x) + sweepInterval f); cbn.
    + now rewrite <- app_assoc.
    + reflexivity.
Qed.

Lemma fold_visit_count (w : World) (f : file) (tm : Z) (cs : list node) :
  sweepPolicy f = SweepByFileCount ->
  forall st,
    fold_left (sweep_visit w f tm) cs st =
    (fst st ++ map as_logfile (candidates_of w f cs), snd st).
Proof.
  intros Hp. induction cs as [|c cs IH]; intros [files removed].
  - cbn. now rewrite app_nil_r.
  - cbn [fold_left candidates_of]. rewrite IH.
    unfold sweep_visit. rewrite Hp.
    change (SweepByFileCount =? SweepByInterval)%string with false.
    change (SweepByFileCount =? SweepByFileCount)%string with true.
    destruct (candidate w f c) as [x|]; [|reflexivity].
    cbn. now rewrite <- app_assoc.
Qed.

(** In age mode the sweep removes the candidates for which the clock is
    before their modification time plus the interval, and no others. *)
Lemma sweep_by_interval (w : World) (f : file) :
  readable_root w f ->
  sweepPolicy f = SweepByInterval ->
  sweep w f = map fst (filter (swept_by_interval w f) (candidates w f)).
Proof.
  intros Hr Hp. unfold sweep.
  rewrite (sweep_walk w f (now w) ([], []) Hr).
  rewrite (fold_visit_interval w f _ Hp). cbn [fst snd app List.length].
  fold (candidates w f).
  destruct ((Z.of_nat 0 >? sweepFileCount f) && (sweepFileCount f >? 0))
    eqn:E; [|reflexivity].
  apply andb_true_iff in E. destruct E as [E1 E2].
  apply Z.gtb_lt in E1, E2. simpl in E1. lia.
Qed.

(** In count mode the sweep sorts the candidates and removes those past
    the first [sweepFileCount]. *)
Lemma sweep_by_count (w : World) (f : file) :
  readable_root w f ->
  sweepPolicy f = SweepByFileCount ->
  sweep w f =
  if (Z.of_nat (List.length (candidates w f)) >? sweepFileCount f)
     && (sweepFileCount f >? 0)
  then map lf_filename
         (skipn (Z.to_nat (sweepFileCount f))
            (sort_Sort w (map as_logfile (candidates w f))))
  else [].
Proof.
  intros Hr Hp. unfold sweep.
  rewrite (sweep_walk w f (now w) ([], []) Hr).
  rewrite (fold_visit_count w f _ _ Hp). cbn [fst snd app].
  fold (candidates w f). rewrite length_map. reflexivity.
Qed.

(** C1 (the behaviour of the code).  Thirty days after the epoch, with an
    interval of seven days, the sweep in age mode removes the archive
    written one minute ago and leaves the archive written eight days ago:
    the file older than now minus the interval stays, the newer one goes. *)
Theorem sweep_by_interval_removes_recent_keeps_old :
  let w := tgz_world aged_dir (30 * Day) in
  let f := sweeping_file SweepByInterval (7 * Day) 5 in
  sweep w f = ["logs/glog-new.tgz"] /\
  map fst (remaining w f) = ["logs/glog-old.tgz"] /\
  22 * Day < now w - sweepInterval f /\
  now w - sweepInterval f < 30 * Day - Minute.
Proof.
  cbv zeta. split; [reflexivity|]. split; [reflexivity|].
  split; reflexivity.
Qed.

(** ** Sorting by timestamp *)

Lemma Less_false (a b : logfile) :
  Less a b = false <-> timestamp a <= timestamp b.
Proof.
  unfold Less. destruct (timestamp a >? timestamp b) eqn:E.
  - apply Z.gtb_lt in E. split; [discriminate | lia].
  - split; [|reflexivity]. intros _.
    destruct (Z.le_gt_cases (timestamp a) (timestamp b)) as [H|H];
      [exact H|].
    apply Z.gtb_lt in H. congruence.
Qed.

Lemma sorted_app_cross {A : Type} (R : A -> A -> Prop) (l1 l2 : list A) :
  StronglySorted R (l1 ++ l2) ->
  forall a b, In a l1 -> In b l2 -> R a b.
Proof.
  induction l1 as [|x l1 IH]; intros Hs a b Ha Hb; [destruct Ha|].
  cbn in Hs. apply StronglySorted_inv in Hs. destruct Hs as [Hs Hx].
  destruct Ha as [<-|Ha].
  - rewrite Forall_forall in Hx. apply Hx, in_or_app. now right.
  - now apply IH.
Qed.

Lemma sorted_snoc {A : Type} (R : A -> A -> Prop) (l : list A) (x : A) :
  StronglySorted R l -> Forall (fun a => R a x) l ->
  StronglySorted R (l ++ [x]).
Proof.
  induction 1 as [|y l Hs IH Hy]; intros Hx; cbn.
  - constructor; constructor.
  - inversion Hx; subst. constructor; [now apply IH|].
    apply Forall_app. split; [assumption | now constructor].
Qed.

Lemma sorted_rev {A : Type} (R : A -> A -> Prop) (l : list A) :
  StronglySorted R l -> StronglySorted (fun a b => R b a) (rev l).
Proof.
  induction 1 as [|y l Hs IH Hy]; cbn; [constructor|].
  apply sorted_snoc; [assumption|].
  apply Forall_rev. exact Hy.
Qed.

Lemma insert_left_perm (x : logfile) (r : list logfile) :
  Permutation (insert_left x r) (x :: r).
Proof.
  induction r as [|y r IH]; cbn; [reflexivity|].
  destruct (Less x y); [|reflexivity].
  rewrite IH. apply perm_swap.
Qed.

Lemma insert_left_sorted (x : logfile) (r : list logfile) :
  StronglySorted (fun a b => timestamp a <= timestamp b) r ->
  StronglySorted (fun a b => timestamp a <= timestamp b) (insert_left x r).
Proof.
  induction 1 as [|y r Hs IH Hy]; cbn.
  - constructor; constructor.
  - destruct (Less x y) eqn:E.
    + constructor; [exact IH|].
      apply (Permutation_Forall (Permutation_sym (insert_left_perm x r))).
      constructor; [|exact Hy].
      unfold Less in E. apply Z.gtb_lt in E. lia.
    + apply Less_false in E.
      constructor; [now constructor|].
      constructor; [exact E|].
      eapply Forall_impl; [|exact Hy]. cbn. intros a Ha. lia.
Qed.

Lemma insertion_fold (data : list logfile) :
  forall acc,
    StronglySorted (fun a b => timestamp a <= timestamp b) acc ->
    Permutation (fold_left (fun r x => insert_left x r) data acc)
      (data ++ acc) /\
    StronglySorted (fun a b => timestamp a <= timestamp b)
      (fold_left (fun r x => insert_left x r) data acc).
Proof.
  induction data as [|x data IH]; intros acc Hs; cbn.
  - split; [reflexivity | exact Hs].
  - destruct (IH (insert_left x acc) (insert_left_sorted x acc Hs))
      as [Hp Hs'].
    split; [|exact Hs'].
    rewrite Hp, insert_left_perm. symmetry. apply Permutation_middle.
Qed.

Lemma insertionSort_contract : sort_contract insertionSort.
Proof.
  intros l. unfold insertionSort.
  destruct (insertion_fold l [] (SSorted_nil _)) as [Hp Hs].
  split.
  - rewrite <- Permutation_rev, Hp. now rewrite app_nil_r.
  - apply sorted_rev in Hs.
    eapply StronglySorted_ind with (P := fun l0 =>
      StronglySorted (fun a b => Less b a = false) l0); [| |exact Hs].
    + constructor.
    + intros a l0 _ IH Ha. constructor; [exact IH|].
      eapply Forall_impl; [|exact Ha]. cbn. intros b Hb.
      now apply Less_false.
Qed.

Lemma readable_sample (t0 : Z) (cs : list node) :
  Forall (fun c => de_Name (node_entry c) <> "") cs ->
  forall f, path f = "logs" ->
  readable_root (tgz_world (Node (sample_dirent "logs") cs None) t0) f.
Proof.
  intros Hcs f Hp. unfold readable_root, listing. cbn.
  split; [now exists (sample_dirent "logs"), cs|].
  eapply Forall_impl; [|exact Hcs]. cbn. intros c Hc.
  unfold child_path. cbn. rewrite Hp. cbn. congruence.
Qed.

(** C4 (as amended).  In count mode with retention count [N], the sweep
    splits the candidates into the files it keeps and the files it
    removes: no file kept carries a timestamp (modification time in whole
    seconds) earlier than a file removed; with [N] positive exactly
    [min N (number of candidates)] files are kept; and nothing is removed
    when [N] is not positive or there are at most [N] candidates. *)
Theorem sweep_by_count_keeps_newest (w : World) (f : file) :
  readable_root w f ->
  sweepPolicy f = SweepByFileCount ->
  sort_contract (sort_Sort w) ->
  let N := sweepFileCount f in
  let files := map as_logfile (candidates w f) in
  exists kept dropped,
    Permutation (kept ++ dropped) files /\
    sweep w f = map lf_filename dropped /\
    (forall k d, In k kept -> In d dropped -> timestamp d <= timestamp k) /\
    (0 < N ->
       Z.of_nat (List.length kept) = Z.min N (Z.of_nat (List.length files)))
    /\
    (N <= 0 \/ Z.of_nat (List.length files) <= N -> dropped = []) /\
    (0 < N < Z.of_nat (List.length files) ->
       sort_Sort w files = kept ++ dropped).
Proof.
  intros Hr Hp Hsort N files.
  pose proof (sweep_by_count w f Hr Hp) as Hsw.
  fold N in Hsw. rewrite <- (length_map as_logfile) in Hsw. fold files in Hsw.
  destruct ((Z.of_nat (List.length files) >? N) && (N >? 0)) eqn:E.
  - apply andb_true_iff in E. destruct E as [E1 E2].
    apply Z.gtb_lt in E1, E2.
    destruct (Hsort files) as [Hperm Hsorted].
    exists (firstn (Z.to_nat N) (sort_Sort w files)),
           (skipn (Z.to_nat N) (sort_Sort w files)).
    rewrite firstn_skipn.
    split; [exact Hperm|]. split; [exact Hsw|].
    split.
    { intros k d Hk Hd. apply Less_false.
      rewrite <- (firstn_skipn (Z.to_nat N) (sort_Sort w files)) in Hsorted.
      exact (sorted_app_cross _ _ _ Hsorted k d Hk Hd). }
    split.
    { intros _. rewrite length_firstn, (Permutation_length Hperm). lia. }
    split; [intros [H|H]; lia | reflexivity].
  - exists files, []. rewrite app_nil_r.
    split; [reflexivity|]. split; [exact Hsw|].
    split; [intros k d _ []|].
    assert (Hcase : N <= 0 \/ Z.of_nat (List.length files) <= N).
    { apply andb_false_iff in E. destruct E as [E|E].
      - right. destruct (Z.le_gt_cases (Z.of_nat (List.length files)) N)
          as [H|H]; [exact H|]. apply Z.gtb_lt in H. congruence.
      - left. destruct (Z.le_gt_cases N 0) as [H|H]; [exact H|].
        apply Z.gtb_lt in H. congruence. }
    split; [intros HN; lia|].
    split; [reflexivity | intros H; lia].
Qed.

Lemma sweep_by_count_keeps_newest_witness :
  exists kept dropped,
    Permutation (kept ++ dropped)
      (map as_logfile
         (candidates (tgz_world five_dir (30 * Day))
            (sweeping_file SweepByFileCount (7 * Day) 2))) /\
    sweep (tgz_world five_dir (30 * Day))
      (sweeping_file SweepByFileCount (7 * Day) 2)
      = map lf_filename dropped /\
    (forall k d, In k kept -> In d dropped -> timestamp d <= timestamp k) /\
    (0 < 2 -> Z.of_nat (List.length kept) = Z.min 2 5).
Proof.
  destruct (sweep_by_count_keeps_newest (tgz_world five_dir (30 * Day))
              (sweeping_file SweepByFileCount (7 * Day) 2))
    as (kept & dropped & H1 & H2 & H3 & H4 & _).
  - apply readable_sample; [|reflexivity].
    repeat constructor; discriminate.
  - reflexivity.
  - exact insertionSort_contract.
  - exists kept, dropped. repeat split; assumption.
Defined.

(** C4 (counterexample).  With a retention count of one and two archives
    modified within the same second, the sweep removes the one modified
    later and keeps the one modified earlier. *)
Lemma sweep_by_count_drops_later_of_same_second :
  let w := tgz_world same_second_dir (30 * Day) in
  let f := sweeping_file SweepByFileCount (7 * Day) 1 in
  exists x y,
    In x (remaining w f) /\
    In y (candidates w f) /\ In (fst y) (sweep w f) /\
    fi_ModTime (snd x) < fi_ModTime (snd y).
Proof.
  cbv zeta.
  exists ("logs/a.tgz", mkFileInfo "a.tgz" 100 (5 * Second + 100000000)),
         ("logs/b.tgz", mkFileInfo "b.tgz" 100 (5 * Second + 900000000)).
  split; [left; reflexivity|].
  split; [right; left; reflexivity|].
  split; [left; reflexivity|].
  reflexivity.
Qed.

(** ** The archiver *)

Lemma walk_children_no_skip {S : Type} (w : World) (fn : WalkDirFunc S)
  (name : string) (cs : list node) :
  forall st, snd (walk_children w fn name cs st) <> Some SkipDir.
Proof.
  induction cs as [|c cs IH]; intros st; cbn [walk_children].
  - discriminate.
  - destruct (walkDir w fn (Join w name (de_Name (node_entry c))) c st)
      as [st' [[|e|]|]]; cbn; try discriminate.
    apply IH.
Qed.

(** A callback that does not panic on the entries of the tree makes a walk
    that does not panic. *)
Lemma walkDir_no_panic {S : Type} (w : World) (fn : WalkDirFunc S) :
  (forall st name d err, snd (fn st name (Some d) err) <> Some Panicked) ->
  forall n name st, snd (walkDir w fn name n st) <> Some Panicked.
Proof.
  intros Hfn. fix IH 1. intros [d cs re] name st.
  rewrite walkDir_unfold.
  assert (Hcs : forall st0,
             snd (walk_children w fn name cs st0) <> Some Panicked).
  { induction cs as [|c cs IHcs]; intros st0; [discriminate|].
    cbn [walk_children].
    pose proof (IH c (Join w name (de_Name (node_entry c))) st0) as Hc.
    destruct (walkDir w fn (Join w name (de_Name (node_entry c))) c st0)
      as [st' [[|e|]|]]; cbn [snd] in *;
      [discriminate | discriminate | now elim Hc | apply IHcs]. }
  pose proof (Hfn st name d None) as H1.
  destruct (fn st name (Some d) None) as [st1 [e|]]; cbn [snd] in *.
  - destruct e; cbn; [destruct (de_IsDir d) | |]; congruence.
  - destruct (negb (de_IsDir d)); [discriminate|].
    destruct re as [r|]; [|apply Hcs].
    pose proof (Hfn st1 name d (Some r)) as H2.
    destruct (fn st1 name (Some d) (Some r)) as [st2 [e|]]; cbn [snd] in *.
    + destruct e; cbn; [destruct (de_IsDir d) | |]; congruence.
    + apply Hcs.
Qed.

Lemma compress_fn_no_skip (w : World) (f : file) (tr : list event)
  (name : string) (d : DirEntry) (err : option string) :
  snd (compress_fn w f tr name (Some d) err) <> Some SkipDir /\
  snd (compress_fn w f tr name (Some d) err) <> Some Panicked.
Proof.
  unfold compress_fn.
  destruct (compress_entry w f name d) as [evs [e|]]; cbn;
    split; discriminate.
Qed.

Lemma compress_walk_no_skip (w : World) (f : file) (name : string)
  (n : node) (tr : list event) :
  snd (walkDir w (compress_fn w f) name n tr) <> Some SkipDir.
Proof.
  destruct n as [d cs re]. rewrite walkDir_unfold.
  pose proof (proj1 (compress_fn_no_skip w f tr name d None)) as H1.
  destruct (compress_fn w f tr name (Some d) None) as [st1 [e|]]; cbn in H1.
  - destruct e; [now elim H1 | cbn; discriminate | cbn; discriminate].
  - destruct (negb (de_IsDir d)); [cbn; discriminate|].
    destruct re as [r|]; [|apply walk_children_no_skip].
    pose proof (proj1 (compress_fn_no_skip w f st1 name d (Some r))) as H2.
    destruct (compress_fn w f st1 name (Some d) (Some r)) as [st2 [e|]];
      cbn in H2.
    + destruct e; [now elim H2 | cbn; discriminate | cbn; discriminate].
    + apply walk_children_no_skip.
Qed.

Lemma compress_walk_no_panic (w : World) (f : file) (name : string)
  (n : node) (tr : list event) :
  snd (walkDir w (compress_fn w f) name n tr) <> Some Panicked.
Proof.
  apply walkDir_no_panic. intros st nm d err.
  apply (compress_fn_no_skip w f st nm d err).
Qed.

(** The archiver panics exactly when [os.Lstat] fails on its directory:
    the callback is then called with the nil entry. *)
Lemma compress_panics (w : World) (f : file) :
  compress w f = None <-> exists e, root w = inr e.
Proof.
  unfold compress, WalkDir. destruct (root w) as [n|e].
  - split; [|intros [e He]; discriminate].
    pose proof (compress_walk_no_panic w f (path f) n []) as Hn.
    destruct (walkDir w (compress_fn w f) (path f) n []) as [tr [[|e|]|]];
      cbn in Hn; try discriminate. now elim Hn.
  - split; [intros _; now exists e | reflexivity].
Qed.

Lemma rotate_panics (w : World) (f : file) :
  rotate w f = None <-> exists e, root w = inr e.
Proof.
  rewrite <- rotate_None. apply compress_panics.
Qed.

(** What [compress] returns is what the walk of the tree returns. *)
Lemma compress_walk (w : World) (f : file) (n : node) :
  root w = inl n ->
  compress w f =
  Some (fst (walkDir w (compress_fn w f) (path f) n []),
        match snd (walkDir w (compress_fn w f) (path f) n []) with
        | Some (Err e) => Some e
        | _ => None
        end).
Proof.
  intros Hroot. unfold compress, WalkDir. rewrite Hroot.
  pose proof (compress_walk_no_panic w f (path f) n []) as Hn.
  destruct (walkDir w (compress_fn w f) (path f) n []) as [tr [[|e|]|]];
    cbn in *; try reflexivity. now elim Hn.
Qed.

Lemma compress_children_app (w : World) (f : file) (name : string)
  (pre rest : list node) :
  forall tr,
    walk_children w (compress_fn w f) name (pre ++ rest) tr =
    match walk_children w (compress_fn w f) name pre tr with
    | (tr', None) => walk_children w (compress_fn w f) name rest tr'
    | r => r
    end.
Proof.
  induction pre as [|c pre IH]; intros tr; [reflexivity|].
  cbn [app walk_children].
  pose proof (compress_walk_no_skip w f
                (Join w name (de_Name (node_entry c))) c tr) as Hn.
  destruct (walkDir w (compress_fn w f)
              (Join w name (de_Name (node_entry c))) c tr)
    as [tr' [[|e|]|]]; cbn in Hn.
  - now elim Hn.
  - reflexivity.
  - reflexivity.
  - apply IH.
Qed.

(** The walk of the archiver ends at the first entry that fails. *)
Lemma compress_first_failure (w : World) (f : file) (d : DirEntry)
  (pre post : list node) (c : node) (tr evs : list event) (e : string) :
  root w = inl (Node d (pre ++ c :: post) None) ->
  de_IsDir d = true ->
  walk_children w (compress_fn w f) (path f) pre [] = (tr, None) ->
  compress_entry w f (child_path w f c) (node_entry c) = (evs, Some e) ->
  compress w f = Some (tr ++ evs, Some e).
Proof.
  intros Hroot Hd Hpre Hc.
  unfold compress, WalkDir. rewrite Hroot, walkDir_unfold.
  unfold compress_fn at 1, compress_entry at 1. rewrite Hd. cbn.
  rewrite compress_children_app, Hpre. cbn [walk_children].
  destruct c as [dc ccs cre]. rewrite walkDir_unfold.
  unfold child_path in Hc. cbn [node_entry] in *.
  unfold compress_fn at 1. rewrite Hc.
  cbn. reflexivity.
Qed.

(** C3 (as amended).  When the archiver fails on a file, the walk ends
    there: what it did is what it did on the entries before that file and
    on the file itself, whatever entries follow; [compress] returns that
    one error; [rotate] hands it to [write] as a single error-level
    message (the buffer gains the formatted message and a newline) and
    returns only the error of opening the next file. *)
Theorem compress_stops_at_first_failure (w : World) (f : file)
  (d : DirEntry) (pre post : list node) (c : node)
  (tr evs : list event) (e : string) :
  root w = inl (Node d (pre ++ c :: post) None) ->
  de_IsDir d = true ->
  walk_children w (compress_fn w f) (path f) pre [] = (tr, None) ->
  compress_entry w f (child_path w f c) (node_entry c) = (evs, Some e) ->
  let msg := mkMessage LevelError "" "" 0 e (now w) [] in
  let logged := write w f (Some msg) in
  exists f' tr',
    compress w f = Some (tr ++ evs, Some e) /\
    buf f' = buf (fst logged) /\
    written (snd logged) +++ buf f' =
      buf f +++ effective_formatter w f msg +++ newline /\
    rotate w f =
      Some (f', tr',
            match os_OpenFile w (path f +++ "/" +++ filename f') with
            | inl _ => None
            | inr e' => Some e'
            end).
Proof.
  intros Hroot Hd Hpre Hc msg logged.
  pose proof (compress_first_failure w f d pre post c tr evs e
                Hroot Hd Hpre Hc) as Hcomp.
  pose proof (rotate_eq w f _ _ Hcomp) as Hrot. cbv zeta in Hrot.
  fold msg in Hrot. fold logged in Hrot.
  eexists. eexists.
  split; [exact Hcomp|].
  split; [|split; [|exact Hrot]].
  - reflexivity.
  - cbn [buf set_file set_filename set_filesize].
    apply (write_stream w f (Some msg)).
Qed.

Lemma compress_stops_at_first_failure_witness :
  let w := with_Create (quiet_world two_logs_dir 0) refuse_a_tgz in
  let f := sweeping_file SweepByFileCount (7 * Day) 5 in
  let msg :=
    mkMessage LevelError "" "" 0 "open logs/a.tgz: permission denied"
      (now w) [] in
  exists f' tr',
    compress w f
    = Some ([] ++ [EvInfo "logs/a.log"; EvCreate "logs/a.tgz"],
            Some "open logs/a.tgz: permission denied") /\
    buf f' = buf (fst (write w f (Some msg))) /\
    written (snd (write w f (Some msg))) +++ buf f' =
      buf f +++ effective_formatter w f msg +++ newline /\
    rotate w f =
      Some (f', tr',
            match os_OpenFile w (path f +++ "/" +++ filename f') with
            | inl _ => None
            | inr e' => Some e'
            end).
Proof.
  apply (compress_stops_at_first_failure
           (with_Create (quiet_world two_logs_dir 0) refuse_a_tgz)
           (sweeping_file SweepByFileCount (7 * Day) 5)
           (sample_dirent "logs") []
           [regular "b.log" 10 (1 * Day); regular "glog-now.log" 1 (2 * Day)]
           (regular "a.log" 10 (1 * Day))
           [] [EvInfo "logs/a.log"; EvCreate "logs/a.tgz"]
           "open logs/a.tgz: permission denied");
    reflexivity.
Defined.

(** C3 (counterexample).  Of two rotated logs, the archiver is refused the
    archive of the first: [compress] returns at once, and the second log,
    which the archiver would pack without error, is neither packed nor
    removed. *)
Lemma compress_failure_skips_later_files :
  let w := with_Create (quiet_world two_logs_dir 0) refuse_a_tgz in
  let f := sweeping_file SweepByFileCount (7 * Day) 5 in
  compress w f =
    Some ([EvInfo "logs/a.log"; EvCreate "logs/a.tgz"],
          Some "open logs/a.tgz: permission denied") /\
  snd (compress_entry w f "logs/b.log"
         (node_entry (regular "b.log" 10 (1 * Day)))) = None /\
  In (EvRemove "logs/b.log")
    (fst (compress_entry w f "logs/b.log"
            (node_entry (regular "b.log" 10 (1 * Day))))) /\
  forall tr err,
    compress w f = Some (tr, err) ->
    ~ In (EvCreate "logs/b.tgz") tr /\ ~ In (EvRemove "logs/b.log") tr.
Proof.
  cbv zeta. split; [reflexivity|]. split; [reflexivity|].
  split; [cbn; tauto|].
  intros tr err H. vm_compute in H. inversion H; subst.
  split; cbn; intros [H0|[H0|[]]]; discriminate.
Qed.

(** Whenever the archiver packs a file without error, the removal of the
    source comes before the deferred closing of the tar stream and the
    flushing and closing of the gzip stream. *)
Lemma compress_entry_order (w : World) (f : file) (name : string)
  (d : DirEntry) (evs : list event) :
  compress_entry w f name d = (evs, None) ->
  evs <> [] ->
  exists info gzfile lfile header,
    evs =
      [EvInfo name;
       EvCreate (substring 0 (String.length name - 4) name +++ ".tgz");
       EvOpen name; EvGzipNewWriter gzfile; EvTarNewWriter gzfile;
       EvFileInfoHeader info; EvWriteHeader gzfile header;
       EvCopy gzfile lfile]
      ++ EvRemove name
      :: [EvTarClose gzfile; EvGzipFlush gzfile; EvGzipClose gzfile;
          EvFileClose lfile; EvFileClose gzfile].
Proof.
  unfold compress_entry. intros H Hne.
  destruct (de_IsDir d || (filename f =? de_Name d)%string);
    [inversion H; subst; now elim Hne|].
  destruct (HasSuffix name ".log");
    [|inversion H; subst; now elim Hne].
  destruct (de_Info d) as [info|e]; [|discriminate].
  destruct (os_Create w _) as [gzfile|e]; [|discriminate].
  destruct (os_Open w name) as [lfile|e]; [|discriminate].
  destruct (tar_FileInfoHeader w info) as [header|e]; [|discriminate].
  destruct (tar_WriteHeader w header) as [e|]; [discriminate|].
  destruct (io_Copy w lfile) as [e|]; [discriminate|].
  inversion H; subst.
  now exists info, gzfile, lfile, header.
Qed.

(** C2 (the behaviour of the code).  Archiving the one rotated log of a
    directory: the trace of [compress] removes the source right after the
    copy, and only then closes the tar stream, flushes and closes the gzip
    stream and closes the archive file; nothing of these precedes the
    removal. *)
Theorem compress_removes_source_before_flush :
  let w := quiet_world one_log_dir 0 in
  let f := sweeping_file SweepByFileCount (7 * Day) 5 in
  let before :=
    [EvInfo "logs/a.log"; EvCreate "logs/a.tgz"; EvOpen "logs/a.log";
     EvGzipNewWriter 4; EvTarNewWriter 4;
     EvFileInfoHeader (mkFileInfo "a.log" 10 (1 * Day));
     EvWriteHeader 4 (mkHeader "a.log" 10 (1 * Day));
     EvCopy 4 5] in
  let after :=
    [EvTarClose 4; EvGzipFlush 4; EvGzipClose 4;
     EvFileClose 5; EvFileClose 4] in
  compress w f = Some (before ++ EvRemove "logs/a.log" :: after, None) /\
  existsb is_flush_or_close before = false /\
  existsb is_FileClose before = false.
Proof.
  cbv zeta. split; [reflexivity|]. split; reflexivity.
Qed.

(** ** Rotation and the directory of the sink *)

(** C6.  When the directory of the sink can be reached, [rotate] closes
    the current file when one is open, runs the archiver, logs an archiver
    failure as an error-level message through [write] (and does not return
    it), resets the byte counter to zero, asks the naming policy for a name
    and takes the default name when the policy answers the empty string,
    and opens the file of that name under the sink's directory for
    writing, in append mode, creating it if needed; the only error it
    returns is that of the opening.  When [os.Lstat] fails on the
    directory, the archiver is called back with a nil entry, which it
    dereferences: [compress] panics and [rotate] with it, before anything
    is logged, reset or opened, while the sweep, whose callback reads the
    error first, returns having removed nothing. *)
Theorem rotate_sequence (w : World) (f : file) :
  (forall e, root w = inr e ->
     compress w f = None /\ rotate w f = None /\ run_start w f = None /\
     sweep w f = []) /\
  (forall t, root w = inl t ->
     exists tr2 cerr,
       compress w f = Some (tr2, cerr) /\
       let closing :=
         match file_ f with Some fd => [EvFileClose fd] | None => [] end in
       let logged :=
         match cerr with
         | Some e =>
             write w f (Some (mkMessage LevelError "" "" 0 e (now w) []))
         | None => (f, [])
         end in
       let name :=
         if (fst (run_format w f) =? "")%string
         then defaultFnFormatter w
         else fst (run_format w f) in
       let target := path f +++ "/" +++ name in
       exists f',
         rotate w f =
           Some (f',
                 closing ++ tr2 ++ snd logged ++ snd (run_format w f)
                   ++ [EvOpenFile target true true true 432],
                 match os_OpenFile w target with
                 | inl _ => None
                 | inr e => Some e
                 end) /\
         filesize f' = 0 /\
         filename f' = name /\
         buf f' = buf (fst logged) /\
         file_ f' =
           match os_OpenFile w target with
           | inl fd => Some fd
           | inr _ => None
           end).
Proof.
  split.
  - intros e He.
    assert (Hc : compress w f = None)
      by (apply compress_panics; now exists e).
    assert (Hr : rotate w f = None) by (now apply rotate_None).
    split; [exact Hc|]. split; [exact Hr|].
    split; [unfold run_start; now rewrite Hr|].
    apply sweep_of_empty_walk.
    now rewrite (sweep_walk_missing w f (now w) e ([], []) He).
  - intros t Ht.
    destruct (compress w f) as [[tr2 cerr]|] eqn:Ec.
    + exists tr2, cerr. split; [reflexivity|]. cbv zeta.
      eexists. split; [exact (rotate_eq w f tr2 cerr Ec)|].
      repeat split; reflexivity.
    + apply compress_panics in Ec. destruct Ec as [e He]. congruence.
Qed.

(** A sink whose directory was removed: the rotation panics in the
    archiver, the sweep returns. *)
Example rotate_without_directory :
  let w :=
    without_root (quiet_world empty_dir 0)
      "lstat logs: no such file or directory" in
  let f := sample_file "glog-now.log" "pending" in
  compress w f = None /\ rotate w f = None /\ sweep w f = [] /\
  run_iteration w f (24 * Hour - Minute) CaseTick = Crashed.
Proof. cbv zeta. repeat split; reflexivity. Qed.

(** C8.  In one iteration of the loop of [run], whatever the state the
    loop is in, a received message or the close signal never rotates,
    never changes the elapsed counter and never crashes.  A tick adds one
    minute to the counter and calls [rotate] if and only if the policy is
    by size and the accumulated size has reached the threshold, or the
    policy is by duration and the counter has reached the duration; a
    tick that does not is left with nothing else done.  When the
    directory of the sink can be reached, a tick that rotates runs
    [rotate], then spawns the sweep, and resets the counter to zero; when
    [os.Lstat] fails on the directory, [rotate] panics in the archiver
    and the loop ends there: the counter is not reset and no sweep is
    spawned. *)
Theorem rotation_only_at_due_ticks (w : World) (f : file) (elapse : Z) :
  (forall f' e' tr,
      run_iteration w f elapse CaseMessage = Continue f' e' tr ->
      e' = elapse /\
      existsb is_OpenFile tr = false /\ existsb is_GoSweep tr = false) /\
  run_iteration w f elapse CaseMessage <> Crashed /\
  (forall f' e' tr,
      run_iteration w f elapse CaseCloseNotify <> Continue f' e' tr) /\
  run_iteration w f elapse CaseCloseNotify <> Crashed /\
  (let elapse1 := wrap64 (elapse + Minute) in
   let due :=
     (rotatePolicy f = RotateBySize /\ rotateFileSize f <= filesize f) \/
     (rotatePolicy f = RotateByDuration /\ rotateDuration f <= elapse1) in
   (~ due -> run_iteration w f elapse CaseTick = Continue f elapse1 []) /\
   (due ->
      (forall t, root w = inl t ->
         exists f' tr err,
           rotate w f = Some (f', tr, err) /\
           run_iteration w f elapse CaseTick
           = Continue f' 0 (tr ++ [EvGoSweep]) /\
           existsb is_OpenFile tr = true) /\
      (forall e, root w = inr e ->
         rotate w f = None /\
         run_iteration w f elapse CaseTick = Crashed))).
Proof.
  split; [|split; [|split; [|split]]].
  - intros f' e' tr H. unfold run_iteration in H.
    destruct (recv_message (messages f)) as [[msg ch]|]; [|discriminate].
    pose proof (write_no_rotation w (set_messages f ch) msg) as Hn.
    destruct (write w (set_messages f ch) msg) as [g t].
    inversion H; subst. simpl in Hn. tauto.
  - unfold run_iteration.
    destruct (recv_message (messages f)) as [[msg ch]|]; [|discriminate].
    destruct (write w (set_messages f ch) msg); discriminate.
  - intros f' e' tr H. unfold run_iteration in H.
    destruct (chan_closed (closeNotify f)); discriminate.
  - unfold run_iteration.
    destruct (chan_closed (closeNotify f)); discriminate.
  - intros elapse1 due.
    pose proof (rotation_due_iff f elapse1) as Hd. fold due in Hd.
    unfold run_iteration. fold elapse1.
    destruct (rotation_due f elapse1) eqn:D.
    + assert (Hdue : due) by (now apply Hd).
      split; [intros N; now elim N|]. intros _. split.
      * intros t Ht.
        destruct (rotate w f) as [[[g tr] err]|] eqn:Er.
        -- exists g, tr, err. split; [reflexivity|].
           split; [reflexivity|].
           exact (rotate_opens w f g tr err Er).
        -- apply rotate_panics in Er. destruct Er as [e He]. congruence.
      * intros e He.
        assert (Hr : rotate w f = None)
          by (apply rotate_panics; now exists e).
        rewrite Hr. split; reflexivity.
    + assert (Hn : ~ due) by (intros N; apply Hd in N; discriminate).
      split; [reflexivity|]. intros N. now elim Hn.
Qed.

(** ** Sample runs *)

Example Path_split_wildcard : Path_split "test-*" = ("test-", ".log").
Proof. reflexivity. Qed.

Example Path_split_infix : Path_split "app-*-x.log" = ("app-", "-x.log").
Proof. reflexivity. Qed.

Example Path_split_plain : Path_split "app" = ("app", ".log").
Proof. reflexivity. Qed.

Example Path_regex_wildcard :
  Path_regex "test-*" = RegexPattern "test-\d+.\.tgz".
Proof. reflexivity. Qed.

Example format_first_free :
  run_format (quiet_world empty_dir 0) (pattern_file "test-*")
  = ("test-0.log", [EvStat "logs/test-0.log"]).
Proof. reflexivity. Qed.

Example write_below_threshold :
  write (quiet_world empty_dir 0) (sample_file "a.log" "old")
    (Some (sample_message "hi"))
  = (sample_file "a.log" ("old" +++ "hi" +++ newline), []).
Proof. reflexivity. Qed.

Example tick_before_duration :
  run_iteration (quiet_world empty_dir 0) (sample_file "a.log" "")
    (22 * Hour) CaseTick
  = Continue (sample_file "a.log" "") (22 * Hour + Minute) [].
Proof. reflexivity. Qed.

Example tick_at_duration :
  run_iteration (quiet_world empty_dir 0) (sample_file "a.log" "")
    (24 * Hour - Minute) CaseTick
  = Continue (sample_file "glog-2026-01-02T030405.log" "") 0
      [EvFileClose 3;
       EvOpenFile "logs/glog-2026-01-02T030405.log" true true true 432;
       EvGoSweep].
Proof. reflexivity. Qed.

Example sweep_keeps_two_of_five :
  sweep (tgz_world five_dir (30 * Day))
    (sweeping_file SweepByFileCount (7 * Day) 2)
  = ["logs/a.tgz"; "logs/d.tgz"; "logs/b.tgz"] /\
  map fst (remaining (tgz_world five_dir (30 * Day))
             (sweeping_file SweepByFileCount (7 * Day) 2))
  = ["logs/c.tgz"; "logs/e.tgz"].
Proof. split; reflexivity. Qed.

Example sweep_count_zero_removes_nothing :
  sweep (tgz_world five_dir (30 * Day))
    (sweeping_file SweepByFileCount (7 * Day) 0) = [].
Proof. reflexivity. Qed.

Example close_then_write :
  run_calls (quiet_world empty_dir 0) (sample_file "a.log" "tail")
    [CallClose; CallWrite (Some (sample_message "late")); CallClose]
  = Some (set_buf
            (set_filesize
               (set_messages
                  (set_closeNotify
                     (set_closed (sample_file "a.log" "tail") 1)
                     (mkChan [] true))
                  (mkChan [] true))
               4)
            "",
          [EvAfter Second; EvCloseNotify; EvCloseMessages;
           EvFileWrite 3 "tail"; EvFileClose 3]).
Proof. reflexivity. Qed.

(** * Further properties of the package *)

(** ** The sink between construction and close *)

Lemma flush_stream (w : World) (f : file) :
  written (snd (flush w f)) +++ buf (fst (flush w f)) = buf f /\
  (file_ f = None -> flush w f = (f, [])) /\
  (forall fd, file_ f = Some fd ->
     snd (flush w f) = [EvFileWrite fd (buf f)] /\
     buf (fst (flush w f)) = "").
Proof.
  unfold flush. destruct (file_ f) as [fd|] eqn:E; cbn [fst snd].
  - split; [cbn [written buf set_buf]; now rewrite !append_nil_r|].
    split; [discriminate|].
    intros fd' E'. inversion E'; subst. split; reflexivity.
  - split; [reflexivity|]. split; [reflexivity | discriminate].
Qed.


Lemma len_nonneg (a : string) : 0 <= len a.
Proof. unfold len. lia. Qed.

Lemma write_keeps_channels (w : World) (f : file) (msg : option Message) :
  messages (fst (write w f msg)) = messages f /\
  closeNotify (fst (write w f msg)) = closeNotify f /\
  closed (fst (write w f msg)) = closed f.
Proof.
  destruct msg as [m|]; [|simpl; auto].
  unfold write, Format.
  destruct (formatter f) eqn:Ef; cbn -[Z.geb Z.add];
    destruct (file_ f) eqn:Eh; cbn -[Z.geb Z.add];
    try destruct (_ >=? _); cbn; auto.
Qed.

Lemma Write_each_open (msgs : list (option Message)) :
  forall f,
    open_sink f ->
    (List.length (queue (messages f)) + List.length msgs <= 8)%nat ->
    Write_each f msgs =
      Some (set_messages f (mkChan (queue (messages f) ++ msgs) false)).
Proof.
  induction msgs as [|m ms IH]; intros f Ho Hlen.
  - cbn. rewrite app_nil_r. destruct Ho as (_ & _ & Hm).
    destruct f as [a b c d e g h i j k l m n o p [q cl] r s]. cbn in *.
    now subst cl.
  - destruct Ho as (Hc & Hn & Hm). cbn [Write_each].
    unfold Write, LoadUint32. rewrite Hc, Hm. cbn [Z.eqb].
    cbn [List.length] in Hlen.
    assert (E : (Z.of_nat (List.length (queue (messages f))) <? BufferCapacity)
                = true).
    { apply Z.ltb_lt. unfold BufferCapacity. lia. }
    rewrite E. rewrite IH.
    + cbn. now rewrite <- app_assoc.
    + unfold open_sink. cbn. auto.
    + cbn. rewrite length_app. cbn. lia.
Qed.

Lemma receive_n_stream (w : World) (elapse : Z) (head : list (option Message)) :
  forall f rest,
    queue (messages f) = head ++ rest ->
    exists f2 tr2,
      receive_n w f elapse (List.length head) = Some (f2, tr2) /\
      written tr2 +++ buf f2 = buf f +++ records w f head /\
      queue (messages f2) = rest /\
      chan_closed (messages f2) = chan_closed (messages f) /\
      closeNotify f2 = closeNotify f /\
      closed f2 = closed f /\
      file_ f2 = file_ f.
Proof.
  induction head as [|m ms IH]; intros f rest Hq.
  - exists f, []. cbn. rewrite append_nil_r. repeat split; auto.
  - cbn [List.length receive_n]. unfold run_iteration, recv_message.
    rewrite Hq. cbn [app].
    set (g := set_messages f (mkChan (ms ++ rest) (chan_closed (messages f)))).
    pose proof (write_stream w g m) as Hs.
    destruct (write_keeps_channels w g m) as (Hm & Hn & Hc).
    destruct (write_frame w g m) as (_ & _ & _ & Hfd).
    pose proof (write_keeps_formatter w g m) as Hfm.
    destruct (write w g m) as [f1 tr1]. cbn [fst snd] in *.
    destruct (IH f1 rest) as (f2 & tr2 & Hr & Hst & Hq2 & Hcl & Hn2 & Hc2 & Hfd2).
    { rewrite Hm. reflexivity. }
    exists f2, (tr1 ++ tr2). cbv beta iota. rewrite Hr.
    split; [reflexivity|].
    split.
    { rewrite written_app, append_assoc, Hst.
      rewrite <- append_assoc, Hs, append_assoc.
      rewrite (records_formatter w g f1 ms Hfm).
      assert (Eg : records w g ms = records w f ms)
        by (apply records_formatter; reflexivity).
      rewrite Eg. reflexivity. }
    split; [exact Hq2|].
    split; [rewrite Hcl, Hm; reflexivity|].
    split; [rewrite Hn2, Hn; reflexivity|].
    split; [rewrite Hc2, Hc; reflexivity|].
    rewrite Hfd2, Hfd. reflexivity.
Qed.

(** ** The loop and the buffer *)

(** C9.  When the loop of [run] takes a message from the queue while a
    file is open: if the formatted length of the message plus the length
    of the buffer reaches 2048 bytes, the iteration hands the whole buffer
    to the file, counts the bytes the file reports, and starts the buffer
    afresh with the message and its newline; below 2048 bytes it writes
    nothing and appends the message and its newline to the buffer.  Either
    way the message has left the queue, and the counter of elapsed time is
    as it was. *)
Theorem loop_flushes_at_threshold
  (w : World) (f : file) (elapse : Z) (m : Message)
  (q : list (option Message)) (fd : handle) :
  queue (messages f) = Some m :: q ->
  file_ f = Some fd ->
  let msgstr := effective_formatter w f m in
  exists f',
    queue (messages f') = q /\
    file_ f' = Some fd /\
    (2048 <= len msgstr + len (buf f) ->
       run_iteration w f elapse CaseMessage
       = Continue f' elapse [EvFileWrite fd (buf f)] /\
       buf f' = msgstr +++ newline /\
       filesize f' = wrap64 (filesize f + file_Write w fd (buf f))) /\
    (len msgstr + len (buf f) < 2048 ->
       run_iteration w f elapse CaseMessage = Continue f' elapse [] /\
       buf f' = buf f +++ msgstr +++ newline /\
       filesize f' = filesize f).
Proof.
  intros Hq Hfd msgstr.
  set (g := set_messages f (mkChan q (chan_closed (messages f)))).
  assert (Hrun : run_iteration w f elapse CaseMessage =
                 Continue (fst (write w g (Some m))) elapse
                   (snd (write w g (Some m)))).
  { unfold run_iteration, recv_message. rewrite Hq. fold g.
    now destruct (write w g (Some m)). }
  destruct (write_keeps_channels w g (Some m)) as (Hm & _).
  destruct (write_frame w g (Some m)) as (_ & _ & _ & Hf).
  destruct (write_threshold w g m fd Hfd) as (Hhi & Hlo).
  exists (fst (write w g (Some m))).
  split; [now rewrite Hm|]. split; [now rewrite Hf|].
  rewrite Hrun. split; intros H.
  - destruct (Hhi H) as (Ht & Hb & Hz). rewrite Ht. auto.
  - destruct (Hlo H) as (Ht & Hb & Hz). rewrite Ht. auto.
Qed.

Lemma loop_flushes_at_threshold_witness :
  let w := quiet_world empty_dir 0 in
  let f :=
    set_messages (sample_file "a.log" (filler 2040))
      (mkChan [Some (sample_message "12345678")] false) in
  exists f',
    queue (messages f') = [] /\
    file_ f' = Some 3 /\
    (2048 <= len "12345678" + len (buf f) ->
       run_iteration w f 0 CaseMessage
       = Continue f' 0 [EvFileWrite 3 (buf f)] /\
       buf f' = "12345678" +++ newline /\
       filesize f' = wrap64 (filesize f + file_Write w 3 (buf f))) /\
    (len "12345678" + len (buf f) < 2048 ->
       run_iteration w f 0 CaseMessage = Continue f' 0 [] /\
       buf f' = buf f +++ "12345678" +++ newline /\
       filesize f' = filesize f).
Proof.
  apply (loop_flushes_at_threshold (quiet_world empty_dir 0)
           (set_messages (sample_file "a.log" (filler 2040))
              (mkChan [Some (sample_message "12345678")] false))
           0 (sample_message "12345678") [] 3);
    reflexivity.
Defined.

(** C10.  The newline is one byte.  When the loop of [run] takes a nil
    message from the queue it leaves the buffer and the file as they are;
    when it takes a message it adds to the stream of bytes (those handed
    to the file, then those still buffered) exactly the formatter's output
    and the newline, which then end the buffer; and over any number of
    messages taken from the queue the stream is the old buffer followed by
    one such record per non-nil message, in the order of the queue. *)
Theorem loop_appends_one_record_per_message (w : World) (elapse : Z) :
  String.length newline = 1%nat /\
  (forall f q,
      queue (messages f) = None :: q ->
      run_iteration w f elapse CaseMessage =
      Continue (set_messages f (mkChan q (chan_closed (messages f))))
        elapse []) /\
  (forall f m q,
      queue (messages f) = Some m :: q ->
      exists f' tr,
        run_iteration w f elapse CaseMessage = Continue f' elapse tr /\
        queue (messages f') = q /\
        written tr +++ buf f' =
          buf f +++ effective_formatter w f m +++ newline /\
        (buf f' = buf f +++ effective_formatter w f m +++ newline \/
         buf f' = effective_formatter w f m +++ newline)) /\
  (forall f head rest,
      queue (messages f) = head ++ rest ->
      exists f' tr,
        receive_n w f elapse (List.length head) = Some (f', tr) /\
        queue (messages f') = rest /\
        written tr +++ buf f' = buf f +++ records w f head).
Proof.
  split; [reflexivity|]. split; [|split].
  - intros f q Hq. unfold run_iteration, recv_message. now rewrite Hq.
  - intros f m q Hq.
    set (g := set_messages f (mkChan q (chan_closed (messages f)))).
    exists (fst (write w g (Some m))), (snd (write w g (Some m))).
    split.
    { unfold run_iteration, recv_message. rewrite Hq. fold g.
      now destruct (write w g (Some m)). }
    destruct (write_keeps_channels w g (Some m)) as (Hm & _).
    split; [now rewrite Hm|].
    split; [exact (write_stream w g (Some m))|].
    destruct (write_Some w g m) as (_ & Hb & _). rewrite Hb.
    change (buf g) with (buf f).
    change (effective_formatter w g m) with (effective_formatter w f m).
    destruct (file_ g); [|now left].
    destruct (_ >=? _); [now right | now left].
  - intros f head rest Hq.
    destruct (receive_n_stream w elapse head f rest Hq)
      as (f2 & tr2 & Hr & Hst & Hq2 & _).
    exists f2, tr2. auto.
Qed.

(** X1.  Messages handed to [Write] on an open sink whose queue is empty,
    at most eight of them, are all enqueued, none blocking, and the loop
    receives them in the order of the calls: once it has taken [k] of
    them, the bytes handed to the file followed by the buffer are the old
    buffer followed by the records of the first [k] messages, and the
    others wait in the queue in their order; when it has taken them all
    the message case has nothing to receive. *)
Theorem queued_messages_are_received_in_order
  (w : World) (f : file) (msgs : list (option Message))
  (k : nat) (elapse : Z) :
  open_sink f ->
  queue (messages f) = [] ->
  (List.length msgs <= 8)%nat ->
  (k <= List.length msgs)%nat ->
  exists f1 f2 tr2,
    Write_each f msgs = Some f1 /\
    queue (messages f1) = msgs /\
    receive_n w f1 elapse k = Some (f2, tr2) /\
    written tr2 +++ buf f2 = buf f +++ records w f (firstn k msgs) /\
    queue (messages f2) = skipn k msgs /\
    open_sink f2 /\
    (k = List.length msgs ->
       run_iteration w f2 elapse CaseMessage = NotReady).
Proof.
  intros Ho Hq Hlen Hk.
  pose proof (Write_each_open msgs f Ho) as Hw.
  rewrite Hq in Hw. cbn [List.length app Nat.add] in Hw.
  specialize (Hw Hlen).
  set (f1 := set_messages f (mkChan msgs false)) in *.
  destruct (receive_n_stream w elapse (firstn k msgs) f1 (skipn k msgs))
    as (f2 & tr2 & Hr & Hst & Hq2 & Hcl & Hn2 & Hc2 & Hfd2).
  { cbn. now rewrite firstn_skipn. }
  rewrite length_firstn, Nat.min_l in Hr by exact Hk.
  assert (Ho2 : open_sink f2).
  { destruct Ho as (Hc & Hn & Hm). unfold open_sink.
    rewrite Hc2, Hn2, Hcl. cbn. auto. }
  exists f1, f2, tr2.
  split; [exact Hw|]. split; [reflexivity|]. split; [exact Hr|].
  split.
  { rewrite Hst.
    assert (Eg : records w f1 (firstn k msgs) = records w f (firstn k msgs))
      by (apply records_formatter; reflexivity).
    rewrite Eg. reflexivity. }
  split; [exact Hq2|]. split; [exact Ho2|].
  intros ->. unfold run_iteration, recv_message.
  rewrite Hq2, skipn_all. destruct Ho2 as (_ & _ & Hm). now rewrite Hm.
Qed.

Lemma queued_messages_are_received_in_order_witness :
  exists f1 f2 tr2,
    Write_each (sample_file "a.log" "")
      [Some (sample_message "one"); None; Some (sample_message "two")]
      = Some f1 /\
    queue (messages f1) =
      [Some (sample_message "one"); None; Some (sample_message "two")] /\
    receive_n (quiet_world empty_dir 0) f1 0 2 = Some (f2, tr2) /\
    written tr2 +++ buf f2 =
      buf (sample_file "a.log" "")
      +++ records (quiet_world empty_dir 0) (sample_file "a.log" "")
            (firstn 2 [Some (sample_message "one"); None;
                       Some (sample_message "two")]) /\
    queue (messages f2) =
      skipn 2 [Some (sample_message "one"); None;
               Some (sample_message "two")] /\
    open_sink f2 /\
    (2%nat = List.length
               [Some (sample_message "one"); None;
                Some (sample_message "two")] ->
       run_iteration (quiet_world empty_dir 0) f2 0 CaseMessage = NotReady).
Proof.
  apply (queued_messages_are_received_in_order (quiet_world empty_dir 0)
           (sample_file "a.log" "")).
  - unfold open_sink. cbn. repeat split; reflexivity.
  - reflexivity.
  - cbn. lia.
  - cbn. lia.
Defined.





Lemma write_all_no_file (w : World) (msgs : list (option Message)) :
  forall f,
    file_ f = None ->
    snd (write_all w f msgs) = [] /\
    buf (fst (write_all w f msgs)) = buf f +++ records w f msgs /\
    file_ (fst (write_all w f msgs)) = None.
Proof.
  induction msgs as [|m ms IH]; intros f Hn.
  - cbn. rewrite append_nil_r. auto.
  - rewrite write_all_cons. cbn [fst snd].
    destruct (write_frame w f m) as (_ & _ & _ & Hfd).
    assert (Hstep : snd (write w f m) = [] /\
                    buf (fst (write w f m)) = buf f +++ record w f m).
    { destruct m as [m|].
      - destruct (write_Some w f m) as (Ht & Hb & _).
        rewrite Hn in Ht, Hb. auto.
      - cbn. now rewrite append_nil_r. }
    destruct Hstep as [Ht Hb].
    destruct (IH (fst (write w f m))) as (Ht' & Hb' & Hn').
    { now rewrite Hfd. }
    rewrite Ht, Ht', Hb', Hb, Hn'.
    rewrite (records_formatter w f (fst (write w f m)) ms
               (write_keeps_formatter w f m)).
    rewrite append_assoc. auto.
Qed.

(** When [rotate] fails to open the next file, the sink is left without
    a file (and [run] panics if this was its first rotation): every later
    message is kept in the buffer, nothing is handed to a file, and
    [flush] does nothing. *)
Theorem failed_open_keeps_messages_in_memory
  (w w' : World) (f : file) (e : string) (msgs : list (option Message))
  (f' : file) (tr : list event) :
  rotate w f = Some (f', tr, Some e) ->
  let f'' := fst (write_all w' f' msgs) in
  run_start w f = None /\
  file_ f' = None /\
  snd (write_all w' f' msgs) = [] /\
  buf f'' = buf f' +++ records w' f' msgs /\
  flush w' f'' = (f'', []).
Proof.
  intros He f''.
  assert (Hnone : file_ f' = None).
  { revert He. unfold rotate.
    destruct (compress w f) as [[tr2 cerr]|]; [|discriminate].
    destruct (match cerr with Some e0 => _ | None => _ end) as [f1 tr3].
    destruct (run_format w _) as [fname0 tr4].
    destruct (os_OpenFile w _); intros H; inversion H; subst; reflexivity. }
  destruct (write_all_no_file w' msgs f' Hnone) as (Ht & Hb & Hn).
  fold f'' in Hb, Hn.
  split; [unfold run_start; now rewrite He|].
  split; [exact Hnone|]. split; [exact Ht|]. split; [exact Hb|].
  unfold flush. now rewrite Hn.
Qed.

Lemma failed_open_keeps_messages_in_memory_witness :
  exists f' tr,
    rotate
      (with_OpenFile (quiet_world empty_dir 0)
         (fun _ => inr "no space left on device"))
      (sample_file "a.log" "")
    = Some (f', tr, Some "no space left on device") /\
    snd (write_all (quiet_world empty_dir 0) f'
           [Some (sample_message (filler 3000))]) = [].
Proof.
  eexists. eexists. split; [reflexivity|].
  eapply (failed_open_keeps_messages_in_memory
            (with_OpenFile (quiet_world empty_dir 0)
               (fun _ => inr "no space left on device"))
            (quiet_world empty_dir 0) (sample_file "a.log" "")
            "no space left on device"
            [Some (sample_message (filler 3000))]).
  reflexivity.
Defined.

Lemma tick_n_idle (w : World) (f : file) (n : nat) :
  rotatePolicy f = RotateByDuration ->
  rotateDuration f < 2 ^ 63 ->
  forall e0,
    0 <= e0 ->
    e0 + Z.of_nat n * Minute < rotateDuration f ->
    tick_n w f e0 n = Some (f, e0 + Z.of_nat n * Minute, []).
Proof.
  intros Hp Hmax. induction n as [|n IH]; intros e0 H0 Hlt.
  - cbn. now rewrite Z.add_0_r.
  - cbn [tick_n]. unfold run_iteration.
    change Minute with 60000000000 in *.
    rewrite Nat2Z.inj_succ in Hlt.
    rewrite wrap64_small
      by (change (2 ^ 63) with 9223372036854775808 in *; lia).
    assert (E : rotation_due f (e0 + 60000000000) = false).
    { destruct (rotation_due f (e0 + 60000000000)) eqn:E; [|reflexivity].
      apply rotation_due_iff in E. rewrite Hp in E.
      destruct E as [[E _]|[_ E]]; [discriminate | lia]. }
    rewrite E. rewrite IH by lia.
    f_equal. f_equal. f_equal. lia.
Qed.

(** One more tick after [n] ticks. *)
Lemma tick_n_snoc (w : World) (n : nat) :
  forall f e0 g e1 tr,
    tick_n w f e0 n = Some (g, e1, tr) ->
    tick_n w f e0 (S n) =
    match run_iteration w g e1 CaseTick with
    | Continue f' e' tr' => Some (f', e', tr ++ tr')
    | _ => None
    end.
Proof.
  induction n as [|n IH]; intros f e0 g e1 tr H.
  - cbn in H. inversion H; subst. cbn [tick_n app].
    destruct (run_iteration w g e1 CaseTick); try reflexivity.
    now rewrite app_nil_r.
  - cbn [tick_n] in H.
    change (tick_n w f e0 (S (S n))) with
      (match run_iteration w f e0 CaseTick with
       | Continue f1 e2 tr1 =>
           match tick_n w f1 e2 (S n) with
           | Some (f2, e3, tr2) => Some (f2, e3, tr1 ++ tr2)
           | None => None
           end
       | _ => None
       end).
    destruct (run_iteration w f e0 CaseTick) as [f1 e2 tr1| | |];
      try discriminate.
    destruct (tick_n w f1 e2 n) as [[[f2 e3] tr2]|] eqn:Et; [|discriminate].
    inversion H; subst.
    rewrite (IH f1 e2 g e1 tr2 Et).
    destruct (run_iteration w g e1 CaseTick); try reflexivity.
    now rewrite app_assoc.
Qed.

(** X4.  Under the by-duration policy, counting from a rotation, the
    ticks before the duration has elapsed leave the sink as it is.  The
    first tick at which the minutes counted reach the duration calls
    [rotate]: when the directory of the sink can be reached it rotates,
    resets the counter and spawns the sweep; when [os.Lstat] fails on it
    the archiver panics and the loop ends there, with no reset and no
    sweep. *)
Theorem rotation_by_duration_at_first_due_tick
  (w : World) (f : file) (n : nat) :
  rotatePolicy f = RotateByDuration ->
  (Z.of_nat n + 1) * Minute < 2 ^ 63 ->
  Z.of_nat n * Minute < rotateDuration f <= (Z.of_nat n + 1) * Minute ->
  tick_n w f 0 n = Some (f, Z.of_nat n * Minute, []) /\
  ((exists e, root w = inr e) ->
     run_iteration w f (Z.of_nat n * Minute) CaseTick = Crashed /\
     tick_n w f 0 (S n) = None) /\
  ((exists t, root w = inl t) ->
     exists f' tr err,
       rotate w f = Some (f', tr, err) /\
       run_iteration w f (Z.of_nat n * Minute) CaseTick
       = Continue f' 0 (tr ++ [EvGoSweep]) /\
       tick_n w f 0 (S n) = Some (f', 0, tr ++ [EvGoSweep]) /\
       existsb is_OpenFile tr = true).
Proof.
  intros Hp Hmax [Hlo Hhi].
  assert (Hidle : tick_n w f 0 n = Some (f, Z.of_nat n * Minute, []))
    by (apply (tick_n_idle w f n Hp); lia).
  pose proof (tick_n_snoc w n f 0 f _ [] Hidle) as Hstep.
  assert (Hrun : run_iteration w f (Z.of_nat n * Minute) CaseTick =
                 match rotate w f with
                 | Some (f', tr, _) => Continue f' 0 (tr ++ [EvGoSweep])
                 | None => Crashed
                 end).
  { unfold run_iteration.
    change Minute with 60000000000 in *.
    rewrite wrap64_small
      by (change (2 ^ 63) with 9223372036854775808 in *; lia).
    assert (E : rotation_due f (Z.of_nat n * 60000000000 + 60000000000)
                = true).
    { apply rotation_due_iff. right. split; [exact Hp | lia]. }
    now rewrite E. }
  split; [exact Hidle|]. split.
  - intros Hmiss. apply (rotate_panics w f) in Hmiss.
    rewrite Hmiss in Hrun. split; [exact Hrun|].
    now rewrite Hstep, Hrun.
  - intros [t Ht].
    destruct (rotate w f) as [[[g tr] err]|] eqn:Er.
    + exists g, tr, err. split; [reflexivity|]. split; [exact Hrun|].
      split; [now rewrite Hstep, Hrun|].
      exact (rotate_opens w f g tr err Er).
    + apply (rotate_panics w f) in Er. destruct Er as [e He]. congruence.
Qed.

Lemma rotation_by_duration_at_first_due_tick_witness :
  tick_n (quiet_world empty_dir 0) (sample_file "a.log" "") 0 1439
  = Some (sample_file "a.log" "", Z.of_nat 1439 * Minute, []).
Proof.
  apply (rotation_by_duration_at_first_due_tick (quiet_world empty_dir 0)
           (sample_file "a.log" "") 1439).
  - reflexivity.
  - reflexivity.
  - split; [reflexivity | discriminate].
Defined.
(** ** What the walks never do *)

(** A property of the callback's state that every call of the callback
    on an entry of the tree keeps is kept by the whole walk. *)
Lemma walkDir_invariant_on {S : Type} (w : World) (fn : WalkDirFunc S)
  (I : S -> Prop) (P : string -> DirEntry -> Prop) :
  (forall st name d err,
      P name d -> I st -> I (fst (fn st name (Some d) err))) ->
  forall n name st,
    (forall p e, In (p, e) (entries_under w name n) -> P p e) ->
    I st -> I (fst (walkDir w fn name n st)).
Proof.
  intros Hfn. fix IH 1. intros [d cs re] name st HP Hst.
  rewrite walkDir_unfold.
  assert (Hd : P name d) by (apply HP; cbn; now left).
  assert (Hcs : forall st0,
             (forall p e,
                 In (p, e)
                   (flat_map
                      (fun c =>
                         entries_under w
                           (Join w name (de_Name (node_entry c))) c) cs) ->
                 P p e) ->
             I st0 -> I (fst (walk_children w fn name cs st0))).
  { clear HP Hd. induction cs as [|c cs IHcs]; intros st0 HP0 H0;
      [exact H0|].
    cbn [walk_children].
    assert (Hc : I (fst (walkDir w fn
                           (Join w name (de_Name (node_entry c))) c st0))).
    { apply IH; [|exact H0]. intros p e Hin. apply HP0.
      cbn [flat_map]. apply in_or_app. now left. }
    destruct (walkDir w fn (Join w name (de_Name (node_entry c))) c st0)
      as [st' [[|e|]|]]; cbn [fst] in *; auto.
    apply IHcs; [|exact Hc]. intros p e Hin. apply HP0.
    cbn [flat_map]. apply in_or_app. now right. }
  assert (HPcs : forall p e,
             In (p, e)
               (flat_map
                  (fun c =>
                     entries_under w
                       (Join w name (de_Name (node_entry c))) c) cs) ->
             P p e).
  { intros p e Hin. apply HP. cbn. now right. }
  pose proof (Hfn st name d None Hd Hst) as H1.
  destruct (fn st name (Some d) None) as [st1 [e|]]; cbn [fst] in *;
    [exact H1|].
  destruct (negb (de_IsDir d)); [exact H1|].
  destruct re as [r|]; [|now apply Hcs].
  pose proof (Hfn st1 name d (Some r) Hd H1) as H2.
  destruct (fn st1 name (Some d) (Some r)) as [st2 [e|]]; cbn [fst] in *;
    [exact H2 | now apply Hcs].
Qed.

Lemma walkDir_invariant {S : Type} (w : World) (fn : WalkDirFunc S)
  (I : S -> Prop) :
  (forall st name d err, I st -> I (fst (fn st name d err))) ->
  forall n name st, I st -> I (fst (walkDir w fn name n st)).
Proof.
  intros Hfn n name st Hst.
  apply (walkDir_invariant_on w fn I (fun _ _ => True)); auto.
Qed.

(** The callback removes a file only at the end of a packing that went
    through: the entry is then a file, not the active one, its path ends
    in ".log", and the calls made are those of [packing]. *)
Lemma compress_entry_removal (w : World) (f : file) (name : string)
  (d : DirEntry) (n : string) :
  In (EvRemove n) (fst (compress_entry w f name d)) ->
  n = name /\
  HasSuffix name ".log" = true /\
  de_IsDir d = false /\
  de_Name d <> filename f /\
  exists info gz lf h,
    de_Info d = inl info /\
    os_Create w (archive_of name) = inl gz /\
    os_Open w name = inl lf /\
    tar_FileInfoHeader w info = inl h /\
    tar_WriteHeader w h = None /\
    io_Copy w lf = None /\
    compress_entry w f name d = (packing name info gz lf h, None).
Proof.
  unfold compress_entry, archive_of.
  destruct (de_IsDir d) eqn:Ed; [intros []|].
  destruct (filename f =? de_Name d)%string eqn:En; [intros []|].
  apply String.eqb_neq in En.
  cbn [orb].
  destruct (HasSuffix name ".log") eqn:Es; [|intros []].
  destruct (de_Info d) as [info|e];
    [|cbn; intros [H|[]]; discriminate].
  destruct (os_Create w _) as [gzfile|e];
    [|cbn; intros [H|[H|[]]]; discriminate].
  destruct (os_Open w name) as [lfile|e];
    [|cbn; intros H; repeat (destruct H as [H|H]; try discriminate);
      destruct H].
  destruct (tar_FileInfoHeader w info) as [header|e] eqn:Eh;
    [|cbn; intros H; repeat (destruct H as [H|H]; try discriminate);
      destruct H].
  destruct (tar_WriteHeader w header) as [e|] eqn:Ew;
    [cbn; intros H; repeat (destruct H as [H|H]; try discriminate);
      destruct H|].
  destruct (io_Copy w lfile) as [e|] eqn:Ec;
    [cbn; intros H; repeat (destruct H as [H|H]; try discriminate);
      destruct H|].
  cbn [fst snd]. intros H.
  assert (Hn : n = name).
  { cbn in H. repeat (destruct H as [H|H]; try discriminate);
      [now inversion H | destruct H]. }
  split; [exact Hn|]. split; [reflexivity|]. split; [reflexivity|].
  split; [congruence|].
  exists info, gzfile, lfile, header.
  repeat split; auto.
Qed.

(** X5.  Whatever [compress] hands to [os.Remove] is the path of an entry
    of the tree under the sink's directory that is not a directory, does
    not bear the name of the active file, and ends in ".log"; and the
    removal is the ninth call of a packing of that very file into the
    archive of the same path with the extension replaced by ".tgz":
    [Info()], [os.Create] and [os.Open], the header and [io.Copy] all
    succeeded on it, in that order, just before. *)
Theorem compress_removes_only_archived_logs (w : World) (f : file)
  (t : node) (tr : list event) (err : option string) (n : string) :
  root w = inl t ->
  compress w f = Some (tr, err) ->
  In (EvRemove n) tr ->
  exists d info gz lf h before after,
    In (n, d) (entries_under w (path f) t) /\
    de_IsDir d = false /\
    de_Name d <> filename f /\
    HasSuffix n ".log" = true /\
    de_Info d = inl info /\
    os_Create w (archive_of n) = inl gz /\
    os_Open w n = inl lf /\
    tar_FileInfoHeader w info = inl h /\
    tar_WriteHeader w h = None /\
    io_Copy w lf = None /\
    tr = before ++ packing n info gz lf h ++ after.
Proof.
  intros Hroot Hc Hin.
  set (I := fun tr0 : list event =>
              forall n0, In (EvRemove n0) tr0 ->
                exists d info gz lf h before after,
                  In (n0, d) (entries_under w (path f) t) /\
                  de_IsDir d = false /\
                  de_Name d <> filename f /\
                  HasSuffix n0 ".log" = true /\
                  de_Info d = inl info /\
                  os_Create w (archive_of n0) = inl gz /\
                  os_Open w n0 = inl lf /\
                  tar_FileInfoHeader w info = inl h /\
                  tar_WriteHeader w h = None /\
                  io_Copy w lf = None /\
                  tr0 = before ++ packing n0 info gz lf h ++ after).
  assert (Hwalk : I (fst (walkDir w (compress_fn w f) (path f) t []))).
  { apply (walkDir_invariant_on w (compress_fn w f) I
             (fun p e => In (p, e) (entries_under w (path f) t)));
      [|auto|intros m []].
    intros tr0 name d e0 Hd Htr m. unfold compress_fn.
    pose proof (compress_entry_removal w f name d m) as He.
    destruct (compress_entry w f name d) as [evs r]. cbn [fst snd] in *.
    intros Hm. apply in_app_or in Hm. destruct Hm as [Hm|Hm].
    - destruct (Htr m Hm)
        as (d0 & info & gz & lf & h & before & after & H1 & H2 & H3 & H4
            & H5 & H6 & H7 & H8 & H9 & H10 & H11).
      exists d0, info, gz, lf, h, before, (after ++ evs).
      repeat split; auto.
      rewrite H11, <- !app_assoc. reflexivity.
    - destruct (He Hm)
        as (-> & H1 & H2 & H3 & info & gz & lf & h & H4 & H5 & H6 & H7
            & H8 & H9 & H10).
      inversion H10; subst.
      exists d, info, gz, lf, h, tr0, [].
      repeat split; auto. }
  rewrite (compress_walk w f t Hroot) in Hc. inversion Hc; subst.
  exact (Hwalk n Hin).
Qed.

Lemma compress_removes_only_archived_logs_witness :
  exists d info gz lf h before after,
    In ("logs/a.log", d)
      (entries_under (quiet_world one_log_dir 0)
         (path (sweeping_file SweepByFileCount (7 * Day) 5)) one_log_dir) /\
    de_IsDir d = false /\
    de_Name d <> filename (sweeping_file SweepByFileCount (7 * Day) 5) /\
    HasSuffix "logs/a.log" ".log" = true /\
    de_Info d = inl info /\
    os_Create (quiet_world one_log_dir 0) (archive_of "logs/a.log")
    = inl gz /\
    os_Open (quiet_world one_log_dir 0) "logs/a.log" = inl lf /\
    tar_FileInfoHeader (quiet_world one_log_dir 0) info = inl h /\
    tar_WriteHeader (quiet_world one_log_dir 0) h = None /\
    io_Copy (quiet_world one_log_dir 0) lf = None /\
    packing "logs/a.log" (mkFileInfo "a.log" 10 (1 * Day)) 4 5
      (mkHeader "a.log" 10 (1 * Day))
    = before ++ packing "logs/a.log" info gz lf h ++ after.
Proof.
  apply (compress_removes_only_archived_logs (quiet_world one_log_dir 0)
           (sweeping_file SweepByFileCount (7 * Day) 5)
           one_log_dir _ None "logs/a.log").
  - reflexivity.
  - reflexivity.
  - cbn. auto 20.
Defined.

(** The walk reads the world only to join paths. *)
Lemma walkDir_Join {S : Type} (w w' : World) (fn : WalkDirFunc S) :
  Join w = Join w' ->
  forall n name st, walkDir w fn name n st = walkDir w' fn name n st.
Proof.
  intros HJ. fix IH 1. intros [d cs re] name st.
  rewrite !walkDir_unfold.
  assert (Hcs : forall st0,
             walk_children w fn name cs st0 = walk_children w' fn name cs st0).
  { induction cs as [|c cs IHcs]; intros st0; [reflexivity|].
    cbn [walk_children]. rewrite HJ, (IH c).
    destruct (walkDir w' fn (Join w' name (de_Name (node_entry c))) c st0)
      as [st' [[|e|]|]]; auto. }
  destruct (fn st name (Some d) None) as [st1 [e|]]; [reflexivity|].
  destruct (negb (de_IsDir d)); [reflexivity|].
  destruct re as [r|]; [|apply Hcs].
  destruct (fn st1 name (Some d) (Some r)) as [st2 [e|]];
    [reflexivity | apply Hcs].
Qed.

Lemma walk_children_Join {S : Type} (w w' : World) (fn : WalkDirFunc S)
  (name : string) (cs : list node) :
  Join w = Join w' ->
  forall st, walk_children w fn name cs st = walk_children w' fn name cs st.
Proof.
  intros HJ. induction cs as [|c cs IH]; intros st; [reflexivity|].
  cbn [walk_children]. rewrite HJ, (walkDir_Join w w' fn HJ).
  destruct (walkDir w' fn (Join w' name (de_Name (node_entry c))) c st)
    as [st' [[|e|]|]]; auto.
Qed.

(** An error of [os.ReadDir] on the sink's directory does not show in the
    archiver: [compress] returns what it returns on the entries that were
    listed, and no error for the directory. *)
Theorem compress_ignores_read_error (w : World) (f : file)
  (d : DirEntry) (cs : list node) (re : string) :
  root w = inl (Node d cs (Some re)) ->
  compress w f = compress (with_root w (Node d cs None)) f /\
  (de_IsDir d = true ->
   compress w f =
     Some
       (let '(tr, r) := walk_children w (compress_fn w f) (path f) cs [] in
        (tr, match r with Some (Err e) => Some e | _ => None end))).
Proof.
  intros Hroot.
  rewrite (compress_walk w f _ Hroot).
  rewrite (compress_walk (with_root w (Node d cs None)) f
             (Node d cs None) eq_refl).
  rewrite !walkDir_unfold.
  change (compress_fn (with_root w (Node d cs None)) f)
    with (compress_fn w f).
  destruct (de_IsDir d) eqn:Ed.
  - assert (Ee : forall tr err,
               compress_fn w f tr (path f) (Some d) err = (tr ++ [], None)).
    { intros tr err. unfold compress_fn, compress_entry. now rewrite Ed. }
    rewrite !Ee. cbn [negb app].
    rewrite (walk_children_Join (with_root w (Node d cs None)) w)
      by reflexivity.
    split; [reflexivity|]. intros _.
    destruct (walk_children w (compress_fn w f) (path f) cs [])
      as [tr [[|e|]|]]; reflexivity.
  - split; [|discriminate].
    destruct (compress_fn w f [] (path f) (Some d) None) as [st1 [e|]];
      reflexivity.
Qed.

Lemma compress_ignores_read_error_witness :
  compress (with_root (quiet_world empty_dir 0)
              (Node (sample_dirent "logs")
                 [regular "a.log" 10 (1 * Day)] (Some "input/output error")))
    (sweeping_file SweepByFileCount (7 * Day) 5)
  = compress (with_root
                (with_root (quiet_world empty_dir 0)
                   (Node (sample_dirent "logs")
                      [regular "a.log" 10 (1 * Day)]
                      (Some "input/output error")))
                (Node (sample_dirent "logs")
                   [regular "a.log" 10 (1 * Day)] None))
      (sweeping_file SweepByFileCount (7 * Day) 5).
Proof.
  refine (proj1 (compress_ignores_read_error
           (with_root (quiet_world empty_dir 0)
              (Node (sample_dirent "logs")
                 [regular "a.log" 10 (1 * Day)] (Some "input/output error")))
           (sweeping_file SweepByFileCount (7 * Day) 5)
           (sample_dirent "logs") [regular "a.log" 10 (1 * Day)]
           "input/output error" _)).
  reflexivity.
Defined.

Lemma candidates_of_spec (w : World) (f : file) (cs : list node)
  (x : string * FileInfo) :
  In x (candidates_of w f cs) ->
  exists c,
    In c cs /\ fst x = child_path w f c /\
    de_IsDir (node_entry c) = false /\
    sweep_matches w f (fst x) = true /\
    de_Info (node_entry c) = inl (snd x).
Proof.
  induction cs as [|c cs IH]; intros Hx; [destruct Hx|].
  cbn [candidates_of] in Hx.
  assert (Hrest : In x (candidates_of w f cs) ->
                  exists c0,
                    In c0 (c :: cs) /\ fst x = child_path w f c0 /\
                    de_IsDir (node_entry c0) = false /\
                    sweep_matches w f (fst x) = true /\
                    de_Info (node_entry c0) = inl (snd x)).
  { intros H. destruct (IH H) as (c0 & H0 & H1).
    exists c0. split; [now right | exact H1]. }
  unfold candidate in Hx.
  destruct (de_IsDir (node_entry c)) eqn:Ed; [now apply Hrest|].
  destruct (sweep_matches w f (child_path w f c)) eqn:Em;
    [|now apply Hrest].
  destruct (de_Info (node_entry c)) as [fi|e] eqn:Ei; [|now apply Hrest].
  destruct Hx as [<-|Hx]; [|now apply Hrest].
  exists c. cbn [fst snd]. repeat split; auto. now left.
Qed.

(** The sweep hands to [os.Remove] nothing but candidates: entries
    directly under the sink's directory that are not directories, that
    pass the pattern test, and whose [Info()] succeeds. *)
Theorem sweep_removes_only_candidates (w : World) (f : file) (p : string) :
  readable_root w f ->
  (forall l, Permutation (sort_Sort w l) l) ->
  In p (sweep w f) ->
  exists c fi,
    In c (listing w) /\
    p = child_path w f c /\
    de_IsDir (node_entry c) = false /\
    sweep_matches w f p = true /\
    de_Info (node_entry c) = inl fi.
Proof.
  intros Hr Hperm Hin.
  assert (Hin' : In p (map fst (candidates w f))).
  { destruct (String.eqb_spec (sweepPolicy f) SweepByInterval) as [Ea|Ea].
    - rewrite (sweep_by_interval w f Hr Ea) in Hin.
      apply in_map_iff in Hin. destruct Hin as (x & Hx & Hf).
      apply filter_In in Hf. apply in_map_iff. exists x. tauto.
    - destruct (String.eqb_spec (sweepPolicy f) SweepByFileCount) as [Ec|Ec].
      + rewrite (sweep_by_count w f Hr Ec) in Hin.
        destruct (_ && _); [|destruct Hin].
        apply in_map_iff in Hin. destruct Hin as (l & Hl & Hs).
        assert (Hl' : In l (sort_Sort w (map as_logfile (candidates w f)))).
        { rewrite <- (firstn_skipn (Z.to_nat (sweepFileCount f))).
          apply in_or_app. now right. }
        apply (Permutation_in _ (Hperm _)) in Hl'.
        apply in_map_iff in Hl'. destruct Hl' as (x & Hx & Hc).
        apply in_map_iff. exists x. split; [|exact Hc].
        rewrite <- Hl, <- Hx. reflexivity.
      + exfalso. revert Hin. unfold sweep.
        rewrite (sweep_walk w f (now w) ([], []) Hr).
        assert (Hfold : forall cs st,
                   fold_left (sweep_visit w f (now w)) cs st = st).
        { induction cs as [|c cs IH]; intros st; [reflexivity|].
          cbn [fold_left]. rewrite <- (IH st) at 2. f_equal.
          unfold sweep_visit. destruct (candidate w f c); [|reflexivity].
          apply String.eqb_neq in Ea, Ec. now rewrite Ea, Ec. }
        rewrite Hfold. cbn [fst snd List.length app].
        destruct ((Z.of_nat 0 >? sweepFileCount f)
                  && (sweepFileCount f >? 0)) eqn:E; [|intros []].
        apply andb_true_iff in E. destruct E as [E1 E2].
        apply Z.gtb_lt in E1, E2. cbn in E1. lia. }
  apply in_map_iff in Hin'. destruct Hin' as (x & Hx & Hc).
  destruct (candidates_of_spec w f _ x Hc) as (c & H0 & H1 & H2 & H3 & H4).
  exists c, (snd x). subst p. rewrite <- H1. auto.
Qed.

Lemma sweep_removes_only_candidates_witness :
  exists c fi,
    In c (listing (tgz_world five_dir (30 * Day))) /\
    "logs/a.tgz" =
      child_path (tgz_world five_dir (30 * Day))
        (sweeping_file SweepByFileCount (7 * Day) 2) c /\
    de_IsDir (node_entry c) = false /\
    sweep_matches (tgz_world five_dir (30 * Day))
      (sweeping_file SweepByFileCount (7 * Day) 2) "logs/a.tgz" = true /\
    de_Info (node_entry c) = inl fi.
Proof.
  apply (sweep_removes_only_candidates (tgz_world five_dir (30 * Day))
           (sweeping_file SweepByFileCount (7 * Day) 2) "logs/a.tgz").
  - apply readable_sample; [|reflexivity].
    repeat constructor; discriminate.
  - intros l. apply insertionSort_contract.
  - vm_compute. left. reflexivity.
Defined.

(** The policies are compared as strings and never validated: a sink
    whose rotate policy is neither of the two known names never rotates at
    a tick, and a sink whose sweep policy is neither of the two known
    names never removes a file. *)
Theorem unknown_policy_disables (w : World) (f : file) :
  (rotatePolicy f <> RotateBySize ->
   rotatePolicy f <> RotateByDuration ->
   forall elapse,
     run_iteration w f elapse CaseTick
     = Continue f (wrap64 (elapse + Minute)) []) /\
  (sweepPolicy f <> SweepByInterval ->
   sweepPolicy f <> SweepByFileCount ->
   sweep w f = []).
Proof.
  split.
  - intros H1 H2 elapse. unfold run_iteration.
    destruct (rotation_due f (wrap64 (elapse + Minute))) eqn:E;
      [|reflexivity].
    apply rotation_due_iff in E. destruct E as [[E _]|[E _]]; contradiction.
  - intros H1 H2. apply String.eqb_neq in H1, H2.
    assert (Hfn : forall st name d err,
               st = ([], []) ->
               fst (sweep_fn w f (now w) st name d err) = ([], [])).
    { intros st name d err ->. unfold sweep_fn.
      destruct err; [reflexivity|].
      destruct (name =? path f)%string; [reflexivity|].
      destruct d as [d|]; [|reflexivity].
      destruct (de_IsDir d); [reflexivity|].
      destruct (sweep_matches w f name); [|reflexivity].
      destruct (de_Info d); [|reflexivity].
      now rewrite H1, H2. }
    apply sweep_of_empty_walk. unfold WalkDir.
    destruct (root w) as [t|e].
    + pose proof (walkDir_invariant w (sweep_fn w f (now w))
                    (fun st => st = ([], [])) Hfn t (path f) ([], [])
                    eq_refl) as Hinv.
      destruct (walkDir w (sweep_fn w f (now w)) (path f) t ([], []))
        as [st [[|e|]|]]; exact Hinv.
    + reflexivity.
Qed.

(** When [os.ReadDir] fails on the sink's directory, the sweep removes
    nothing, whatever entries were listed before the failure. *)
Theorem sweep_gives_up_on_read_error (w : World) (f : file)
  (d : DirEntry) (cs : list node) (re : string) :
  root w = inl (Node d cs (Some re)) ->
  de_IsDir d = true ->
  sweep w f = [].
Proof.
  intros Hroot Hd. apply sweep_of_empty_walk. unfold WalkDir.
  rewrite Hroot, walkDir_unfold.
  unfold sweep_fn at 1. rewrite String.eqb_refl, Hd. cbn [negb].
  unfold sweep_fn at 1. unfold after_callback. rewrite Hd. reflexivity.
Qed.

Lemma sweep_gives_up_on_read_error_witness :
  sweep (tgz_world (Node (sample_dirent "logs")
                      [regular "glog-old.tgz" 100 (22 * Day)]
                      (Some "input/output error")) (30 * Day))
    (sweeping_file SweepByFileCount (7 * Day) 1) = [].
Proof.
  apply (sweep_gives_up_on_read_error _ _ (sample_dirent "logs")
           [regular "glog-old.tgz" 100 (22 * Day)] "input/output error");
    reflexivity.
Defined.
(** ** Names: patterns, suffixes and archives *)

Lemma substring_append_skip (a b : string) (n m : nat) :
  substring (String.length a + n) m (a +++ b) = substring n m b.
Proof.
  induction a as [|ch a IH]; [reflexivity|]. cbn. exact IH.
Qed.

Lemma substring_all (s : string) : substring 0 (String.length s) s = s.
Proof.
  induction s as [|ch s IH]; [reflexivity|]. cbn. now rewrite IH.
Qed.

Lemma substring_prefix (a b : string) :
  substring 0 (String.length a) (a +++ b) = a.
Proof.
  induction a as [|ch a IH]; cbn.
  - destruct b; reflexivity.
  - now rewrite IH.
Qed.

Lemma substring_split (s : string) :
  forall k, (k <= String.length s)%nat ->
    s = substring 0 k s +++ substring k (String.length s - k) s.
Proof.
  induction s as [|ch s IH]; intros k Hk.
  - cbn in Hk. assert (k = 0%nat) by lia. subst. reflexivity.
  - destruct k as [|k].
    + cbn. now rewrite substring_all.
    + cbn in *. rewrite <- IH by lia. reflexivity.
Qed.

Lemma HasSuffix_append_same (a t : string) : HasSuffix (a +++ t) t = true.
Proof.
  unfold HasSuffix. rewrite length_append.
  apply andb_true_iff. split; [apply Nat.leb_le; lia|].
  replace (String.length a + String.length t - String.length t)%nat
    with (String.length a + 0)%nat by lia.
  rewrite substring_append_skip, substring_all. apply String.eqb_refl.
Qed.

Lemma HasSuffix_elim (s t : string) :
  HasSuffix s t = true ->
  s = substring 0 (String.length s - String.length t) s +++ t.
Proof.
  unfold HasSuffix. intros H. apply andb_true_iff in H.
  destruct H as [Hl He]. apply Nat.leb_le in Hl. apply String.eqb_eq in He.
  rewrite (substring_split s (String.length s - String.length t)) at 1
    by lia.
  replace (String.length s - (String.length s - String.length t))%nat
    with (String.length t) by lia.
  now rewrite He.
Qed.

Lemma HasSuffix_append (a b t : string) :
  HasSuffix b t = true -> HasSuffix (a +++ b) t = true.
Proof.
  intros H. rewrite (HasSuffix_elim b t H), <- append_assoc.
  apply HasSuffix_append_same.
Qed.

Lemma LastIndexByte_absent (c : ascii) (s : string) :
  has_byte c s = false ->
  forall i acc, LastIndexByte_from s c i acc = acc.
Proof.
  induction s as [|a s IH]; intros H i acc; [reflexivity|].
  cbn in *. apply orb_false_iff in H. destruct H as [Ha Hs].
  rewrite Ha. now apply IH.
Qed.

Lemma LastIndexByte_last (c : ascii) (a b : string) :
  has_byte c b = false ->
  forall i acc,
    LastIndexByte_from (a +++ String c b) c i acc = i + len a.
Proof.
  intros Hb. induction a as [|x a IH]; intros i acc.
  - cbn [append LastIndexByte_from]. rewrite Ascii.eqb_refl.
    rewrite (LastIndexByte_absent c b Hb). unfold len. cbn. lia.
  - cbn [append LastIndexByte_from]. rewrite IH.
    unfold len. cbn [String.length]. lia.
Qed.

(** [Path] cuts a pattern at its last star: what precedes it is the
    prefix, what follows it is the suffix, completed with ".log" unless it
    ends so already; a pattern without a star is all prefix.  The suffix
    always ends in ".log". *)
Theorem Path_split_at_last_star (a b : string) :
  has_byte "*"%char b = false ->
  Path_split (a +++ String "*"%char b)
    = (a, if HasSuffix b ".log" then b else b +++ ".log") /\
  Path_split b = (b, ".log") /\
  HasSuffix (snd (Path_split (a +++ String "*"%char b))) ".log" = true.
Proof.
  intros Hb.
  assert (H1 : Path_split (a +++ String "*"%char b)
               = (a, if HasSuffix b ".log" then b else b +++ ".log")).
  { unfold Path_split, LastIndexByte.
    rewrite (LastIndexByte_last "*"%char a b Hb). cbn [Z.add].
    assert (E : (len a >=? 0) = true) by (apply Z.geb_le, len_nonneg).
    rewrite E. unfold len. rewrite Nat2Z.id.
    rewrite substring_prefix.
    replace (Z.to_nat (Z.of_nat (String.length a) + 1))
      with (String.length a + 1)%nat by lia.
    rewrite length_append. cbn [String.length].
    replace (String.length a + S (String.length b)
             - (String.length a + 1))%nat
      with (String.length b) by lia.
    rewrite substring_append_skip. cbn [substring].
    rewrite substring_all.
    destruct (HasSuffix b ".log"); reflexivity. }
  split; [exact H1|]. split.
  - unfold Path_split, LastIndexByte.
    rewrite (LastIndexByte_absent "*"%char b Hb). reflexivity.
  - rewrite H1. cbn [snd].
    destruct (HasSuffix b ".log") eqn:E; [exact E|].
    apply HasSuffix_append_same.
Qed.

Lemma Path_split_at_last_star_witness :
  Path_split ("a*b-" +++ String "*"%char "-x")
  = ("a*b-", if HasSuffix "-x" ".log" then "-x" else "-x" +++ ".log").
Proof.
  apply (Path_split_at_last_star "a*b-" "-x").
  reflexivity.
Defined.

Lemma Path_split_suffix (p : string) :
  HasSuffix (snd (Path_split p)) ".log" = true.
Proof.
  unfold Path_split.
  destruct (if LastIndexByte p "*"%char >=? 0 then _ else _)
    as [prefix suffix].
  destruct (HasSuffix suffix ".log") eqn:E; cbn [snd]; [exact E|].
  apply HasSuffix_append_same.
Qed.

(** Whatever the pattern given to [Path], a name the naming policy
    returns is the pattern's prefix, a decimal number and the pattern's
    suffix, and it ends in ".log": the archiver will take it at a later
    rotation. *)
Theorem pattern_names_end_in_log (w : World) (f : file) (p : string) :
  format f = Path_format p ->
  fst (run_format w f) <> "" ->
  HasSuffix (fst (run_format w f)) ".log" = true /\
  exists i,
    (i < 100)%nat /\
    fst (run_format w f)
      = fst (Path_split p) +++ itoa (rand_Int31 w i) +++ snd (Path_split p).
Proof.
  intros Hf Hne. unfold run_format, Path_format in *.
  pose proof (Path_split_suffix p) as Hs.
  destruct (Path_split p) as [prefix suffix]. cbn [fst snd] in *.
  rewrite Hf in *.
  destruct (format_loop_spec w (path f) prefix suffix 100 0)
    as (_ & _ & Hfound & _).
  destruct (Hfound Hne) as (i & Hi & Hname & _).
  split.
  - rewrite Hname. unfold attempt. now apply HasSuffix_append, HasSuffix_append.
  - exists i. split; [lia | exact Hname].
Qed.

Lemma pattern_names_end_in_log_witness :
  HasSuffix (fst (run_format (quiet_world empty_dir 0)
                    (pattern_file "test-*"))) ".log" = true.
Proof.
  apply (pattern_names_end_in_log (quiet_world empty_dir 0)
           (pattern_file "test-*") "test-*").
  - reflexivity.
  - discriminate.
Defined.

(** The archive of a log is created under the log's own path with the
    extension ".log" replaced by ".tgz". *)
Theorem archive_path_replaces_extension (w : World) (f : file)
  (stem : string) (d : DirEntry) (info : FileInfo) :
  de_IsDir d = false ->
  de_Name d <> filename f ->
  de_Info d = inl info ->
  exists rest,
    fst (compress_entry w f (stem +++ ".log") d)
    = EvInfo (stem +++ ".log") :: EvCreate (stem +++ ".tgz") :: rest.
Proof.
  intros Hd Hn Hi. unfold compress_entry.
  rewrite Hd. cbn [orb].
  assert (En : (filename f =? de_Name d)%string = false)
    by (apply String.eqb_neq; congruence).
  rewrite En, HasSuffix_append_same, Hi.
  rewrite length_append. cbn [String.length].
  replace (String.length stem + 4 - 4)%nat with (String.length stem) by lia.
  rewrite substring_prefix.
  destruct (os_Create w _); [|now eexists].
  destruct (os_Open w _); [|now eexists].
  destruct (tar_FileInfoHeader w info); [|now eexists].
  destruct (tar_WriteHeader w _); [now eexists|].
  destruct (io_Copy w _); now eexists.
Qed.

Lemma archive_path_replaces_extension_witness :
  exists rest,
    fst (compress_entry (quiet_world one_log_dir 0)
           (sweeping_file SweepByFileCount (7 * Day) 5)
           ("logs/a" +++ ".log")
           (node_entry (regular "a.log" 10 (1 * Day))))
    = EvInfo ("logs/a" +++ ".log") :: EvCreate ("logs/a" +++ ".tgz") :: rest.
Proof.
  apply (archive_path_replaces_extension (quiet_world one_log_dir 0)
           (sweeping_file SweepByFileCount (7 * Day) 5) "logs/a"
           (node_entry (regular "a.log" 10 (1 * Day)))
           (mkFileInfo "a.log" 10 (1 * Day))).
  - reflexivity.
  - discriminate.
  - reflexivity.
Defined.
(** ** Levels *)

(** The eight named levels have eight different names and eight different
    tags; any other value of the type is "Unknown" and "[U]"; and a tag is
    always the initial of the name between brackets. *)
Theorem Level_names_and_tags (a b : Z) :
  (0 <= a < 8 -> 0 <= b < 8 ->
   (Level_String_code a = Level_String_code b -> a = b) /\
   (Level_Tag_code a = Level_Tag_code b -> a = b)) /\
  (8 <= a < 256 ->
   Level_String_code a = "Unknown" /\ Level_Tag_code a = "[U]") /\
  (0 <= a < 256 ->
   Level_Tag_code a
   = "[" +++ substring 0 1 (Level_String_code a) +++ "]").
Proof.
  split; [|split].
  - intros Ha Hb.
    assert (Ea : a = 0 \/ a = 1 \/ a = 2 \/ a = 3 \/ a = 4 \/ a = 5 \/
                 a = 6 \/ a = 7) by lia.
    assert (Eb : b = 0 \/ b = 1 \/ b = 2 \/ b = 3 \/ b = 4 \/ b = 5 \/
                 b = 6 \/ b = 7) by lia.
    destruct Ea as [->|[->|[->|[->|[->|[->|[->| ->]]]]]]];
      destruct Eb as [->|[->|[->|[->|[->|[->|[->| ->]]]]]]];
      split; intros H; try reflexivity; discriminate H.
  - intros Ha. unfold Level_String_code, Level_Tag_code.
    repeat match goal with
           | |- context [?x =? ?y] =>
               destruct (Z.eqb_spec x y); [lia|]
           end.
    split; reflexivity.
  - intros Ha.
    destruct (Z_lt_le_dec a 8) as [Hlt|Hge].
    + assert (Ea : a = 0 \/ a = 1 \/ a = 2 \/ a = 3 \/ a = 4 \/ a = 5 \/
                   a = 6 \/ a = 7) by lia.
      destruct Ea as [->|[->|[->|[->|[->|[->|[->| ->]]]]]]]; reflexivity.
    + unfold Level_String_code, Level_Tag_code.
      repeat match goal with
             | |- context [?x =? ?y] =>
                 destruct (Z.eqb_spec x y); [lia|]
             end.
      reflexivity.
Qed.

(** ** The console *)

(** [console.Write] panics exactly when the message is nil, or standard
    output is a terminal and the colour table has as many entries as the
    level's number: the guard admits an index one past the end. *)
Theorem console_Write_panics_iff (w : World) (h : Host) (c : console)
  (m : Message) :
  console_Write w h c None = None /\
  (console_Write w h c (Some m) = None <->
   isTerminal h = true /\
   Z.of_nat (List.length (c_colors c)) = Level_code (msg_Level m)).
Proof.
  split; [reflexivity|].
  unfold console_Write.
  assert (Hlvl : 0 <= Level_code (msg_Level m))
    by (destruct (msg_Level m); cbn; lia).
  assert (Hc : c_colors (fst (console_Format w c m)) = c_colors c)
    by (unfold console_Format; destruct (c_formatter c); reflexivity).
  destruct (console_Format w c m) as [c1 s]. cbn [fst] in Hc.
  destruct (Z.of_nat (List.length (c_colors c)) >=? Level_code (msg_Level m))
    eqn:Ege; destruct (isTerminal h) eqn:Et; cbn [andb].
  - apply Z.geb_le in Ege. rewrite Hc.
    destruct (nth_error (c_colors c) (Z.to_nat (Level_code (msg_Level m))))
      eqn:En.
    + split; [discriminate|]. intros [_ Heq].
      assert (Hlt : (Z.to_nat (Level_code (msg_Level m))
                     < List.length (c_colors c))%nat)
        by (apply nth_error_Some; congruence).
      lia.
    + split; [|reflexivity]. intros _. split; [reflexivity|].
      apply nth_error_None in En. lia.
  - split; [discriminate | intros [H _]; discriminate].
  - split; [discriminate|]. intros [_ Heq].
    destruct (Z.geb_spec (Z.of_nat (List.length (c_colors c)))
                (Level_code (msg_Level m))); [discriminate | lia].
  - split; [discriminate | intros [H _]; discriminate].
Qed.

Lemma prefix_append (a b : string) : prefix a (a +++ b) = true.
Proof.
  induction a as [|c a IH]; cbn.
  - now destruct b.
  - destruct (ascii_dec c c); [exact IH | contradiction].
Qed.

Lemma substring_suffix (a b : string) :
  substring (String.length a) (String.length (a +++ b) - String.length a)
    (a +++ b) = b.
Proof.
  rewrite length_append.
  replace (String.length a + String.length b - String.length a)%nat
    with (String.length b) by lia.
  rewrite <- (Nat.add_0_r (String.length a)) at 1.
  rewrite substring_append_skip. apply substring_all.
Qed.

Lemma has_byte_append (c : ascii) (a b : string) :
  has_byte c (a +++ b) = has_byte c a || has_byte c b.
Proof.
  induction a as [|x a IH]; cbn; [reflexivity|].
  now rewrite IH, orb_assoc.
Qed.

(** Replacing the first occurrence of [old], which starts with a byte that
    does not occur before it. *)
Lemma Replace1_after (c : ascii) (old' a r new : string) :
  has_byte c a = false ->
  Replace1 (a +++ String c old' +++ r) (String c old') new = a +++ new +++ r.
Proof.
  intros Ha. induction a as [|x a IH].
  - cbn [append]. 
    change (String c (old' +++ r)) with (String c old' +++ r).
    unfold Replace1. destruct (String c old' +++ r) eqn:E; [discriminate|].
    rewrite <- E. rewrite prefix_append.
    now rewrite substring_suffix.
  - cbn in Ha. apply orb_false_iff in Ha. destruct Ha as [Hx Ha].
    cbn [append Replace1 prefix].
    destruct (ascii_dec c x) as [->|Hne];
      [rewrite Ascii.eqb_refl in Hx; discriminate|].
    fold Replace1. f_equal. now apply IH.
Qed.

(** On a terminal, a console with the colours of [Colorful] and the text
    formatter prints the line with the level's colour put right before
    the level's tag, and ends it with the reset sequence and a newline;
    the console itself does not change. *)
Theorem colourful_console_colours_the_tag (w : World) (h : Host)
  (c : console) (m : Message) :
  c_formatter c = Some (text_of h) ->
  c_colors c = Colorful_colors ->
  isTerminal h = true ->
  has_byte "["%char (time_Format h (msg_Timestamp m)) = false ->
  exists colour tail,
    nth_error Colorful_colors (Z.to_nat (Level_code (msg_Level m)))
      = Some colour /\
    text_of h m
      = time_Format h (msg_Timestamp m) +++ " "
        +++ Level_Tag (msg_Level m) +++ tail /\
    console_Write w h c (Some m)
      = Some (c, time_Format h (msg_Timestamp m) +++ " " +++ colour
                 +++ Level_Tag (msg_Level m) +++ tail
                 +++ ESC +++ "[0m" +++ newline).
Proof.
  intros Hf Hc Ht Hts.
  set (ts := time_Format h (msg_Timestamp m)) in *.
  set (tail := (if negb (msg_Filename m =? "")%string
                   && negb (msg_Function m =? "")%string
                then " [" +++ msg_Filename m +++ ":" +++ itoa (msg_Line m)
                     +++ " - " +++ msg_Function m +++ "]"
                else "")
               +++ " " +++ msg_Message m
               +++ (if (0 <? Z.of_nat (List.length (msg_Fields m)))
                    then " (" +++ fields_text "" (msg_Fields m) +++ ")"
                    else "")).
  assert (Htext : text_of h m = ts +++ " " +++ Level_Tag (msg_Level m)
                                +++ tail).
  { reflexivity. }
  assert (Hcol : exists colour,
             nth_error Colorful_colors (Z.to_nat (Level_code (msg_Level m)))
             = Some colour)
    by (destruct (msg_Level m); cbn; eexists; reflexivity).
  destruct Hcol as [colour Hcol].
  exists colour, tail. split; [exact Hcol|]. split; [exact Htext|].
  unfold console_Write, console_Format. rewrite Hf, Hc, Ht.
  assert (Hge : (Z.of_nat (List.length Colorful_colors)
                 >=? Level_code (msg_Level m)) = true)
    by (destruct (msg_Level m); reflexivity).
  rewrite Hge. cbn [andb]. rewrite ?Hc, Hcol, Htext.
  assert (Htag : exists old', Level_Tag (msg_Level m) = String "["%char old')
    by (destruct (msg_Level m); cbn; eexists; reflexivity).
  destruct Htag as [old' Htag]. rewrite Htag.
  rewrite <- (append_assoc ts " ").
  rewrite (Replace1_after "["%char old' (ts +++ " ") tail
             (colour +++ String "["%char old')).
  - now rewrite !append_assoc.
  - rewrite has_byte_append, Hts. reflexivity.
Qed.

(** ** The syslog address *)





(** ** The text formatter *)

(** A buffer taken from the pool is always empty, because it was reset
    before it was put back: the text returned is the text of the message
    alone, whichever buffer the pool hands out, and the pool still holds
    only empty buffers afterwards. *)
Theorem TextFormatter_pool_is_clean (h : Host) (tf : TextFormatter_)
  (pick : option nat) (m : Message) :
  Forall (fun b => b = "") (bp tf) ->
  snd (TextFormatter_Format h tf pick m) = text_of h m /\
  Forall (fun b => b = "") (bp (fst (TextFormatter_Format h tf pick m))).
Proof.
  intros Hpool. unfold TextFormatter_Format.
  assert (Hacq : snd (acquire tf pick) = "" /\
                 Forall (fun b => b = "") (bp (fst (acquire tf pick)))).
  { unfold acquire. destruct pick as [i|]; [|auto].
    destruct (nth_error (bp tf) i) as [b|] eqn:En; [|auto].
    cbn [fst snd bp]. split.
    - apply nth_error_In in En. rewrite Forall_forall in Hpool. auto.
    - clear En. revert i. induction Hpool as [|x l Hx Hl IH]; intros i.
      + destruct i; constructor.
      + destruct i; cbn; [exact Hl | constructor; auto]. }
  destruct (acquire tf pick) as [tf1 b]. cbn [fst snd] in *.
  destruct Hacq as [-> Hclean]. cbn [append].
  split; [reflexivity|]. unfold recycle. cbn [bp]. now constructor.
Qed.

Lemma TextFormatter_pool_is_clean_witness :
  snd (TextFormatter_Format sample_host (mkTextFormatter [""; ""]) (Some 1%nat)
         (sample_message "hello"))
  = text_of sample_host (sample_message "hello").
Proof.
  apply (TextFormatter_pool_is_clean sample_host (mkTextFormatter [""; ""])
           (Some 1%nat) (sample_message "hello")).
  repeat constructor.
Defined.

Lemma uint_text_one_line (c : ascii) (d : Decimal.uint) :
  has_byte c "0123456789" = false ->
  has_byte c (DecimalString.NilEmpty.string_of_uint d) = false.
Proof.
  intros Hc. cbn in Hc.
  repeat (apply orb_false_iff in Hc; destruct Hc as [? Hc]).
  induction d; cbn; try rewrite IHd; auto;
    repeat (apply orb_false_iff; split); auto.
Qed.

Lemma itoa_one_line (c : ascii) (n : Z) :
  has_byte c "-0123456789" = false -> has_byte c (itoa n) = false.
Proof.
  intros Hc. cbn [has_byte] in Hc.
  apply orb_false_iff in Hc. destruct Hc as [Hm Hd].
  change (has_byte c "0123456789" = false) in Hd.
  unfold itoa, DecimalString.NilZero.string_of_int.
  assert (Hu : forall d,
             has_byte c (DecimalString.NilZero.string_of_uint d) = false).
  { intros d. unfold DecimalString.NilZero.string_of_uint.
    destruct d; try (now apply uint_text_one_line).
    cbn in *. repeat (apply orb_false_iff in Hd; destruct Hd as [? Hd]).
    apply orb_false_iff. auto. }
  destruct (Z.to_int n) as [d|d]; [apply Hu|].
  cbn [has_byte]. rewrite Hm. apply Hu.
Qed.

Lemma fields_text_one_line (c : ascii) (fs : list (string * string)) :
  has_byte c ", =" = false ->
  Forall (fun kv => has_byte c (fst kv) = false /\
                    has_byte c (snd kv) = false) fs ->
  forall sep, has_byte c sep = false ->
              has_byte c (fields_text sep fs) = false.
Proof.
  intros Hc Hfs. induction Hfs as [|[k v] fs [Hk Hv] Hfs IH]; intros sep Hsep.
  - reflexivity.
  - cbn [fields_text fst snd] in *.
    rewrite !has_byte_append, Hsep, Hk, Hv. cbn [orb].
    assert (He : has_byte c " = " = false).
    { cbn in *. repeat (apply orb_false_iff in Hc; destruct Hc as [? Hc]).
      repeat (apply orb_false_iff; split); auto. }
    rewrite He. cbn [orb]. apply IH.
    destruct (sep =? "")%string; [|exact Hsep].
    cbn in *. repeat (apply orb_false_iff in Hc; destruct Hc as [? Hc]).
    repeat (apply orb_false_iff; split); auto.
Qed.

(** The text of a message holds no newline unless the formatted time, the
    message text, the call site or a field holds one: a record of the log
    file (the text followed by the newline [write] adds) is one line. *)
Theorem text_of_is_one_line (h : Host) (m : Message) :
  has_byte "010"%char (time_Format h (msg_Timestamp m)) = false ->
  has_byte "010"%char (msg_Message m) = false ->
  has_byte "010"%char (msg_Filename m) = false ->
  has_byte "010"%char (msg_Function m) = false ->
  Forall (fun kv => has_byte "010"%char (fst kv) = false /\
                    has_byte "010"%char (snd kv) = false) (msg_Fields m) ->
  has_byte "010"%char (text_of h m) = false /\
  has_byte "010"%char newline = true.
Proof.
  intros Ht Hm Hfile Hfun Hfs. split; [|reflexivity].
  unfold text_of. rewrite !has_byte_append, Ht, Hm. cbn [orb].
  assert (Htag : has_byte "010"%char (Level_Tag (msg_Level m)) = false)
    by (destruct (msg_Level m); reflexivity).
  rewrite Htag.
  change (has_byte "010"%char " ") with false. cbn [orb].
  assert (Hcall :
    has_byte "010"%char
      (if negb (msg_Filename m =? "")%string
          && negb (msg_Function m =? "")%string
       then " [" +++ msg_Filename m +++ ":" +++ itoa (msg_Line m)
            +++ " - " +++ msg_Function m +++ "]"
       else "") = false).
  { destruct (negb (msg_Filename m =? "")%string
              && negb (msg_Function m =? "")%string); [|reflexivity].
    rewrite !has_byte_append, Hfile, Hfun.
    rewrite (itoa_one_line "010"%char (msg_Line m) eq_refl).
    reflexivity. }
  rewrite Hcall. cbn [orb].
  destruct (0 <? Z.of_nat (List.length (msg_Fields m))); [|reflexivity].
  rewrite !has_byte_append.
  rewrite (fields_text_one_line "010"%char (msg_Fields m) eq_refl Hfs ""
             eq_refl).
  reflexivity.
Qed.

Lemma text_of_is_one_line_witness :
  has_byte "010"%char (text_of sample_host (sample_message "hello")) = false.
Proof.
  apply (text_of_is_one_line sample_host (sample_message "hello"));
    try reflexivity.
  constructor.
Defined.

Lemma colourful_console_colours_the_tag_witness :
  exists colour tail,
    nth_error Colorful_colors
      (Z.to_nat (Level_code (msg_Level (sample_message "hello"))))
      = Some colour /\
    text_of sample_host (sample_message "hello")
      = time_Format sample_host (msg_Timestamp (sample_message "hello"))
        +++ " " +++ Level_Tag (msg_Level (sample_message "hello")) +++ tail /\
    console_Write (quiet_world empty_dir 0) sample_host
      (mkConsole LevelDebug Colorful_colors (Some (text_of sample_host)))
      (Some (sample_message "hello"))
      = Some (mkConsole LevelDebug Colorful_colors
                (Some (text_of sample_host)),
              time_Format sample_host
                (msg_Timestamp (sample_message "hello"))
              +++ " " +++ colour
              +++ Level_Tag (msg_Level (sample_message "hello")) +++ tail
              +++ ESC +++ "[0m" +++ newline).
Proof.
  apply (colourful_console_colours_the_tag (quiet_world empty_dir 0)
           sample_host
           (mkConsole LevelDebug Colorful_colors (Some (text_of sample_host)))
           (sample_message "hello"));
    reflexivity.
Defined.
(** ** The registry *)

(** [setMode] takes "debug", "dev" and "devel" for the debug mode and
    "release" for the release mode, and panics on anything else; the mode
    it leaves is one of the two, nothing else changes, and setting the
    mode it left again changes nothing. *)
Theorem setMode_accepts (ctx : context) (m : string) :
  (setMode ctx m <> None <->
   m = "debug" \/ m = "dev" \/ m = "devel" \/ m = "release") /\
  (forall ctx',
      setMode ctx m = Some ctx' ->
      (mode ctx' = ModeRelease <-> m = "release") /\
      (mode ctx' = ModeDebug <-> m <> "release") /\
      loggers ctx' = loggers ctx /\
      initialized ctx' = initialized ctx /\
      setMode ctx' (mode ctx') = Some ctx').
Proof.
  unfold setMode, ModeDebug, ModeRelease.
  destruct (String.eqb_spec m "debug") as [->|H1].
  { cbn. split; [split; [auto | discriminate]|].
    intros ctx' E. inversion E; subst; cbn.
    repeat split; try discriminate; auto. }
  destruct (String.eqb_spec m "dev") as [->|H2].
  { cbn. split; [split; [auto | discriminate]|].
    intros ctx' E. inversion E; subst; cbn.
    repeat split; try discriminate; auto. }
  destruct (String.eqb_spec m "devel") as [->|H3].
  { cbn. split; [split; [auto | discriminate]|].
    intros ctx' E. inversion E; subst; cbn.
    repeat split; try discriminate; auto. }
  cbn [orb].
  destruct (String.eqb_spec m "release") as [->|H4].
  { split; [split; [auto | discriminate]|].
    intros ctx' E. inversion E; subst; cbn.
    repeat split; try discriminate; auto.
    intros H; now elim H. }
  split.
  - split; [intros H; now elim H|].
    intros [H|[H|[H|H]]]; contradiction.
  - intros ctx' E. discriminate.
Qed.

Lemma heap_get_set (hp : heap) (a b : addr) (lg : Logger) :
  heap_get (heap_set hp a lg) b
  = if Nat.eqb b a then Some lg else heap_get hp b.
Proof. reflexivity. Qed.

Lemma heap_get_set_other (hp : heap) (a b : addr) (lg : Logger) :
  b <> a -> heap_get (heap_set hp a lg) b = heap_get hp b.
Proof.
  intros H. rewrite heap_get_set.
  destruct (Nat.eqb_spec b a); [contradiction | reflexivity].
Qed.

Lemma recipients_ext (md : string) (lvl : Level) (ls : list (string * addr))
  (hp1 hp2 : heap) :
  (forall a, In a (map snd ls) -> heap_get hp1 a = heap_get hp2 a) ->
  recipients md hp1 ls lvl = recipients md hp2 ls lvl.
Proof.
  induction ls as [|[k a] ls IH]; intros H; [reflexivity|].
  cbn [recipients]. rewrite (H a) by (now left).
  rewrite IH by (intros b Hb; apply H; now right).
  reflexivity.
Qed.

Lemma recipients_rule (md : string) (lvl : Level) (hp : heap)
  (ls : list (string * addr)) (a : addr) :
  In a (recipients md hp ls lvl) <->
  exists k lg,
    In (k, a) ls /\ heap_get hp a = Some lg /\
    (md = ModeDebug \/
     (Level_code lvl <= Level_code (Logger_Level lg) /\
      Level_code lvl < Level_code LevelDebug)).
Proof.
  assert (Hwant : forall lg,
             (md =? ModeDebug)%string || passes lg lvl = true <->
             md = ModeDebug \/
             (Level_code lvl <= Level_code (Logger_Level lg) /\
              Level_code lvl < Level_code LevelDebug)).
  { intros lg. unfold passes.
    rewrite orb_true_iff, andb_true_iff, String.eqb_eq, Z.geb_le, Z.ltb_lt.
    reflexivity. }
  induction ls as [|[k b] ls IH]; cbn [recipients].
  - split; [intros [] | intros (k & lg & [] & _)].
  - destruct (heap_get hp b) as [lg|] eqn:Eb.
    + destruct ((md =? ModeDebug)%string || passes lg lvl) eqn:Ew.
      * cbn [In]. rewrite IH. split.
        -- intros [<-|(k' & lg' & Hin & H)].
           ++ exists k, lg. split; [now left|]. split; [exact Eb|].
              now apply Hwant.
           ++ exists k', lg'. split; [now right | exact H].
        -- intros (k' & lg' & [Heq|Hin] & Hg & Hr).
           ++ inversion Heq; subst. now left.
           ++ right. now exists k', lg'.
      * rewrite IH. split.
        -- intros (k' & lg' & Hin & H). exists k', lg'.
           split; [now right | exact H].
        -- intros (k' & lg' & [Heq|Hin] & Hg & Hr).
           ++ inversion Heq; subst. rewrite Eb in Hg. inversion Hg; subst.
              apply Hwant in Hr. congruence.
           ++ now exists k', lg'.
    + rewrite IH. split.
      * intros (k' & lg' & Hin & H). exists k', lg'.
        split; [now right | exact H].
      * intros (k' & lg' & [Heq|Hin] & Hg & Hr).
        -- inversion Heq; subst. congruence.
        -- now exists k', lg'.
Qed.

Lemma deliver_reaches (w : World) (h : Host) (md : string) (msg : Message)
  (ls : list (string * addr)) :
  NoDup (map snd ls) ->
  forall hp reached out,
    (forall a, In a (map snd ls) -> heap_get hp a <> None) ->
    (forall a lg, In a (recipients md hp ls (msg_Level msg)) ->
                  heap_get hp a = Some lg ->
                  exists lg' o, Logger_Write w h lg msg = Wrote lg' o) ->
    exists hp' out',
      deliver w h md msg ls hp reached out
      = LogDone hp' (reached ++ recipients md hp ls (msg_Level msg)) out' /\
      (forall a, ~ In a (recipients md hp ls (msg_Level msg)) ->
                 heap_get hp' a = heap_get hp a).
Proof.
  induction ls as [|[k a] ls IH]; intros Hnd hp reached out Hin Hret.
  - exists hp, out. cbn. rewrite app_nil_r. auto.
  - cbn [map snd] in Hnd. inversion Hnd as [|x l Hna Hnd']; subst.
    cbn [deliver recipients] in *.
    destruct (heap_get hp a) as [lg|] eqn:Ea;
      [|exfalso; apply (Hin a); [now left | exact Ea]].
    destruct ((md =? ModeDebug)%string || passes lg (msg_Level msg)) eqn:Ew.
    + destruct (Hret a lg (or_introl eq_refl) Ea) as (lg' & o & Hw).
      rewrite Hw.
      assert (Hext : recipients md (heap_set hp a lg') ls (msg_Level msg)
                     = recipients md hp ls (msg_Level msg)).
      { apply recipients_ext. intros b Hb. apply heap_get_set_other.
        intros ->. contradiction. }
      destruct (IH Hnd' (heap_set hp a lg') (reached ++ [a]) (out ++ o))
        as (hp' & out' & Hd & Hframe).
      * intros b Hb. rewrite heap_get_set_other by (intros ->; contradiction).
        apply Hin. now right.
      * intros b lb Hb Hg. rewrite Hext in Hb.
        assert (Hba : b <> a).
        { intros ->. apply recipients_rule in Hb.
          destruct Hb as (k' & _ & Hk & _).
          apply Hna. apply in_map_iff. now exists (k', a). }
        rewrite heap_get_set_other in Hg by exact Hba.
        apply (Hret b lb); [now right | exact Hg].
      * exists hp', out'. rewrite Hd, Hext, <- app_assoc. split; [reflexivity|].
        intros b Hb. rewrite Hframe.
        -- apply heap_get_set_other. intros ->. apply Hb. now left.
        -- rewrite Hext. intros Hc. apply Hb. now right.
    + destruct (IH Hnd' hp reached out) as (hp' & out' & Hd & Hframe).
      * intros b Hb. apply Hin. now right.
      * intros b lb Hb Hg. now apply (Hret b lb).
      * exists hp', out'. split; [exact Hd | exact Hframe].
Qed.

Lemma some_passes_false (hp : heap) (ls : list (string * addr))
  (lvl : Level) (md : string) :
  md <> ModeDebug ->
  some_passes hp ls lvl = false ->
  recipients md hp ls lvl = [].
Proof.
  intros Hmd. apply String.eqb_neq in Hmd.
  induction ls as [|[k a] ls IH]; intros H; [reflexivity|].
  cbn [some_passes recipients] in *. rewrite Hmd. cbn [orb].
  destruct (heap_get hp a) as [lg|]; [|now apply IH].
  destruct (passes lg lvl); [discriminate | now apply IH].
Qed.

(** [log] writes a message that is not empty to the registered loggers
    the rule selects, once each, in the order of the registry, and to no
    other: in debug mode to every logger, whatever its level; otherwise to
    the loggers whose level is at least the message's, and only when the
    message's level is below [LevelDebug].  An empty message goes to no
    logger. *)
Theorem log_reaches_by_mode_and_level (w : World) (h : Host)
  (ctx : context) (hp : heap) (lvl : Level) (message : string)
  (fields : list (list (string * string))) :
  registry_ok ctx hp ->
  message <> "" ->
  (forall a lg,
      In a (recipients (mode ctx) hp (loggers ctx) lvl) ->
      heap_get hp a = Some lg ->
      exists lg' o,
        Logger_Write w h lg (log_message w h lvl message fields)
        = Wrote lg' o) ->
  (exists hp' out,
      log w h ctx hp lvl message fields
      = LogDone hp' (recipients (mode ctx) hp (loggers ctx) lvl) out) /\
  (forall a,
      In a (recipients (mode ctx) hp (loggers ctx) lvl) <->
      exists k lg,
        In (k, a) (loggers ctx) /\ heap_get hp a = Some lg /\
        (mode ctx = ModeDebug \/
         (Level_code lvl <= Level_code (Logger_Level lg) /\
          Level_code lvl < Level_code LevelDebug))) /\
  log w h ctx hp lvl "" fields = LogDone hp [] [].
Proof.
  intros (Hk & Ha & Hin) Hne Hret.
  split; [|split; [intros a; apply recipients_rule | reflexivity]].
  unfold log.
  assert (El : (String.length message =? 0)%nat = false).
  { apply Nat.eqb_neq. destruct message; [contradiction | discriminate]. }
  rewrite El.
  assert (Hlvl : msg_Level (log_message w h lvl message fields) = lvl).
  { unfold log_message. destruct lvl; try reflexivity.
    destruct (Caller h) as [[[? ?] ?]|]; reflexivity. }
  destruct ((mode ctx =? ModeRelease)%string
            && negb (some_passes hp (loggers ctx) lvl)) eqn:Eskip.
  - apply andb_true_iff in Eskip. destruct Eskip as [Em Es].
    apply String.eqb_eq in Em. apply negb_true_iff in Es.
    rewrite (some_passes_false hp (loggers ctx) lvl (mode ctx));
      [now exists hp, [] | rewrite Em; discriminate | exact Es].
  - destruct (deliver_reaches w h (mode ctx)
                (log_message w h lvl message fields) (loggers ctx) Ha
                hp [] []) as (hp' & out' & Hd & _).
    + intros a Hain. apply in_map_iff in Hain.
      destruct Hain as ([k b] & Heq & Hb). cbn in Heq. subst b.
      destruct (Hin k a Hb) as (lg & Hg & _). congruence.
    + rewrite Hlvl. exact Hret.
    + rewrite Hlvl in Hd. exists hp', out'. exact Hd.
Qed.

Lemma log_reaches_by_mode_and_level_witness :
  exists hp' out,
    log (quiet_world empty_dir 0) sample_host
      (mkContext "debug" 1 [("console", 0%nat)])
      [(0%nat, LConsole (NewConsoleLogger (quiet_world empty_dir 0)
                           LevelError [Colorful sample_host]))]
      LevelTrace "hello" []
    = LogDone hp' [0%nat] out.
Proof.
  apply (log_reaches_by_mode_and_level (quiet_world empty_dir 0) sample_host
           (mkContext "debug" 1 [("console", 0%nat)])
           [(0%nat, LConsole (NewConsoleLogger (quiet_world empty_dir 0)
                                LevelError [Colorful sample_host]))]
           LevelTrace "hello" []).
  - unfold registry_ok. cbn.
    split; [repeat constructor; intros []|].
    split; [repeat constructor; intros []|].
    intros k a [H|[]]. inversion H; subst.
    eexists. split; reflexivity.
  - discriminate.
  - intros a lg [<-|[]] Hg. cbn in Hg. inversion Hg; subst.
    cbn. eexists. eexists. reflexivity.
Defined.

(** In release mode a message at [LevelDebug] or [LevelTrace] reaches no
    logger, whatever the loggers' own levels. *)
Theorem release_mode_drops_debug_and_trace (w : World) (h : Host)
  (ctx : context) (hp : heap) (lvl : Level) (message : string)
  (fields : list (list (string * string))) :
  mode ctx = ModeRelease ->
  lvl = LevelDebug \/ lvl = LevelTrace ->
  log w h ctx hp lvl message fields = LogDone hp [] [].
Proof.
  intros Hm Hl. unfold log.
  destruct (String.length message =? 0)%nat; [reflexivity|].
  rewrite Hm. cbn [String.eqb andb].
  change ("release" =? ModeRelease)%string with true. cbn [andb].
  assert (Hs : some_passes hp (loggers ctx) lvl = false).
  { induction (loggers ctx) as [|[k a] ls IH]; [reflexivity|].
    cbn [some_passes]. destruct (heap_get hp a) as [lg|]; [|exact IH].
    assert (Hp : passes lg lvl = false).
    { unfold passes. destruct Hl as [-> | ->]; cbn;
        now rewrite andb_false_r. }
    now rewrite Hp. }
  now rewrite Hs.
Qed.

Lemma release_mode_drops_debug_and_trace_witness :
  log (quiet_world empty_dir 0) sample_host
    (mkContext "release" 1 [("console", 0%nat)])
    [(0%nat, LConsole (NewConsoleLogger (quiet_world empty_dir 0)
                         LevelTrace [Colorful sample_host]))]
    LevelDebug "hello" []
  = LogDone
      [(0%nat, LConsole (NewConsoleLogger (quiet_world empty_dir 0)
                           LevelTrace [Colorful sample_host]))] [] [].
Proof.
  apply (release_mode_drops_debug_and_trace (quiet_world empty_dir 0)
           sample_host (mkContext "release" 1 [("console", 0%nat)])).
  - reflexivity.
  - now left.
Defined.

Lemma map_get_In (m : list (string * addr)) (k : string) (a : addr) :
  map_get m k = Some a -> In (k, a) m.
Proof.
  induction m as [|[k' b] m IH]; cbn; [discriminate|].
  destruct (String.eqb_spec k' k) as [->|Hne].
  - intros E. inversion E; subst. now left.
  - intros E. right. now apply IH.
Qed.

Lemma map_get_set_same (m : list (string * addr)) (k : string) (a : addr) :
  map_get (map_set m k a) k = Some a.
Proof.
  induction m as [|[k' b] m IH]; cbn.
  - now rewrite String.eqb_refl.
  - destruct (String.eqb_spec k' k) as [->|Hne]; cbn.
    + now rewrite String.eqb_refl.
    + apply String.eqb_neq in Hne. now rewrite Hne.
Qed.

Lemma map_get_set_other (m : list (string * addr)) (k k' : string)
  (a : addr) :
  k' <> k -> map_get (map_set m k a) k' = map_get m k'.
Proof.
  intros Hne. induction m as [|[k0 b] m IH]; cbn.
  - apply not_eq_sym in Hne. apply String.eqb_neq in Hne. now rewrite Hne.
  - destruct (String.eqb_spec k0 k) as [->|H0]; cbn.
    + apply not_eq_sym in Hne. apply String.eqb_neq in Hne. now rewrite Hne.
    + destruct (k0 =? k')%string; [reflexivity | exact IH].
Qed.

Lemma map_set_keys (m : list (string * addr)) (k : string) (a : addr) :
  map fst (map_set m k a)
  = match map_get m k with
    | Some _ => map fst m
    | None => map fst m ++ [k]
    end.
Proof.
  induction m as [|[k' b] m IH]; cbn; [reflexivity|].
  destruct (String.eqb_spec k' k) as [->|Hne]; cbn; [reflexivity|].
  rewrite IH. now destruct (map_get m k).
Qed.

Lemma map_get_None_keys (m : list (string * addr)) (k : string) :
  map_get m k = None -> ~ In k (map fst m).
Proof.
  induction m as [|[k' b] m IH]; cbn; [tauto|].
  destruct (String.eqb_spec k' k) as [->|Hne]; [discriminate|].
  intros H [Heq|Hin]; [contradiction | now apply IH].
Qed.

Lemma map_set_NoDup (m : list (string * addr)) (k : string) (a : addr) :
  NoDup (map fst m) -> NoDup (map fst (map_set m k a)).
Proof.
  intros H. rewrite map_set_keys.
  destruct (map_get m k) eqn:E; [exact H|].
  apply NoDup_app; [exact H | repeat constructor; intros [] |].
  intros x Hx [<-|[]]. now apply (map_get_None_keys m k E).
Qed.

Lemma Write_closed_Logger (w : World) (h : Host) (f : file)
  (msg : Message) :
  closed f = 1 -> Logger_Write w h (LFile f) msg = Wrote (LFile f) [].
Proof.
  intros H. cbn. now rewrite Write_closed.
Qed.

(** Closing a logger the package left open or closed returns, and leaves
    it closed. *)
Lemma Logger_Close_returns (w : World) (h : Host) (lg : Logger) :
  Logger_wf lg ->
  exists lg',
    Logger_Close w h lg = Some lg' /\
    Logger_closed lg' /\ Logger_wf lg' /\
    Logger_Name lg' = Logger_Name lg.
Proof.
  destruct lg as [c|f|l]; cbn [Logger_wf Logger_Close].
  - intros _. exists (LConsole c). cbn. repeat split; auto.
  - intros [Ho|Hc].
    + destruct (Close_first w f Ho) as (f1 & Hcl & Hc1 & _).
      rewrite Hcl. exists (LFile f1). cbn. repeat split; auto.
    + rewrite Close_again by lia. exists (LFile f). cbn.
      repeat split; auto.
  - intros [(Hc & Hn & Hm)|Hc]; unfold syslog_Close, CompareAndSwapUint32,
      close_chan.
    + rewrite Hc, Hn, Hm. cbn.
      destruct (s_writer l); eexists; (split; [reflexivity|]); cbn;
        repeat split; auto.
    + rewrite Hc. cbn. exists (LSyslog l). cbn. repeat split; auto.
Qed.

(** A registry holds one logger per kind.  Registering a logger puts it
    under its kind's name; the logger that held the name, if any, is
    closed first (also when it is the very logger being registered);
    loggers of other names stay; registering nil changes nothing. *)
Theorem regist_replaces_same_kind (w : World) (h : Host) (ctx : context)
  (hp : heap) (a : addr) (lg : Logger) :
  registry_ok ctx hp ->
  heap_get hp a = Some lg ->
  (forall old l,
      map_get (loggers ctx) (Logger_Name lg) = Some old ->
      heap_get hp old = Some l -> Logger_wf l) ->
  exists ctx' hp',
    regist w h ctx hp (Some a) = Some (ctx', hp') /\
    map_get (loggers ctx') (Logger_Name lg) = Some a /\
    (forall k, k <> Logger_Name lg ->
               map_get (loggers ctx') k = map_get (loggers ctx) k) /\
    NoDup (map fst (loggers ctx')) /\
    (forall old,
        map_get (loggers ctx) (Logger_Name lg) = Some old ->
        exists l l',
          heap_get hp old = Some l /\
          Logger_Close w h l = Some l' /\
          heap_get hp' old = Some l' /\ Logger_closed l') /\
    (map_get (loggers ctx) (Logger_Name lg) = None -> hp' = hp) /\
    regist w h ctx hp None = Some (ctx, hp).
Proof.
  intros (Hk & Ha & Hin) Hg Hwf. unfold regist. rewrite Hg.
  destruct (map_get (loggers ctx) (Logger_Name lg)) as [old|] eqn:Eold.
  - destruct (Hin _ _ (map_get_In _ _ _ Eold)) as (l & Hl & _).
    rewrite Hl.
    destruct (Logger_Close_returns w h l (Hwf old l eq_refl Hl))
      as (l' & Hcl & Hclosed & _).
    rewrite Hcl. eexists. eexists. split; [reflexivity|]. cbn [loggers].
    split; [apply map_get_set_same|].
    split; [intros k Hne; now apply map_get_set_other|].
    split; [now apply map_set_NoDup|].
    split; [|split; [discriminate | reflexivity]].
    intros old' E. inversion E; subst old'.
    exists l, l'. repeat split; auto.
    rewrite heap_get_set. now rewrite Nat.eqb_refl.
  - eexists. eexists. split; [reflexivity|]. cbn [loggers].
    split; [apply map_get_set_same|].
    split; [intros k Hne; now apply map_get_set_other|].
    split; [now apply map_set_NoDup|].
    split; [intros old E; discriminate|].
    split; reflexivity.
Qed.

Lemma regist_replaces_same_kind_witness :
  exists ctx' hp',
    regist (quiet_world empty_dir 0) sample_host
      (mkContext "debug" 1 [("file", 0%nat)])
      [(0%nat, LFile (sample_file "a.log" "")); 
       (1%nat, LFile (sample_file "b.log" ""))]
      (Some 1%nat) = Some (ctx', hp') /\
    map_get (loggers ctx') (Logger_Name (LFile (sample_file "b.log" "")))
      = Some 1%nat.
Proof.
  destruct (regist_replaces_same_kind (quiet_world empty_dir 0) sample_host
              (mkContext "debug" 1 [("file", 0%nat)])
              [(0%nat, LFile (sample_file "a.log" ""));
               (1%nat, LFile (sample_file "b.log" ""))]
              1%nat (LFile (sample_file "b.log" "")))
    as (ctx' & hp' & H1 & H2 & _).
  - unfold registry_ok. cbn.
    split; [repeat constructor; intros []|].
    split; [repeat constructor; intros []|].
    intros k a [H|[]]. inversion H; subst.
    eexists. split; reflexivity.
  - reflexivity.
  - intros old l E Hl. cbn in E. inversion E; subst old.
    cbn in Hl. inversion Hl; subst l. left.
    unfold open_sink. cbn. repeat split; reflexivity.
  - exists ctx', hp'. split; assumption.
Defined.

(** Registering the same file logger a second time closes it and leaves
    it registered: from then on every message written to it is dropped. *)
Theorem regist_same_file_twice (w : World) (h : Host) (ctx : context)
  (hp : heap) (a : addr) (f : file) :
  open_sink f ->
  heap_get hp a = Some (LFile f) ->
  map_get (loggers ctx) File = None ->
  exists ctx1 ctx2 hp2 f',
    regist w h ctx hp (Some a) = Some (ctx1, hp) /\
    regist w h ctx1 hp (Some a) = Some (ctx2, hp2) /\
    map_get (loggers ctx2) File = Some a /\
    heap_get hp2 a = Some (LFile f') /\
    closed f' = 1 /\
    forall msg, Logger_Write w h (LFile f') msg = Wrote (LFile f') [].
Proof.
  intros Ho Hg Hnone.
  destruct (Close_first w f Ho) as (f1 & Hcl & Hc1 & _).
  exists (mkContext (mode ctx) (initialized ctx)
            (map_set (loggers ctx) File a)).
  exists (mkContext (mode ctx) (initialized ctx)
            (map_set (map_set (loggers ctx) File a) File a)).
  exists (heap_set hp a (LFile f1)), f1.
  split; [unfold regist; rewrite Hg; cbn [Logger_Name]; now rewrite Hnone|].
  split.
  { unfold regist. rewrite Hg. cbn [Logger_Name loggers].
    rewrite map_get_set_same, Hg. cbn [Logger_Close]. now rewrite Hcl. }
  cbn [loggers]. split; [apply map_get_set_same|].
  split; [rewrite heap_get_set; now rewrite Nat.eqb_refl|].
  split; [exact Hc1|].
  intros msg. now apply Write_closed_Logger.
Qed.

Lemma regist_same_file_twice_witness :
  exists ctx1 ctx2 hp2 f',
    regist (quiet_world empty_dir 0) sample_host (mkContext "debug" 1 [])
      [(0%nat, LFile (sample_file "a.log" ""))] (Some 0%nat)
    = Some (ctx1, [(0%nat, LFile (sample_file "a.log" ""))]) /\
    regist (quiet_world empty_dir 0) sample_host ctx1
      [(0%nat, LFile (sample_file "a.log" ""))] (Some 0%nat)
    = Some (ctx2, hp2) /\
    map_get (loggers ctx2) File = Some 0%nat /\
    heap_get hp2 0%nat = Some (LFile f') /\
    closed f' = 1 /\
    forall msg,
      Logger_Write (quiet_world empty_dir 0) sample_host (LFile f') msg
      = Wrote (LFile f') [].
Proof.
  apply (regist_same_file_twice (quiet_world empty_dir 0) sample_host
           (mkContext "debug" 1 [])
           [(0%nat, LFile (sample_file "a.log" ""))] 0%nat
           (sample_file "a.log" "")).
  - unfold open_sink. cbn. repeat split; reflexivity.
  - reflexivity.
  - reflexivity.
Defined.

Lemma close_each_closes (w : World) (h : Host) (ls : list (string * addr)) :
  NoDup (map snd ls) ->
  forall hp,
    (forall a, In a (map snd ls) ->
               exists lg, heap_get hp a = Some lg /\ Logger_wf lg) ->
    exists hp',
      close_each w h ls hp = Some hp' /\
      (forall a, In a (map snd ls) ->
                 exists lg', heap_get hp' a = Some lg' /\ Logger_closed lg') /\
      (forall a, ~ In a (map snd ls) -> heap_get hp' a = heap_get hp a).
Proof.
  induction ls as [|[k a] ls IH]; intros Hnd hp Hall.
  - exists hp. cbn. split; [reflexivity|]. split; [intros a [] | auto].
  - cbn [map snd] in *. inversion Hnd as [|x l Hna Hnd']; subst.
    destruct (Hall a (or_introl eq_refl)) as (lg & Hg & Hwf).
    destruct (Logger_Close_returns w h lg Hwf) as (lg' & Hcl & Hclosed & _).
    cbn [close_each]. rewrite Hg, Hcl.
    destruct (IH Hnd' (heap_set hp a lg')) as (hp' & Hce & Hc & Hframe).
    { intros b Hb. rewrite heap_get_set_other by (intros ->; contradiction).
      apply Hall. now right. }
    exists hp'. split; [exact Hce|]. split.
    + intros b [<-|Hb]; [|now apply Hc].
      exists lg'. split; [|exact Hclosed].
      rewrite (Hframe a Hna), heap_get_set. now rewrite Nat.eqb_refl.
    + intros b Hb. rewrite Hframe by (intros Hc'; apply Hb; now right).
      apply heap_get_set_other. intros ->. apply Hb. now left.
Qed.

(** [close] closes every registered logger, empties the registry and
    clears the flag; after it no message reaches any logger. *)
Theorem context_close_closes_all (w : World) (h : Host) (ctx : context)
  (hp : heap) :
  registry_ok ctx hp ->
  (forall k a lg, In (k, a) (loggers ctx) -> heap_get hp a = Some lg ->
                  Logger_wf lg) ->
  exists ctx' hp',
    context_close w h ctx hp = Some (ctx', hp') /\
    loggers ctx' = [] /\
    initialized ctx' = 0 /\
    mode ctx' = mode ctx /\
    (forall k a, In (k, a) (loggers ctx) ->
                 exists lg', heap_get hp' a = Some lg' /\ Logger_closed lg') /\
    (forall w' h' lvl message fields,
        log w' h' ctx' hp' lvl message fields = LogDone hp' [] []).
Proof.
  intros (Hk & Ha & Hin) Hwf.
  destruct (close_each_closes w h (loggers ctx) Ha hp)
    as (hp' & Hce & Hc & _).
  { intros a Hain. apply in_map_iff in Hain.
    destruct Hain as ([k b] & Heq & Hb). cbn in Heq. subst b.
    destruct (Hin k a Hb) as (lg & Hg & _).
    exists lg. split; [exact Hg | exact (Hwf k a lg Hb Hg)]. }
  unfold context_close. rewrite Hce.
  eexists. exists hp'. split; [reflexivity|]. cbn [loggers initialized mode].
  repeat split.
  - intros k a Hb. apply Hc. apply in_map_iff. now exists (k, a).
  - intros w' h' lvl message fields. unfold log. cbn [loggers mode].
    destruct (String.length message =? 0)%nat; [reflexivity|].
    destruct ((mode ctx =? ModeRelease)%string && _); reflexivity.
Qed.

Lemma context_close_closes_all_witness :
  exists ctx' hp',
    context_close (quiet_world empty_dir 0) sample_host
      (mkContext "debug" 1 [("console", 0%nat); ("file", 1%nat)])
      [(0%nat, LConsole (NewConsoleLogger (quiet_world empty_dir 0)
                           LevelDebug [Colorful sample_host]));
       (1%nat, LFile (sample_file "a.log" "tail"))]
    = Some (ctx', hp') /\
    loggers ctx' = [] /\
    initialized ctx' = 0.
Proof.
  destruct (context_close_closes_all (quiet_world empty_dir 0) sample_host
              (mkContext "debug" 1 [("console", 0%nat); ("file", 1%nat)])
              [(0%nat, LConsole (NewConsoleLogger (quiet_world empty_dir 0)
                                   LevelDebug [Colorful sample_host]));
               (1%nat, LFile (sample_file "a.log" "tail"))])
    as (ctx' & hp' & H1 & H2 & H3 & _).
  - unfold registry_ok. cbn.
    split; [repeat constructor; cbn; intuition discriminate|].
    split; [repeat constructor; cbn; intuition discriminate|].
    intros k a [H|[H|[]]]; inversion H; subst;
      eexists; split; reflexivity.
  - intros k a lg [H|[H|[]]] Hg; inversion H; subst;
      cbn in Hg; inversion Hg; subst; cbn; auto.
    left. unfold open_sink. cbn. repeat split; reflexivity.
  - exists ctx', hp'. repeat split; assumption.
Defined.
(** The context the package starts with holds one console, at
    [LevelDebug], in debug mode: a message that is not empty, at any
    level, is printed by it, except that on Windows, where [Colorful]
    installs no colours, a message at [LevelPanic] written to a terminal
    makes [Write] panic. *)
Theorem default_context_prints_every_level (w : World) (h : Host)
  (lvl : Level) (message : string) (fields : list (list (string * string))) :
  message <> "" ->
  exists ctx hp,
    init_context w h = Some (ctx, hp) /\
    mode ctx = ModeDebug /\
    loggers ctx = [(Console, 0%nat)] /\
    (windows h = true /\ isTerminal h = true /\ lvl = LevelPanic ->
     log w h ctx hp lvl message fields = LogPanic) /\
    (~ (windows h = true /\ isTerminal h = true /\ lvl = LevelPanic) ->
     exists hp' line,
       log w h ctx hp lvl message fields = LogDone hp' [0%nat] [line]).
Proof.
  intros Hne.
  exists (mkContext "debug" 1 [(Console, 0%nat)]).
  exists [(0%nat, LConsole (NewConsoleLogger w LevelDebug [Colorful h]))].
  split; [reflexivity|]. split; [reflexivity|]. split; [reflexivity|].
  assert (El : (String.length message =? 0)%nat = false).
  { apply Nat.eqb_neq. destruct message; [contradiction | discriminate]. }
  assert (Hlvl : msg_Level (log_message w h lvl message fields) = lvl).
  { unfold log_message. destruct lvl; try reflexivity.
    destruct (Caller h) as [[[? ?] ?]|]; reflexivity. }
  set (c := NewConsoleLogger w LevelDebug [Colorful h]).
  set (m := log_message w h lvl message fields) in *.
  assert (Hlog : log w h (mkContext "debug" 1 [(Console, 0%nat)])
                   [(0%nat, LConsole c)] lvl message fields
                 = match console_Write w h c (Some m) with
                   | Some (c', s) =>
                       LogDone (heap_set [(0%nat, LConsole c)] 0%nat
                                  (LConsole c')) [0%nat] [s]
                   | None => LogPanic
                   end).
  { unfold log. rewrite El. cbn [mode loggers String.eqb andb].
    change (("debug" =? ModeRelease)%string) with false. cbn [andb].
    fold m. cbn [deliver heap_get Nat.eqb].
    change (("debug" =? ModeDebug)%string) with true. cbn [orb].
    cbn [Logger_Write].
    destruct (console_Write w h c (Some m)) as [[c' s]|]; reflexivity. }
  destruct (console_Write_panics_iff w h c m) as [_ Hiff].
  assert (Hcols : Z.of_nat (List.length (c_colors c))
                  = if windows h then 0 else 8).
  { subst c. unfold NewConsoleLogger, Colorful. cbn.
    destruct (windows h); reflexivity. }
  split.
  - intros (Hw & Ht & Hp). rewrite Hlog.
    assert (E : console_Write w h c (Some m) = None).
    { apply Hiff. split; [exact Ht|]. rewrite Hcols, Hw, Hlvl, Hp.
      reflexivity. }
    now rewrite E.
  - intros Hnot. rewrite Hlog.
    destruct (console_Write w h c (Some m)) as [[c' s]|] eqn:E.
    + eexists. exists s. reflexivity.
    + exfalso. destruct (proj1 Hiff eq_refl) as [Ht Hc].
      rewrite Hcols, Hlvl in Hc. apply Hnot.
      destruct (windows h); [|destruct lvl; discriminate].
      split; [reflexivity|]. split; [exact Ht|].
      destruct lvl; try discriminate. reflexivity.
Qed.

Lemma default_context_prints_every_level_witness :
  exists ctx hp,
    init_context (quiet_world empty_dir 0) sample_host = Some (ctx, hp) /\
    mode ctx = ModeDebug /\
    loggers ctx = [(Console, 0%nat)].
Proof.
  destruct (default_context_prints_every_level (quiet_world empty_dir 0)
              sample_host LevelTrace "hello" [])
    as (ctx & hp & H1 & H2 & H3 & _).
  - discriminate.
  - exists ctx, hp. repeat split; assumption.
Defined.

(** ** The syslog logger *)

(** A syslog logger drops nil, and drops every message once it is closed
    (as it is until its loop has started); the first [Close] closes both
    channels and returns what closing the writer returns, every later one
    returns nil and changes nothing. *)
Theorem syslog_close_once (h : Host) (l : syslog) :
  open_syslog l ->
  syslog_Write l None = SysDropped /\
  exists l1,
    syslog_Close h l
    = Some (l1, match s_writer l with
                | Some wr => writer_Close h wr
                | None => None
                end) /\
    s_closed l1 = 1 /\
    chan_closed (s_messages l1) = true /\
    chan_closed (s_closeNotify l1) = true /\
    queue (s_messages l1) = queue (s_messages l) /\
    syslog_Close h l1 = Some (l1, None) /\
    forall msg, syslog_Write l1 msg = SysDropped.
Proof.
  intros (Hc & Hn & Hm).
  split; [reflexivity|].
  unfold syslog_Close, CompareAndSwapUint32, close_chan.
  rewrite Hc, Hn, Hm. cbn [Z.eqb].
  exists (mkSyslog (s_level l) (s_writer l)
            (mkChan (queue (s_messages l)) true) (s_formatter l)
            (mkChan (queue (s_closeNotify l)) true) 1).
  split.
  - destruct (s_writer l); reflexivity.
  - cbn. repeat split.
    intros msg. unfold syslog_Write. cbn.
    destruct msg; [|reflexivity]. now destruct (s_writer l).
Qed.

Lemma syslog_close_once_witness :
  syslog_Write (mkSyslog LevelInfo (Some 9) (mkChan [] false) None
                  (mkChan [] false) 0) None = SysDropped.
Proof.
  apply (syslog_close_once sample_host
           (mkSyslog LevelInfo (Some 9) (mkChan [] false) None
              (mkChan [] false) 0)).
  unfold open_syslog. cbn. repeat split; reflexivity.
Defined.
(** ** The options and the constructor of the file sink *)

Lemma byte_of_range (c : ascii) : 0 <= byte_of c < 256.
Proof.
  unfold byte_of. pose proof (N_ascii_bounded c). lia.
Qed.

Lemma high_byte_differs (k c : ascii) :
  byte_of k < 128 -> 128 <= byte_of c -> Ascii.eqb c k = false.
Proof.
  intros Hk H. destruct (Ascii.eqb c k) eqn:E; [|reflexivity].
  apply Ascii.eqb_eq in E. subst. lia.
Qed.

Lemma substring_tail (c : ascii) (s : string) (n m : nat) :
  substring (S n) m (String c s) = substring n m s.
Proof. reflexivity. Qed.

(** What one step of the loop over the runes reads and leaves. *)
Lemma decode_rune_step (k c0 : ascii) (r0 : string) :
  byte_of k < 128 ->
  let s := String c0 r0 in
  exists rest,
    substring (snd (decode_rune s)) (String.length s - snd (decode_rune s)) s
    = rest /\
    (String.length rest < String.length s)%nat /\
    (c0 = k -> fst (decode_rune s) = byte_of k) /\
    (has_byte k r0 = true -> has_byte k rest = true).
Proof.
  intros Hk s. subst s.
  assert (Hone : exists rest,
    substring 1 (String.length (String c0 r0) - 1) (String c0 r0) = rest /\
    (String.length rest < String.length (String c0 r0))%nat /\
    (has_byte k r0 = true -> has_byte k rest = true)).
  { exists r0. cbn [String.length]. rewrite Nat.sub_succ, Nat.sub_0_r.
    rewrite substring_tail, substring_all. repeat split; auto. }
  destruct Hone as (rest1 & H1 & H2 & H3).
  unfold decode_rune.
  destruct (byte_of c0 <? 128) eqn:E0.
  { exists rest1. cbn [fst snd]. repeat split; auto. now intros ->. }
  apply Z.ltb_ge in E0.
  assert (Herr : forall r, r = (RuneError, 1%nat) ->
    exists rest,
      substring (snd r) (String.length (String c0 r0) - snd r) (String c0 r0)
      = rest /\
      (String.length rest < String.length (String c0 r0))%nat /\
      (c0 = k -> fst r = byte_of k) /\
      (has_byte k r0 = true -> has_byte k rest = true)).
  { intros r ->. exists rest1. cbn [fst snd]. repeat split; auto.
    intros ->. lia. }
  destruct (lead_class (byte_of c0)) as [[[sz lo] hi]|] eqn:EL;
    [|now apply Herr].
  assert (Hlo : 128 <= lo).
  { unfold lead_class in EL.
    repeat match type of EL with
           | (if ?b then _ else _) = _ => destruct b
           end; inversion EL; lia. }
  destruct (len (String c0 r0) <? sz); [now apply Herr|].
  destruct r0 as [|c1 r1]; [now apply Herr|].
  destruct ((byte_of c1 <? lo) || (hi <? byte_of c1)) eqn:E1;
    [now apply Herr|].
  apply orb_false_iff in E1. destruct E1 as [E1 _]. apply Z.ltb_ge in E1.
  assert (N1 : Ascii.eqb c1 k = false)
    by (apply high_byte_differs; lia).
  destruct (sz <=? 2).
  { exists r1. cbn [fst snd String.length].
    rewrite !Nat.sub_succ, Nat.sub_0_r, !substring_tail, substring_all.
    repeat split; [lia|intros ->; lia|].
    cbn [has_byte]. now rewrite N1. }
  destruct r1 as [|c2 r2]; [now apply Herr|].
  destruct (negb (continuation (byte_of c2))) eqn:E2; [now apply Herr|].
  apply negb_false_iff in E2. unfold continuation in E2.
  apply andb_true_iff in E2. destruct E2 as [E2 _]. apply Z.leb_le in E2.
  assert (N2 : Ascii.eqb c2 k = false)
    by (apply high_byte_differs; lia).
  destruct (sz <=? 3).
  { exists r2. cbn [fst snd String.length].
    rewrite !Nat.sub_succ, Nat.sub_0_r, !substring_tail, substring_all.
    repeat split; [lia|intros ->; lia|].
    cbn [has_byte]. now rewrite N1, N2. }
  destruct r2 as [|c3 r3]; [now apply Herr|].
  destruct (negb (continuation (byte_of c3))) eqn:E3; [now apply Herr|].
  apply negb_false_iff in E3. unfold continuation in E3.
  apply andb_true_iff in E3. destruct E3 as [E3 _]. apply Z.leb_le in E3.
  assert (N3 : Ascii.eqb c3 k = false)
    by (apply high_byte_differs; lia).
  exists r3. cbn [fst snd String.length].
  rewrite !Nat.sub_succ, Nat.sub_0_r, !substring_tail, substring_all.
  repeat split; [lia|intros ->; lia|].
  cbn [has_byte]. now rewrite N1, N2, N3.
Qed.

Lemma separator_found_byte (sep : Z -> bool) (k : ascii) :
  byte_of k < 128 ->
  sep (byte_of k) = true ->
  forall n s,
    (String.length s <= n)%nat ->
    has_byte k s = true ->
    separator_found sep n s = true.
Proof.
  intros Hk Hsep. induction n as [|n IH]; intros s Hn Hs.
  - destruct s; [discriminate|cbn in Hn; lia].
  - destruct s as [|c0 r0]; [discriminate|].
    cbn [separator_found].
    destruct (decode_rune_step k c0 r0 Hk)
      as (rest & Hrest & Hlen & Hfst & Hhas).
    destruct (decode_rune (String c0 r0)) as [ch size].
    cbn [fst snd] in *.
    destruct (sep (ch mod 256)) eqn:Es; [reflexivity|].
    rewrite Hrest. apply IH; [cbn in Hlen, Hn; lia|].
    apply Hhas. cbn [has_byte] in Hs.
    destruct (Ascii.eqb c0 k) eqn:E0; [|exact Hs].
    apply Ascii.eqb_eq in E0. rewrite (Hfst E0) in Es.
    pose proof (byte_of_range k).
    rewrite Z.mod_small in Es by lia. congruence.
Qed.

(** X27.  [Path] panics on every pattern that holds a byte the platform
    takes for a path separator, wherever the byte stands and whatever
    the other bytes are, valid UTF-8 or not: no state is returned.  The
    byte is ASCII, as '/' and the backslash are. *)
Theorem Path_panics_on_separator (p : Platform) (k : ascii)
  (dir pattern : string) (rest : list string) (f : file) :
  byte_of k < 128 ->
  IsPathSeparator p (byte_of k) = true ->
  has_byte k pattern = true ->
  option_on_file p (Path dir (pattern :: rest)) f = None.
Proof.
  intros Hk Hsep Hhas. cbn [option_on_file].
  now rewrite (separator_found_byte _ k Hk Hsep _ pattern (le_n _) Hhas).
Qed.

Lemma Path_panics_on_separator_witness :
  option_on_file unix (Path "logs" ["2026/app-*.log"]) (sample_file "" "")
  = None.
Proof.
  apply (Path_panics_on_separator unix "/"%char);
    [reflexivity | reflexivity | reflexivity].
Defined.

Lemma separator_found_after_ascii (sep : Z -> bool) (s : string) (n : nat) :
  separator_found sep n s = true ->
  forall a,
    ascii_only a = true ->
    separator_found sep (String.length a + n) (a +++ s) = true.
Proof.
  intros Hs. induction a as [|c a IH]; intros Ha; [exact Hs|].
  cbn [ascii_only] in Ha. apply andb_true_iff in Ha. destruct Ha as [Hc Ha].
  cbn [String.append String.length Nat.add separator_found decode_rune].
  rewrite Hc.
  destruct (sep (byte_of c mod 256)); [reflexivity|].
  cbn [String.length]. rewrite Nat.sub_succ, Nat.sub_0_r.
  rewrite substring_tail, substring_all. now apply IH.
Qed.

(** X28.  The loop of [Path] cuts each rune to its low eight bits before
    asking the platform, so a pattern without any separator byte still
    panics when it holds, after ASCII text, a two-byte rune whose low
    byte is a separator. *)
Theorem Path_panics_on_rune_with_separator_low_byte (p : Platform)
  (dir a b : string) (c0 c1 : ascii) (rest : list string) (f : file) :
  ascii_only a = true ->
  194 <= byte_of c0 < 224 ->
  128 <= byte_of c1 <= 191 ->
  IsPathSeparator p (rune2 c0 c1 mod 256) = true ->
  option_on_file p (Path dir ((a +++ String c0 (String c1 b)) :: rest)) f
  = None.
Proof.
  intros Ha H0 H1 Hsep. cbn [option_on_file].
  rewrite length_append.
  rewrite separator_found_after_ascii; [reflexivity| |exact Ha].
  cbn [String.length separator_found decode_rune].
  replace (byte_of c0 <? 128) with false by (symmetry; apply Z.ltb_ge; lia).
  assert (EL : lead_class (byte_of c0) = Some (2, 128, 191)).
  { unfold lead_class.
    replace (byte_of c0 <? 194) with false
      by (symmetry; apply Z.ltb_ge; lia).
    replace (byte_of c0 <? 224) with true
      by (symmetry; apply Z.ltb_lt; lia).
    reflexivity. }
  rewrite EL.
  replace (len (String c0 (String c1 b)) <? 2) with false
    by (symmetry; apply Z.ltb_ge; unfold len; cbn [String.length]; lia).
  replace ((byte_of c1 <? 128) || (191 <? byte_of c1)) with false
    by (symmetry; apply orb_false_iff; split; apply Z.ltb_ge; lia).
  change (2 <=? 2) with true. cbv iota beta.
  fold (rune2 c0 c1). now rewrite Hsep.
Qed.

Lemma Path_panics_on_rune_with_separator_low_byte_witness :
  has_byte "/"
    ("app-" +++ String (ascii_of_nat 196) (String (ascii_of_nat 175) "*"))
  = false /\
  option_on_file unix
    (Path "logs"
       [("app-" +++ String (ascii_of_nat 196) (String (ascii_of_nat 175) "*"))])
    (sample_file "" "")
  = None.
Proof.
  split; [reflexivity|].
  apply (Path_panics_on_rune_with_separator_low_byte unix "logs" "app-" "*"
           (ascii_of_nat 196) (ascii_of_nat 175));
    [reflexivity
    | change (byte_of (ascii_of_nat 196)) with 196; lia
    | change (byte_of (ascii_of_nat 175)) with 175; lia
    | reflexivity].
Defined.

Lemma option_on_file_frame (p : Platform) (o : Option_) (f g : file) :
  option_on_file p o f = Some g -> same_plumbing f g.
Proof.
  unfold same_plumbing.
  destruct o as [x|x|x|x|x|x|dir [|pattern ps]|]; cbn [option_on_file];
    try (intros H; inversion H; subst; cbn; repeat split; reflexivity).
  destruct (separator_found _ _ _); [discriminate|].
  destruct (regexp_compiles _ _); [|discriminate].
  intros H; inversion H; subst; cbn; repeat split; reflexivity.
Qed.

Lemma options_on_file_frame (p : Platform) (os : list Option_) :
  forall f g, options_on_file p os f = Some g -> same_plumbing f g.
Proof.
  induction os as [|o os IH]; intros f g H; cbn in H.
  - inversion H; subst. unfold same_plumbing. repeat split; reflexivity.
  - destruct (option_on_file p o f) as [f'|] eqn:E; [|discriminate].
    apply option_on_file_frame in E. apply IH in H.
    unfold same_plumbing in *.
    destruct E as (E1 & E2 & E3 & E4 & E5 & E6).
    destruct H as (H1 & H2 & H3 & H4 & H5 & H6).
    repeat split; congruence.
Qed.

Lemma options_on_file_Some (p : Platform) (os : list Option_) :
  (forall o g, In o os -> option_on_file p o g <> None) ->
  forall f, exists g, options_on_file p os f = Some g.
Proof.
  induction os as [|o os IH]; intros Hos f; cbn.
  - now exists f.
  - destruct (option_on_file p o f) as [f'|] eqn:E.
    + apply IH. intros o' g Hin. apply Hos. now right.
    + exfalso. apply (Hos o f); [now left|exact E].
Qed.

Lemma options_on_file_None (p : Platform) (os : list Option_) (o : Option_) :
  In o os ->
  (forall g, option_on_file p o g = None) ->
  forall f, options_on_file p os f = None.
Proof.
  intros Hin Ho. induction os as [|o' os IH]; intros f; [destruct Hin|].
  cbn. destruct Hin as [->|Hin].
  - now rewrite Ho.
  - destruct (option_on_file p o' f); [now apply IH|reflexivity].
Qed.

(** The state, the trace and the error of a rotation that returns, field
    by field. *)
Lemma rotate_fields (w : World) (f g : file) (tr : list event)
  (err : option string) :
  rotate w f = Some (g, tr, err) ->
  level g = level f /\ path g = path f /\ filesize g = 0 /\
  messages g = messages f /\ closeNotify g = closeNotify f /\
  closed g = closed f /\
  file_ g =
    match os_OpenFile w (path g +++ "/" +++ filename g) with
    | inl fd => Some fd
    | inr _ => None
    end /\
  err =
    match os_OpenFile w (path g +++ "/" +++ filename g) with
    | inl _ => None
    | inr e => Some e
    end /\
  exists tr0,
    tr = tr0 ++ [EvOpenFile (path g +++ "/" +++ filename g) true true true 432].
Proof.
  unfold rotate.
  destruct (compress w f) as [[tr2 cerr]|]; [|discriminate].
  set (logged := match cerr with Some e => _ | None => _ end).
  assert (HL : level (fst logged) = level f /\ path (fst logged) = path f /\
               messages (fst logged) = messages f /\
               closeNotify (fst logged) = closeNotify f /\
               closed (fst logged) = closed f).
  { subst logged. destruct cerr as [e|]; [|cbn; auto 6].
    pose proof (write_frame w f
      (Some (mkMessage LevelError "" "" 0 e (now w) []))) as (P & _).
    pose proof (write_keeps_channels w f
      (Some (mkMessage LevelError "" "" 0 e (now w) []))) as (M & N & C).
    repeat split; auto.
    unfold write, Format.
    destruct (formatter f); cbn -[Z.geb Z.add];
      destruct (file_ f); cbn -[Z.geb Z.add];
      try destruct (_ >=? _); cbn; auto. }
  destruct logged as [f1 tr3]. cbn [fst] in HL.
  destruct HL as (L1 & L2 & L3 & L4 & L5).
  destruct (run_format w (set_filesize f1 0)) as [fname0 tr4].
  set (f4 := if (filename _ =? "")%string then _ else _).
  assert (H4 : level f4 = level f /\ path f4 = path f /\ filesize f4 = 0 /\
               messages f4 = messages f /\ closeNotify f4 = closeNotify f /\
               closed f4 = closed f).
  { subst f4. destruct (filename _ =? "")%string; cbn; auto 7. }
  destruct H4 as (A1 & A2 & A3 & A4 & A5 & A6).
  destruct (os_OpenFile w (path f4 +++ "/" +++ filename f4)) as [fd|e] eqn:EO;
    intros H; inversion H; subst;
    replace (path (set_file f4 _)) with (path f4) by reflexivity;
    replace (filename (set_file f4 _)) with (filename f4) by reflexivity;
    rewrite EO;
    (repeat split; auto;
     exists (match file_ f with Some fd => [EvFileClose fd] | None => [] end
             ++ tr2 ++ tr3 ++ tr4);
     now rewrite <- !app_assoc).
Qed.

(** X29.  When the directory of the sink can be reached, the platform
    opens the file and no option panics, [NewFileLogger] returns only
    after the first rotation: the sink has
    the level asked for, an open file of its own named in its
    directory (the working directory when no [Path] set one, and then
    no directory is created), nothing counted as written, an empty
    queue, and takes any message without blocking.  The last call of
    the constructor is the opening of that file for appending. *)
Theorem NewFileLogger_ready (w : World) (p : Platform) (lvl : Level)
  (options : list Option_) :
  (exists t, root w = inl t) ->
  (forall name, exists fd, os_OpenFile w name = inl fd) ->
  (forall o g, In o options -> option_on_file p o g <> None) ->
  exists f made tr0 fd,
    NewFileLogger w p lvl options
    = Some (f, made,
            tr0 ++ [EvOpenFile (path f +++ "/" +++ filename f)
                      true true true 432]) /\
    level f = lvl /\
    file_ f = Some fd /\
    os_OpenFile w (path f +++ "/" +++ filename f) = inl fd /\
    filesize f = 0 /\
    path f <> "" /\
    (made = None -> path f = ".") /\
    (forall d, made = Some d -> path f = d) /\
    open_sink f /\
    queue (messages f) = [] /\
    forall msg, exists f', Write f msg = Enqueued f'.
Proof.
  intros Hroot Hopen Hopts. unfold NewFileLogger.
  set (f0 := mkFile lvl "" _ _ _ _ _ _ 0 "" None _ _ "" _ _ _ 0).
  destruct (options_on_file_Some p options Hopts f0) as [f1 E1].
  rewrite E1.
  apply options_on_file_frame in E1.
  destruct E1 as (P1 & P2 & P3 & P4 & P5 & P6). cbn in P1, P2, P3, P4, P5, P6.
  set (f2m := if 0 <? len (path f1) then _ else _).
  assert (H2 : level (fst f2m) = lvl /\
               messages (fst f2m) = mkChan [] false /\
               closeNotify (fst f2m) = mkChan [] false /\
               closed (fst f2m) = 0 /\
               path (fst f2m) <> "" /\
               (snd f2m = None -> path (fst f2m) = ".") /\
               (forall d, snd f2m = Some d -> path (fst f2m) = d)).
  { subst f2m. destruct (0 <? len (path f1)) eqn:EP; cbn [fst snd].
    - repeat split; auto; try discriminate.
      + intros E. rewrite E in EP. discriminate.
      + intros d Hd. now inversion Hd.
    - cbn. repeat split; auto; discriminate. }
  destruct f2m as [f2 made]. cbn [fst snd] in H2.
  destruct H2 as (L & M & N & C & Pne & Pd & Ps).
  unfold run_start.
  destruct (rotate w f2) as [[[f3 tr] err]|] eqn:Er;
    [|apply (rotate_panics w f2) in Er; destruct Hroot as [t Ht];
      destruct Er as [e He]; congruence].
  destruct (rotate_fields w f2 f3 tr err Er)
    as (R1 & R2 & R3 & R4 & R5 & R6 & R7 & R8 & tr0 & R9).
  destruct (Hopen (path f3 +++ "/" +++ filename f3)) as [fd Hfd].
  rewrite Hfd in R7, R8. subst err tr.
  exists f3, made, tr0, fd.
  assert (Hq : queue (messages f3) = []) by now rewrite R4, M.
  assert (Hs : open_sink f3).
  { unfold open_sink. rewrite R6, R5, R4, C, N, M. auto. }
  split; [reflexivity|]. split; [congruence|]. split; [exact R7|].
  split; [exact Hfd|]. split; [exact R3|]. split; [congruence|].
  split; [intros Hm; rewrite R2; now apply Pd|].
  split; [intros d Hd; rewrite R2; now apply Ps|].
  split; [exact Hs|]. split; [exact Hq|].
  intros msg. destruct (Write_open f3 msg Hs) as [B|(f' & W & _)];
    [|now exists f'].
  exfalso. revert B. unfold Write, LoadUint32.
  destruct Hs as (Hc & _ & Hm). rewrite Hc, Hm, Hq. discriminate.
Qed.

Lemma NewFileLogger_ready_witness :
  exists f made tr0 fd,
    NewFileLogger (quiet_world empty_dir 0) unix LevelInfo
      [Path "logs" ["app-*"]; RotatePolicy RotateBySize]
    = Some (f, made,
            tr0 ++ [EvOpenFile (path f +++ "/" +++ filename f)
                      true true true 432]) /\
    level f = LevelInfo /\
    file_ f = Some fd /\
    os_OpenFile (quiet_world empty_dir 0) (path f +++ "/" +++ filename f)
    = inl fd /\
    filesize f = 0 /\
    path f <> "" /\
    (made = None -> path f = ".") /\
    (forall d, made = Some d -> path f = d) /\
    open_sink f /\
    queue (messages f) = [] /\
    forall msg, exists f', Write f msg = Enqueued f'.
Proof.
  apply (NewFileLogger_ready (quiet_world empty_dir 0) unix LevelInfo
           [Path "logs" ["app-*"]; RotatePolicy RotateBySize]).
  - now exists empty_dir.
  - intros name. now exists 3.
  - intros o g [<-|[<-|[]]]; discriminate.
Defined.

(** X30.  [NewFileLogger] panics, and hands no logger back, when the
    platform refuses to open the log file, when one of the options
    panics, and when the directory of the sink cannot be reached (the
    archiver of the first rotation then panics). *)
Theorem NewFileLogger_panics (w : World) (p : Platform) (lvl : Level)
  (options : list Option_) :
  (forall name, exists e, os_OpenFile w name = inr e) \/
  (exists o, In o options /\ forall g, option_on_file p o g = None) \/
  (exists e, root w = inr e) ->
  NewFileLogger w p lvl options = None.
Proof.
  intros [Hfail|[(o & Hin & Ho)|Hmiss]]; unfold NewFileLogger.
  - destruct (options_on_file p options _) as [f1|]; [|reflexivity].
    destruct (if 0 <? len (path f1) then _ else _) as [f2 made].
    unfold run_start.
    destruct (rotate w f2) as [[[f3 tr] err]|] eqn:Er; [|reflexivity].
    destruct (rotate_fields w f2 f3 tr err Er)
      as (_ & _ & _ & _ & _ & _ & _ & R8 & _).
    destruct (Hfail (path f3 +++ "/" +++ filename f3)) as [e He].
    rewrite He in R8. now subst err.
  - now rewrite (options_on_file_None p options o Hin Ho).
  - destruct (options_on_file p options _) as [f1|]; [|reflexivity].
    destruct (if 0 <? len (path f1) then _ else _) as [f2 made].
    unfold run_start.
    apply (rotate_panics w f2) in Hmiss. now rewrite Hmiss.
Qed.

Lemma NewFileLogger_panics_witness :
  NewFileLogger
    (with_OpenFile (quiet_world empty_dir 0) (fun _ => inr "permission denied"))
    unix LevelInfo [Path "logs" ["app-*"]]
  = None /\
  NewFileLogger (quiet_world empty_dir 0) unix LevelInfo
    [RotatePolicy RotateBySize; Path "logs" ["2026/app-*"]]
  = None /\
  NewFileLogger
    (without_root (quiet_world empty_dir 0)
       "lstat logs: permission denied")
    unix LevelInfo [Path "logs" ["app-*"]]
  = None.
Proof.
  split; [|split].
  - apply (NewFileLogger_panics
             (with_OpenFile (quiet_world empty_dir 0)
                (fun _ => inr "permission denied"))).
    left. intros name. now exists "permission denied".
  - apply (NewFileLogger_panics (quiet_world empty_dir 0)).
    right. left. exists (Path "logs" ["2026/app-*"]).
    split; [right; left; reflexivity|]. intros g. reflexivity.
  - apply (NewFileLogger_panics
             (without_root (quiet_world empty_dir 0)
                "lstat logs: permission denied")).
    right. right. now exists "lstat logs: permission denied".
Defined.
